(** * Waterbalans: the EAG and Gaf classes, embedded and verified

    A shallow embedding of [waterbalans/eag.py] (class [Eag]) and
    [waterbalans/gaf.py] (class [Gaf]).

    - Numbers are IEEE-style extended rationals: exact rational
      arithmetic on the finite values, with the two infinities and NaN
      that numpy produces (division by zero does not raise).  Rounding
      and the sign of zero are abstracted away.
    - pandas objects are lists: a Series is an ordered list of
      (label, value) pairs, a DataFrame an index with named columns.
      The columns of a table of fluxes hold floating-point numbers.
      Labels of an index and names of columns are taken to be unique, as
      pandas time indexes and the tables of this package are, and a
      lookup returns the first match; where the code raises at a label
      that an index has twice, the embedding raises as well.
    - Python exceptions are values of [exn]; methods that mutate [self]
      run in a state-and-exception monad that keeps the state reached
      when an exception is raised, and that records the calls made to
      the bucket models, which live outside these two files. *)

From Stdlib Require Import List ZArith QArith Qabs String Ascii Bool Lia Lqa.
From Stdlib Require Import DecimalString.
Import ListNotations.

Local Open Scope string_scope.
Local Open Scope list_scope.
Local Open Scope Z_scope.

(* ================================================================= *)
(** ** Numbers *)

Module Num.

Inductive num : Type :=
| Fin (q : Q)
| PInf
| NInf
| NaN.

Definition sgn (q : Q) : comparison := (q ?= 0)%Q.

Definition inf_of (c : comparison) : num :=
  match c with Gt => PInf | Lt => NInf | Eq => NaN end.

Definition of_Z (z : Z) : num := Fin (inject_Z z).

Definition zero : num := of_Z 0.

Definition add (x y : num) : num :=
  match x, y with
  | NaN, _ | _, NaN => NaN
  | Fin a, Fin b => Fin (a + b)
  | PInf, NInf | NInf, PInf => NaN
  | PInf, _ | _, PInf => PInf
  | NInf, _ | _, NInf => NInf
  end.

Definition opp (x : num) : num :=
  match x with
  | Fin a => Fin (- a)
  | PInf => NInf
  | NInf => PInf
  | NaN => NaN
  end.

Definition sub (x y : num) : num := add x (opp y).

Definition mul (x y : num) : num :=
  match x, y with
  | NaN, _ | _, NaN => NaN
  | Fin a, Fin b => Fin (a * b)
  | Fin a, PInf | PInf, Fin a => inf_of (sgn a)
  | Fin a, NInf | NInf, Fin a => inf_of (CompOpp (sgn a))
  | PInf, PInf | NInf, NInf => PInf
  | PInf, NInf | NInf, PInf => NInf
  end.

(** numpy's true division: a zero divisor gives an infinity or NaN, and
    no exception. *)
Definition div (x y : num) : num :=
  match x, y with
  | NaN, _ | _, NaN => NaN
  | Fin a, Fin b => if Qeq_bool b 0 then inf_of (sgn a) else Fin (a / b)
  | Fin _, PInf | Fin _, NInf => Fin 0
  | PInf, Fin b => match sgn b with Lt => NInf | _ => PInf end
  | NInf, Fin b => match sgn b with Lt => PInf | _ => NInf end
  | _, _ => NaN
  end.

Definition abs (x : num) : num :=
  match x with
  | Fin a => Fin (Qabs a)
  | PInf | NInf => PInf
  | NaN => NaN
  end.

(** [x < 0] and [x > 0]; a comparison with NaN is false. *)
Definition ltb0 (x : num) : bool :=
  match x with
  | Fin a => match sgn a with Lt => true | _ => false end
  | NInf => true
  | PInf | NaN => false
  end.

Definition gtb0 (x : num) : bool :=
  match x with
  | Fin a => match sgn a with Gt => true | _ => false end
  | PInf => true
  | NInf | NaN => false
  end.

Definition isnan (x : num) : bool :=
  match x with NaN => true | _ => false end.

Definition is_finite (x : num) : bool :=
  match x with Fin _ => true | _ => false end.

Definition is_zero (x : num) : bool :=
  match x with Fin a => Qeq_bool a 0 | _ => false end.

(** Equality of values: [Qeq] on the finite ones. *)
Definition eqv (x y : num) : Prop :=
  match x, y with
  | Fin a, Fin b => (a == b)%Q
  | PInf, PInf | NInf, NInf | NaN, NaN => True
  | _, _ => False
  end.

(** A sum with pandas' [skipna=True]: NaN entries are left out, and the
    sum of nothing is 0. *)
Definition nansum (xs : list num) : num :=
  fold_left (fun acc x => if isnan x then acc else add acc x) xs zero.

(** The plain left-to-right sum. *)
Definition sum (xs : list num) : num := fold_left add xs zero.

(** The rational a finite value stands for, and the rational sum of the
    values of a list. *)
Definition to_Q (x : num) : Q :=
  match x with Fin a => a | _ => 0%Q end.

Definition Qsum (xs : list num) : Q :=
  fold_right (fun x acc => (to_Q x + acc)%Q) 0%Q xs.

End Num.

Import Num.

Declare Scope num_scope.
Delimit Scope num_scope with num.
Bind Scope num_scope with num.
Infix "+" := add : num_scope.
Infix "-" := sub : num_scope.
Infix "*" := mul : num_scope.
Infix "/" := div : num_scope.
Infix "==" := eqv (at level 70, no associativity) : num_scope.

(* ================================================================= *)
(** ** Python: exceptions, [str] of an int, ordered dictionaries *)

Module Py.

Inductive exn : Type :=
| KeyError
| IndexError
| AttributeError
| ValueError.

Inductive result (A : Type) : Type :=
| Ok (a : A)
| Raise (e : exn).
Arguments Ok {A} a.
Arguments Raise {A} e.

Definition rbind {A B} (r : result A) (f : A -> result B) : result B :=
  match r with
  | Ok a => f a
  | Raise e => Raise e
  end.

Definition of_option {A} (e : exn) (o : option A) : result A :=
  match o with
  | Some a => Ok a
  | None => Raise e
  end.

Fixpoint rmap {A B} (f : A -> result B) (xs : list A) : result (list B) :=
  match xs with
  | [] => Ok []
  | x :: xs' =>
      rbind (f x) (fun y => rbind (rmap f xs') (fun ys => Ok (y :: ys)))
  end.

(** [str(z)] for an int. *)
Definition str (z : Z) : string := NilZero.string_of_int (Z.to_int z).

(** An [OrderedDict] with int or string keys: an association list in
    insertion order, keys unique. *)
Section OrderedDict.
Context {K V : Type} (eqb : K -> K -> bool).

Fixpoint od_get (d : list (K * V)) (k : K) : option V :=
  match d with
  | [] => None
  | (k', v) :: d' => if eqb k k' then Some v else od_get d' k
  end.

Definition od_mem (d : list (K * V)) (k : K) : bool :=
  match od_get d k with Some _ => true | None => false end.

(** [d[k] = v]: an existing key keeps its place, a new one goes last. *)
Fixpoint od_set (d : list (K * V)) (k : K) (v : V) : list (K * V) :=
  match d with
  | [] => [(k, v)]
  | (k', v') :: d' =>
      if eqb k k' then (k', v) :: d' else (k', v') :: od_set d' k v
  end.

Definition od_keys (d : list (K * V)) : list K := map fst d.
Definition od_values (d : list (K * V)) : list V := map snd d.
End OrderedDict.

End Py.

Import Py.

Declare Scope result_scope.
Delimit Scope result_scope with result.
Notation "x <- c ;; k" := (rbind c (fun x => k))
  (at level 61, c at next level, right associativity) : result_scope.

(* ================================================================= *)
(** ** pandas: Series and DataFrame *)

Module Pandas.

(** A timestamp of a time index. *)
Definition time : Type := Z.

(** A Series: labels with their values, in order. *)
Definition Series (L V : Type) : Type := list (L * V).

Definition sr_index {L V} (s : Series L V) : list L := map fst s.
Definition sr_values {L V} (s : Series L V) : list V := map snd s.

(** A DataFrame of numbers over a time index: the columns, in order,
    each as long as the index. *)
Record DataFrame : Type := mkDF {
  df_index : list time;
  df_columns : list (string * list num)
}.

(** [pd.DataFrame()] *)
Definition df_empty : DataFrame := mkDF [] [].

Fixpoint index_eqb (a b : list time) : bool :=
  match a, b with
  | [], [] => true
  | x :: a', y :: b' => (x =? y) && index_eqb a' b'
  | _, _ => false
  end.

(** The position of a label in an index. *)
Fixpoint index_of (t : time) (ix : list time) : option nat :=
  match ix with
  | [] => None
  | x :: ix' =>
      if x =? t then Some O
      else match index_of t ix' with
           | Some i => Some (S i)
           | None => None
           end
  end.

(** Whether an index has the label [t] more than once: [.loc[t]] then
    selects several entries, and gives a Series and not a number. *)
Definition ix_repeated (t : time) (ix : list time) : bool :=
  (1 <? List.length (filter (Z.eqb t) ix))%nat.

(** [s.loc[t]] *)
Fixpoint sr_loc (s : Series time num) (t : time) : result num :=
  match s with
  | [] => Raise KeyError
  | (l, v) :: s' => if l =? t then Ok v else sr_loc s' t
  end.

(** [s.loc[t] = v] for a label of the index and a number [v]. *)
Definition sr_set (s : Series time num) (t : time) (v : num)
  : Series time num :=
  map (fun lv => if fst lv =? t then (fst lv, v) else lv) s.

(** [pd.Series(index=ix)]: a Series of NaN. *)
Definition sr_nan (ix : list time) : Series time num :=
  map (fun t => (t, NaN)) ix.

(** [s.reindex(ix)]: the values at the labels of [ix], NaN where [s] has
    none. *)
Definition sr_reindex (s : Series time num) (ix : list time) : list num :=
  map (fun t => match sr_loc s t with Ok v => v | Raise _ => NaN end) ix.

(** [df[name]] *)
Definition df_getcol (df : DataFrame) (name : string) : result (list num) :=
  of_option KeyError (od_get String.eqb (df_columns df) name).

(** [df[name]] as a Series. *)
Definition df_getitem (df : DataFrame) (name : string)
  : result (Series time num) :=
  (v <- df_getcol df name ;; Ok (combine (df_index df) v))%result.

(** [df.loc[:, names]]: a new frame with the named columns, in the order
    of [names]; a name that is no column raises KeyError (pandas 1.0 and
    later; before, the column was filled with NaN, with a warning).  The
    properties below are stated for tables that have the columns. *)
Definition df_loc_cols (df : DataFrame) (names : list string)
  : result DataFrame :=
  (cols <- rmap (fun n => v <- df_getcol df n ;; Ok (n, v)) names ;;
   Ok (mkDF (df_index df) cols))%result.

(** [df.rename(columns=d)] *)
Definition df_rename (df : DataFrame) (d : list (string * string))
  : DataFrame :=
  mkDF (df_index df)
       (map (fun c => (match od_get String.eqb d (fst c) with
                       | Some n => n
                       | None => fst c
                       end, snd c)) (df_columns df)).

(** [df[mask(df)] = v]: every entry that satisfies the test is set. *)
Definition df_mask_set (test : num -> bool) (v : num) (df : DataFrame)
  : DataFrame :=
  mkDF (df_index df)
       (map (fun c => (fst c, map (fun x => if test x then v else x) (snd c)))
            (df_columns df)).

(** The entries of row [i], one per column. *)
Definition df_row (df : DataFrame) (i : nat) : list num :=
  map (fun c => nth i (snd c) NaN) (df_columns df).

(** The sums of the rows over their entries that are not NaN, and
    [df.sum(axis=1)], the Series of these sums.  The entries are
    floating-point numbers: the sum does not wrap around, as a sum of
    64-bit integers does beyond 2^63. *)
Definition row_sums (df : DataFrame) : list num :=
  map (fun i => nansum (df_row df i)) (seq 0 (List.length (df_index df))).

Definition df_sum_rows (df : DataFrame) : Series time num :=
  combine (df_index df) (row_sums df).

(** [df[name] = s] for a Series: the values are taken as they are when the
    two indexes are equal or the frame has no rows yet (the frame then
    takes the index of [s]), and by label otherwise. *)
Definition df_setitem (df : DataFrame) (name : string) (s : Series time num)
  : DataFrame :=
  match df_index df with
  | [] =>
      mkDF (sr_index s)
           (od_set String.eqb
                   (map (fun c => (fst c, map (fun _ => NaN) s)) (df_columns df))
                   name (sr_values s))
  | _ :: _ =>
      mkDF (df_index df)
           (od_set String.eqb (df_columns df) name
                   (if index_eqb (sr_index s) (df_index df)
                    then sr_values s
                    else sr_reindex s (df_index df)))
  end.

(** [df[name] = v] for a scalar. *)
Definition df_setitem_scalar (df : DataFrame) (name : string) (v : num)
  : DataFrame :=
  mkDF (df_index df)
       (od_set String.eqb (df_columns df) name
               (map (fun _ => v) (df_index df))).

(** [df.loc[t, names]]: the entries of the row labelled [t] in the named
    columns. *)
Definition df_loc_row (df : DataFrame) (t : time) (names : list string)
  : result (list num) :=
  (i <- of_option KeyError (index_of t (df_index df)) ;;
   rmap (fun n => v <- df_getcol df n ;; Ok (nth i v NaN)) names)%result.

(** Insertion of a label in a sorted index without repetition. *)
Fixpoint ix_insert (t : time) (ix : list time) : list time :=
  match ix with
  | [] => [t]
  | x :: ix' =>
      if t <? x then t :: ix
      else if t =? x then ix
      else x :: ix_insert t ix'
  end.

(** The index on which two Series are aligned: the sorted union, or the
    other index when one is empty. *)
Definition ix_union (a b : list time) : list time :=
  match a, b with
  | [], _ => b
  | _, [] => a
  | _, _ => fold_right ix_insert [] (a ++ b)
  end.

(** [a / b] for two Series: entry by entry when the indexes are equal, and
    on the union of the labels otherwise, NaN where a label is missing on
    a side. *)
Definition sr_div (a b : Series time num) : Series time num :=
  if index_eqb (sr_index a) (sr_index b)
  then map (fun xy => (fst (fst xy), (snd (fst xy) / snd xy)%num))
           (combine a (sr_values b))
  else let ix := ix_union (sr_index a) (sr_index b) in
       combine ix (map (fun xy => (fst xy / snd xy)%num)
                       (combine (sr_reindex a ix) (sr_reindex b ix))).

(** *** The parameter table

    Rows with the columns the package reads: the parameter code, the
    layer, the identity of the owning bucket, the value and the code of
    the EAG.  [pt_columns] lists the columns the table has; the field of
    a row for a column the table lacks is never read. *)

Inductive label : Type :=
| LPos (i : Z)
| LStr (s : string).

Record ParamRow : Type := mkRow {
  Code : string;
  LaagVolgorde : Z;
  Bakjes_ID : Z;
  Waarde : num;
  EAGCode : string
}.

Record ParamTable : Type := mkPT {
  pt_columns : list string;
  pt_rows : list (label * ParamRow)
}.

Definition has_column (p : ParamTable) (c : string) : bool :=
  existsb (String.eqb c) (pt_columns p).

(** [p.loc[:, c]] reads a column: KeyError when the table has none of
    that name. *)
Definition pt_column {A} (p : ParamTable) (c : string) (field : ParamRow -> A)
  : result (Series label A) :=
  if has_column p c
  then Ok (map (fun r => (fst r, field (snd r))) (pt_rows p))
  else Raise KeyError.

(** [p.loc[mask]] for a mask computed from a column: the rows where it
    holds. *)
Definition pt_loc_mask (p : ParamTable) (mask : Series label bool)
  : ParamTable :=
  mkPT (pt_columns p)
       (map fst (filter (fun rm => snd (snd rm))
                        (combine (pt_rows p) mask))).

(** [p.set_index(labels, inplace=True)] *)
Definition pt_set_index (p : ParamTable) (labels : list label) : ParamTable :=
  mkPT (pt_columns p)
       (map (fun lr => (fst lr, snd (snd lr))) (combine labels (pt_rows p))).

(** [s.values[0]] *)
Definition values0 {L V} (s : Series L V) : result V :=
  match s with
  | [] => Raise IndexError
  | (_, v) :: _ => Ok v
  end.

End Pandas.

Import Pandas.

(* ================================================================= *)
(** ** The bucket models and the effects of a method *)

Module Buckets.

(** Modelled from the spec: the classes of [waterbalans/buckets.py], which
    is not among the sources.  A bucket has an identity, a type label
    (its [name]: "Verhard", "Onverhard", "Drain", ...), an area and, after
    simulation, a time-indexed table of named flux columns. *)
Record Bucket : Type := mkBucket {
  bucket_id : Z;
  bucket_name : string;
  bucket_area : num;
  bucket_fluxes : DataFrame
}.

(** Modelled from the spec: the water bucket of [waterbalans/buckets.py],
    which is not among the sources: an identity, an area, a storage Series
    and a table of fluxes whose columns are named by flux kind and
    bucket identity. *)
Record Water : Type := mkWater {
  water_id : Z;
  area : num;
  storage : Series time num;
  fluxes : DataFrame
}.

(** A [tmin] or [tmax]: absent, a string or a timestamp. *)
Inductive targ : Type :=
| TNone
| TStr (s : string)
| TStamp (t : time).

End Buckets.

Import Buckets.

Module Effects.

(** What a method does that is seen from outside: lines printed and calls
    of the [simulate] methods of the bucket models. *)
Inductive event : Type :=
| Printed (line : string)
| BucketSimulate (b : Bucket) (params : Series label num) (tmin tmax : targ)
| WaterSimulate (w : Water) (params : Series label num) (tmin tmax : targ).

(** A method on an object of state [S]: the result or the exception, the
    state it leaves, and the events in order. *)
Definition M (S A : Type) : Type := S -> result A * S * list event.

Definition ret {S A} (a : A) : M S A := fun s => (Ok a, s, []).

Definition bind {S A B} (m : M S A) (f : A -> M S B) : M S B :=
  fun s =>
    match m s with
    | (Ok a, s1, ev1) =>
        match f a s1 with
        | (r, s2, ev2) => (r, s2, ev1 ++ ev2)
        end
    | (Raise e, s1, ev1) => (Raise e, s1, ev1)
    end.

Definition raise {S A} (e : exn) : M S A := fun s => (Raise e, s, []).
Definition get {S} : M S S := fun s => (Ok s, s, []).
Definition put {S} (s : S) : M S unit := fun _ => (Ok tt, s, []).
Definition modify {S} (f : S -> S) : M S unit := fun s => (Ok tt, f s, []).
Definition emit {S} (e : event) : M S unit := fun s => (Ok tt, s, [e]).

(** A pure computation that may raise. *)
Definition lift {S A} (r : result A) : M S A :=
  fun s => (r, s, []).

(** [for x in xs: body(x)] *)
Fixpoint for_each {S A} (xs : list A) (body : A -> M S unit) : M S unit :=
  match xs with
  | [] => ret tt
  | x :: xs' => bind (body x) (fun _ => for_each xs' body)
  end.

Definition outcome {S A} (r : result A * S * list event) : result A :=
  fst (fst r).
Definition state_of {S A} (r : result A * S * list event) : S :=
  snd (fst r).
Definition events_of {S A} (r : result A * S * list event) : list event :=
  snd r.

End Effects.

Import Effects.

Declare Scope method_scope.
Delimit Scope method_scope with method.
Notation "x <- c ;; k" := (bind c (fun x => k))
  (at level 61, c at next level, right associativity) : method_scope.
Notation "c ;; k" := (bind c (fun _ => k))
  (at level 61, right associativity) : method_scope.

(* ================================================================= *)
(** ** [waterbalans/eag.py]: class [Eag] *)

Module Eag.

(** The Gaf an EAG refers to, as far as the EAG reads it: its table of
    series. *)
Record GafView : Type := mkGafView {
  gaf_series : DataFrame
}.

(** The attributes of an EAG.  The identities of buckets are ints, the
    names of units strings; [buckets] is the [OrderedDict], [water] is
    [None] until [add_water]. *)
Record t : Type := mk {
  gaf : option GafView;
  id : option Z;
  name : string;
  buckets : list (Z * Bucket);
  water : option Water;
  series : DataFrame;
  parameters : ParamTable
}.

Definition set_buckets (b : list (Z * Bucket)) (self : t) : t :=
  mk (gaf self) (id self) (name self) b (water self) (series self)
     (parameters self).
Definition set_water (w : option Water) (self : t) : t :=
  mk (gaf self) (id self) (name self) (buckets self) w (series self)
     (parameters self).
Definition set_series (s : DataFrame) (self : t) : t :=
  mk (gaf self) (id self) (name self) (buckets self) (water self) s
     (parameters self).
Definition set_parameters (p : ParamTable) (self : t) : t :=
  mk (gaf self) (id self) (name self) (buckets self) (water self)
     (series self) p.

(** [Eag(id, name, gaf, series)]; the plotting helper is left out. *)
Definition init (id : option Z) (name : string) (gaf : option GafView)
    (series : option DataFrame) : t :=
  mk gaf id name [] None
     (match series with None => df_empty | Some s => s end)
     (mkPT ["Waarde"] []).

Definition add_bucket (bucket : Bucket) (replace : bool) : M t unit :=
  (self <- get ;;
   if od_mem Z.eqb (buckets self) (bucket_id bucket) && negb replace
   then raise KeyError
   else modify (set_buckets
                  (od_set Z.eqb (buckets self) (bucket_id bucket) bucket)))
  %method.

Definition add_water (w : Water) (replace : bool) : M t unit :=
  (self <- get ;;
   if (match water self with Some _ => true | None => false end)
      && negb replace
   then raise KeyError
   else modify (set_water (Some w)))%method.

Definition load_series_from_gaf : M t unit :=
  (self <- get ;;
   g <- lift (of_option AttributeError (gaf self)) ;;
   prec <- lift (df_getitem (gaf_series g) "prec") ;;
   modify (set_series (df_setitem (series self) "prec" prec)) ;;
   self <- get ;;
   g <- lift (of_option AttributeError (gaf self)) ;;
   prec <- lift (df_getitem (gaf_series g) "prec") ;;
   modify (set_series (df_setitem (series self) "evap" prec)))%method.

(** The models of the buckets are not part of these files: [simulate] is
    given what their [simulate] methods do to a bucket and to the water. *)
Section Simulate.
Variable bucket_simulate :
  t -> Bucket -> Series label num -> targ -> targ -> result Bucket.
Variable water_simulate :
  t -> Water -> Series label num -> targ -> targ -> result Water.

(** The body of the loop over [self.buckets.items()]. *)
Definition simulate_bucket (params : ParamTable) (tmin tmax : targ)
    (kb : Z * Bucket) : M t unit :=
  (let id := fst kb in
   mask <- lift (pt_column params "Bakjes_ID"
                           (fun r => Bakjes_ID r =? id)) ;;
   let p := pt_loc_mask params mask in
   emit (Printed ("Simulating the waterbalance for bucket: "
                    ++ str id)%string) ;;
   values <- lift (pt_column p "Waarde" Waarde) ;;
   emit (BucketSimulate (snd kb) values tmin tmax) ;;
   self <- get ;;
   b <- lift (bucket_simulate self (snd kb) values tmin tmax) ;;
   modify (set_buckets (od_set Z.eqb (buckets self) id b)))%method.

Definition simulate (params : ParamTable) (tmin tmax : targ) : M t unit :=
  (modify (set_parameters params) ;;
   code <- lift (pt_column params "Code" Code) ;;
   laag <- lift (pt_column params "LaagVolgorde" LaagVolgorde) ;;
   let params :=
     pt_set_index params
       (map (fun cl => LStr (snd (fst cl) ++ "_" ++ str (snd (snd cl)))
                            %string)
            (combine code laag)) in
   modify (set_parameters params) ;;
   self <- get ;;
   for_each (buckets self) (simulate_bucket params tmin tmax) ;;
   (* [params.loc[:, "Bakjes_ID"]] is evaluated before [self.water.id] *)
   owner <- lift (pt_column params "Bakjes_ID" Bakjes_ID) ;;
   self <- get ;;
   w <- lift (of_option AttributeError (water self)) ;;
   let mask := map (fun lo => (fst lo, snd lo =? water_id w)) owner in
   let p := pt_loc_mask params mask in
   values <- lift (pt_column p "Waarde" Waarde) ;;
   emit (WaterSimulate w values tmin tmax) ;;
   w' <- lift (water_simulate self w values tmin tmax) ;;
   modify (set_water (Some w')))%method.
End Simulate.

(** The renames of [aggregate_fluxes]. *)
Definition d : list (string * string) :=
  [("p", "neerslag"); ("e", "verdamping"); ("s", "kwel");
   ("w", "wegzijging"); ("x", "inlaat"); ("q_out", "uitlaat");
   ("q_oa_2", "verhard")].

(** [self.buckets[id].name in names] *)
Definition bucket_named (self : t) (names : list string) (id : Z) : bool :=
  match od_get Z.eqb (buckets self) id with
  | Some b => existsb (String.eqb (bucket_name b)) names
  | None => false
  end.

(** [[prefix + str(id) for id in self.buckets.keys() if test(id)]] *)
Definition column_names (self : t) (prefix : string) (test : Z -> bool)
  : list string :=
  map (fun id => (prefix ++ str id)%string)
      (filter test (od_keys (buckets self))).

Definition aggregate_fluxes (self : t) : result DataFrame :=
  (w <- of_option AttributeError (water self) ;;
   fl <- df_loc_cols (fluxes w) (od_keys d) ;;
   let fl := df_rename fl d in
   (* Verhard *)
   let names := column_names self "q_oa_" (bucket_named self ["Verhard"]) in
   q_verhard <- df_loc_cols (fluxes w) names ;;
   let fl := df_setitem fl "verhard" (df_sum_rows q_verhard) in
   (* Uitspoeling *)
   let names := column_names self "q_ui_"
                  (bucket_named self ["Verhard"; "Onverhard"]) in
   q_uitspoel <- df_loc_cols (fluxes w) names ;;
   let q_uitspoel := df_mask_set ltb0 zero q_uitspoel in
   let fl := df_setitem fl "uitspoeling" (df_sum_rows q_uitspoel) in
   (* Intrek *)
   let names := column_names self "q_ui_" (fun _ => true) in
   q_intrek <- df_loc_cols (fluxes w) names ;;
   let q_intrek := df_mask_set gtb0 zero q_intrek in
   let fl := df_setitem fl "intrek" (df_sum_rows q_intrek) in
   (* Oppervlakkige afstroming *)
   let names := column_names self "q_oa_"
                  (bucket_named self ["Onverhard"]) in
   q_afstroom <- df_loc_cols (fluxes w) names ;;
   let fl := df_setitem fl "afstroming" (df_sum_rows q_afstroom) in
   (* Gedraineerd *)
   let fl := df_setitem_scalar fl "drain" zero in
   Ok fl)%result.

Definition C_params : Series string num :=
  [("neerslag", of_Z 6); ("kwel", of_Z 400); ("verhard", of_Z 10);
   ("drain", of_Z 70); ("uitspoeling", of_Z 70); ("afstroming", of_Z 35);
   ("inlaat", of_Z 100)].

Definition C_init : num := of_Z 90.

(** [self.parameters.loc[self.parameters.loc[:, "Code"] == code,
    "Waarde"].values[0]] *)
Definition parameter_value (self : t) (code : string) : result num :=
  (mask <- pt_column (parameters self) "Code"
                     (fun r => String.eqb (Code r) code) ;;
   values <- pt_column (pt_loc_mask (parameters self) mask) "Waarde" Waarde ;;
   values0 values)%result.

(** The variables the loop of [calculate_chloride_concentration] carries
    from a time step to the next. *)
Record loop_state : Type := mkLoop {
  loop_M : num;
  loop_C_out : num;
  loop_Mass : Series time num
}.

(** One turn of [for t in fluxes.index].  At a label that the index of
    the fluxes has more than once, [fluxes.loc[t, ...]] and
    [V_out.loc[t]] select several rows, [M] is a Series and not a
    number, and [Mass.loc[t] = M] raises ValueError. *)
Definition chloride_step (fl : DataFrame) (V_out : Series time num)
    (w : Water) (st : loop_state) (t : time) : result loop_state :=
  (row <- df_loc_row fl t (sr_index C_params) ;;
   let M_in := nansum (map (fun xc => (fst xc * snd xc)%num)
                           (combine row (sr_values C_params))) in
   v <- sr_loc V_out t ;;
   let M_out := (v * loop_C_out st)%num in
   let M := (loop_M st + M_in + M_out)%num in
   Mass <- (if ix_repeated t (df_index fl) then Raise ValueError
            else Ok (sr_set (loop_Mass st) t M)) ;;
   s <- sr_loc (storage w) t ;;
   Ok (mkLoop M (M / s)%num Mass))%result.

Fixpoint chloride_loop (fl : DataFrame) (V_out : Series time num)
    (w : Water) (st : loop_state) (ts : list time) : result loop_state :=
  match ts with
  | [] => Ok st
  | t :: ts' =>
      (st' <- chloride_step fl V_out w st t ;;
       chloride_loop fl V_out w st' ts')%result
  end.

Definition calculate_chloride_concentration (self : t)
  : result (Series time num) :=
  (fl <- aggregate_fluxes self ;;
   let Mass := sr_nan (df_index fl) in
   hTarget <- parameter_value self "hTarget" ;;
   hBottom <- parameter_value self "hBottom" ;;
   w <- of_option AttributeError (water self) ;;
   let V_init := ((hTarget - hBottom) * area w)%num in
   let M := (C_init * V_init)%num in
   let C_out := C_init in
   out <- df_loc_cols fl ["intrek"; "uitlaat"; "wegzijging"] ;;
   let V_out := df_sum_rows out in
   st <- chloride_loop fl V_out w (mkLoop M C_out Mass) (df_index fl) ;;
   Ok (sr_div (loop_Mass st) (storage w)))%result.

(** A call [self.method()] without arguments, by the name of the method:
    AttributeError when the class defines none of that name.  (Of the
    methods that nothing in these files calls, [get_init_parameters] is
    not part of the embedding, and [calculate_fractions], embedded
    below, is not dispatched here.) *)
Definition call_method (method : string) : M t unit :=
  if String.eqb method "load_series_from_gaf" then load_series_from_gaf
  else if String.eqb method "aggregate_fluxes"
  then (self <- get ;; _ <- lift (aggregate_fluxes self) ;; ret tt)%method
  else if String.eqb method "calculate_chloride_concentration"
  then (self <- get ;;
        _ <- lift (calculate_chloride_concentration self) ;; ret tt)%method
  else raise AttributeError.

(** [calculate_fractions]: as far as it is written, a frame without
    columns over the index of the aggregated fluxes. *)
Definition calculate_fractions (self : t) : result DataFrame :=
  (fl <- aggregate_fluxes self ;;
   let frac := mkDF (df_index fl) [] in
   Ok frac)%result.

End Eag.

(* ================================================================= *)
(** ** [waterbalans/gaf.py]: class [Gaf] *)

Module Gaf.

(** What may be handed to a Gaf as an EAG: an instance of [Eag], or some
    other object, of which only the [name] attribute, if it has one,
    matters. *)
Inductive object : Type :=
| AnEag (e : Eag.t)
| Other (name : option string).

Record t : Type := mk {
  id : option Z;
  name : string;
  eags : list (string * object);
  data : DataFrame;
  parameters : DataFrame;
  series : DataFrame
}.

Definition set_eags (e : list (string * object)) (self : t) : t :=
  mk (id self) (name self) e (data self) (parameters self) (series self).

(** The body of [for e in eags] in [__init__], on [self.eags]. *)
Definition init_eag (e : object) : M (list (string * object)) unit :=
  match e with
  | AnEag x => modify (fun eags => od_set String.eqb eags (Eag.name x) e)
  | Other _ =>
      emit (Printed "Warning! added Eags must be instance of Eag object.")
  end.

(** [Gaf(id, name, eags, series)]: the object and what was printed. *)
Definition init (id : option Z) (name : string) (eags : list object)
    (series : option DataFrame) : t * list event :=
  let r := for_each eags init_eag [] in
  (mk id name (state_of r) df_empty df_empty
      (match series with None => df_empty | Some s => s end),
   events_of r).

Definition add_eag (eag : object) : M t unit :=
  (self <- get ;;
   name <- lift (match eag with
                 | AnEag e => Ok (Eag.name e)
                 | Other n => of_option AttributeError n
                 end) ;;
   modify (set_eags (od_set String.eqb (eags self) name eag)))%method.

(** A method of the EAG stored under [key], run on that EAG; an object
    that is no EAG has no methods. *)
Definition on_eag {A} (key : string) (m : M Eag.t A) : M t A :=
  fun self =>
    match od_get String.eqb (eags self) key with
    | Some (AnEag e) =>
        match m e with
        | (r, e', ev) =>
            (r, set_eags (od_set String.eqb (eags self) key (AnEag e')) self,
             ev)
        end
    | _ => (Raise AttributeError, self, [])
    end.

(** [parameters.EAGCode == eagname]: the attribute access raises
    AttributeError when the table has no such column. *)
Definition EAGCode_is (parameters : ParamTable) (eagname : string)
  : result (Series label bool) :=
  match pt_column parameters "EAGCode"
                  (fun r => String.eqb (EAGCode r) eagname) with
  | Ok mask => Ok mask
  | Raise _ => Raise AttributeError
  end.

Section Simulate.
Variable bucket_simulate :
  Eag.t -> Bucket -> Series label num -> targ -> targ -> result Bucket.
Variable water_simulate :
  Eag.t -> Water -> Series label num -> targ -> targ -> result Water.

(** The body of the loop over [self.eags.items()]. *)
Definition simulate_eag (parameters : ParamTable) (tmin tmax : targ)
    (item : string * object) : M t unit :=
  (let eagname := fst item in
   on_eag eagname (Eag.call_method "get_series_from_gaf") ;;
   mask <- lift (EAGCode_is parameters eagname) ;;
   let params := pt_loc_mask parameters mask in
   on_eag eagname
     (Eag.simulate bucket_simulate water_simulate params tmin tmax))
  %method.

Definition simulate (parameters : ParamTable) (tmin tmax : targ)
  : M t unit :=
  (self <- get ;;
   for_each (eags self) (simulate_eag parameters tmin tmax))%method.
End Simulate.

Definition get_eags (self : t) : list object := od_values (eags self).

(** [add_series]: the table of series is of a kind these files do not
    declare; [select eagname] stands for
    [series.loc[series.EAGCode == eagname, :]].  The class [Eag] defines
    no method [add_series], whatever the arguments, so the call raises
    at the lookup of the name. *)
Section AddSeries.
Variable SeriesTable : Type.
Variable select : string -> result SeriesTable.

Definition add_series_eag (item : string * object) : M t unit :=
  (let eagname := fst item in
   eagseries <- lift (select eagname) ;;
   on_eag eagname (Eag.call_method "add_series"))%method.

Definition add_series : M t unit :=
  (self <- get ;; for_each (eags self) add_series_eag)%method.
End AddSeries.

End Gaf.

(* ================================================================= *)
(** ** The specification, in its own words

    The quantities the specification names, defined from its sentences
    and not from the code, to be compared with what the methods compute. *)

Module Spec.

(** *** The chloride recurrence (section 4.3) *)

(** The fixed source concentrations. *)
Definition concentration : list (string * Z) :=
  [("neerslag", 6); ("kwel", 400); ("verhard", 10); ("drain", 70);
   ("uitspoeling", 70); ("afstroming", 35); ("inlaat", 100)].

(** A column of a frame (empty when the frame has none of that name), and
    its entry at a row. *)
Definition column (df : DataFrame) (name : string) : list num :=
  match df_getcol df name with
  | Ok c => c
  | Raise _ => []
  end.

Definition cell (df : DataFrame) (name : string) (i : nat) : num :=
  nth i (column df name) NaN.

(** A frame has the column [c] under [name], as long as the index. *)
Definition holds (df : DataFrame) (name : string) (c : list num) : Prop :=
  df_getcol df name = Ok c /\ List.length c = List.length (df_index df).

(** [aggregated_flux[t, category]] *)
Definition flux (fl : DataFrame) (t : time) (category : string) : num :=
  match index_of t (df_index fl) with
  | Some i => cell fl category i
  | None => NaN
  end.

(** [storage(t)] *)
Definition storage_at (w : Water) (t : time) : num :=
  match sr_loc (storage w) t with
  | Ok v => v
  | Raise _ => NaN
  end.

Definition mass_in (fl : DataFrame) (t : time) : num :=
  sum (map (fun cc => (flux fl t (fst cc) * of_Z (snd cc))%num)
           concentration).

Definition outgoing_volume (fl : DataFrame) (t : time) : num :=
  sum [flux fl t "intrek"; flux fl t "uitlaat"; flux fl t "wegzijging"].

Definition initial_mass (hTarget hBottom : num) (w : Water) : num :=
  (of_Z 90 * ((hTarget - hBottom) * area w))%num.

(** The masses of the time steps [ts], in order, from the mass and the
    outgoing concentration before them. *)
Fixpoint masses (fl : DataFrame) (w : Water) (mass C_out_prev : num)
    (ts : list time) : list num :=
  match ts with
  | [] => []
  | t :: ts' =>
      let mass_t :=
        (mass + mass_in fl t + outgoing_volume fl t * C_out_prev)%num in
      mass_t :: masses fl w mass_t (mass_t / storage_at w t)%num ts'
  end.

(** [concentration(t) = mass(t) / storage(t)] for every [t] of the
    index. *)
Definition chloride (fl : DataFrame) (w : Water) (hTarget hBottom : num)
  : Series time num :=
  map (fun tm => (fst tm, (snd tm / storage_at w (fst tm))%num))
      (combine (df_index fl)
               (masses fl w (initial_mass hTarget hBottom w) (of_Z 90)
                       (df_index fl))).

(** A Series with each of the labels [ts] set to its mass, in order. *)
Definition set_all (ts : list time) (ms : list num) (Mass : Series time num)
  : Series time num :=
  fold_left (fun m tv => sr_set m (fst tv) (snd tv)) (combine ts ms) Mass.

(** The aggregated table has a value everywhere. *)
Definition populated (fl : DataFrame) : bool :=
  forallb (fun c => (List.length (snd c) =? List.length (df_index fl))%nat
                    && forallb (fun x => negb (isnan x)) (snd c))
          (df_columns fl).

(** *** The categories of vertical exchange (sections 4.2 and 8) *)

(** The frame of the named columns of a frame. *)
Definition selection (df : DataFrame) (names : list string) : DataFrame :=
  mkDF (df_index df) (map (fun n => (n, column df n)) names).

(** The columns of the aggregated fluxes. *)
Definition categories : list string :=
  ["neerslag"; "verdamping"; "kwel"; "wegzijging"; "inlaat"; "uitlaat";
   "verhard"; "uitspoeling"; "intrek"; "afstroming"; "drain"].

(** The fluxes of a simulated water bucket: the columns of the water
    itself and, for every bucket, its outflow to the water and its
    vertical exchange. *)
Definition columns_present (bs : list (Z * Bucket)) (w : Water) : Prop :=
  forall n,
    In n (["p"; "e"; "s"; "w"; "x"; "q_out"; "q_oa_2"]
            ++ flat_map (fun kb => [("q_oa_" ++ str (fst kb))%string;
                                    ("q_ui_" ++ str (fst kb))%string]) bs) ->
    In n (map fst (df_columns (fluxes w))).

(** The vertical exchange of the bucket [id] at row [i] of the fluxes of
    the water. *)
Definition flux_vertical (w : Water) (id : Z) (i : nat) : num :=
  cell (fluxes w) ("q_ui_" ++ str id)%string i.

Definition paved_or_unpaved (b : Bucket) : bool :=
  String.eqb (bucket_name b) "Verhard"
  || String.eqb (bucket_name b) "Onverhard".

(** A value with the negative ones replaced by zero, and with the
    positive ones replaced by zero. *)
Definition max0 (x : num) : num := if ltb0 x then zero else x.
Definition min0 (x : num) : num := if gtb0 x then zero else x.

Definition leaching (bs : list (Z * Bucket)) (w : Water) (i : nat) : num :=
  sum (map (fun kb => max0 (flux_vertical w (fst kb) i))
           (filter (fun kb => paved_or_unpaved (snd kb)) bs)).

Definition infiltration (bs : list (Z * Bucket)) (w : Water) (i : nat)
  : num :=
  sum (map (fun kb => min0 (flux_vertical w (fst kb) i)) bs).

(** The unsigned total of the vertical exchange of the buckets [bs]. *)
Definition magnitude (bs : list (Z * Bucket)) (w : Water) (i : nat) : num :=
  sum (map (fun kb => abs (flux_vertical w (fst kb) i)) bs).

(** Every bucket has a vertical exchange at every row, and none is
    missing (NaN). *)
Definition exchange_known (bs : list (Z * Bucket)) (w : Water) : Prop :=
  forall kb i, In kb bs -> (i < List.length (df_index (fluxes w)))%nat ->
               isnan (flux_vertical w (fst kb) i) = false.

(** ... and all are finite. *)
Definition exchange_finite (bs : list (Z * Bucket)) (w : Water) : Prop :=
  forall kb i, In kb bs -> (i < List.length (df_index (fluxes w)))%nat ->
               is_finite (flux_vertical w (fst kb) i) = true.

(** *** The dispatch of [simulate] (section 4.1) *)

(** The composite index of a parameter row. *)
Definition composite (r : ParamRow) : label :=
  LStr (Code r ++ "_" ++ str (LaagVolgorde r))%string.

(** The table with the composite index in place of its index. *)
Definition composite_indexed (params : ParamTable) : ParamTable :=
  mkPT (pt_columns params)
       (map (fun r => (composite (snd r), snd r)) (pt_rows params)).

(** The value column of the rows owned by the identity [id]. *)
Definition owned_values (params : ParamTable) (id : Z) : Series label num :=
  map (fun r => (composite (snd r), Waarde (snd r)))
      (filter (fun r => Bakjes_ID (snd r) =? id) (pt_rows params)).

(** The calls of step 2, one per bucket in order, each after the line
    that announces it, and then the call of step 3. *)
Definition bucket_events (params : ParamTable) (tmin tmax : targ)
    (bs : list (Z * Bucket)) : list event :=
  flat_map (fun kb =>
              [Printed ("Simulating the waterbalance for bucket: "
                          ++ str (bucket_id (snd kb)))%string;
               BucketSimulate (snd kb)
                 (owned_values params (bucket_id (snd kb))) tmin tmax]) bs.

Definition water_event (params : ParamTable) (tmin tmax : targ) (w : Water)
  : event :=
  WaterSimulate w (owned_values params (water_id w)) tmin tmax.

Definition is_prefix {A} (l l' : list A) : Prop := exists rest, l' = l ++ rest.

(** Every bucket is stored under its identity. *)
Definition keyed_by_id (bs : list (Z * Bucket)) : Prop :=
  Forall (fun kb => fst kb = bucket_id (snd kb)) bs.

(** *** The units of a region (section 3) *)

(** The rows of a region-level table that carry the code of a unit. *)
Definition rows_of_unit (parameters : ParamTable) (unit : string)
  : list (label * ParamRow) :=
  filter (fun r => String.eqb (EAGCode (snd r)) unit) (pt_rows parameters).

(** A value that is no unit. *)
Definition not_a_unit (o : Gaf.object) : bool :=
  match o with Gaf.AnEag _ => false | Gaf.Other _ => true end.

(** A name-keyed mapping of units: only EAGs, each under its name, no name
    twice. *)
Definition units_by_name (eags : list (string * Gaf.object)) : Prop :=
  NoDup (od_keys eags)
  /\ Forall (fun kv => exists e, snd kv = Gaf.AnEag e /\ fst kv = Eag.name e)
            eags.

(** The unit [self] attached to a region. *)
Definition attached (g : Eag.GafView) (self : Eag.t) : Eag.t :=
  Eag.mk (Some g) (Eag.id self) (Eag.name self) (Eag.buckets self)
         (Eag.water self) (Eag.series self) (Eag.parameters self).

(** The rows of the parameter table with a given code. *)
Definition rows_with_code (p : ParamTable) (code : string)
  : list (label * ParamRow) :=
  filter (fun r => String.eqb (Code (snd r)) code) (pt_rows p).

(** *** What the methods read and keep *)

(** The outflow to the water of the bucket [id] at row [i]. *)
Definition flux_outflow (w : Water) (id : Z) (i : nat) : num :=
  cell (fluxes w) ("q_oa_" ++ str id)%string i.

Definition of_type (type : string) (kb : Z * Bucket) : bool :=
  String.eqb (bucket_name (snd kb)) type.

(** The columns of the fluxes of the water that [aggregate_fluxes]
    reads. *)
Definition columns_read (self : Eag.t) : list string :=
  od_keys Eag.d
  ++ Eag.column_names self "q_oa_" (Eag.bucket_named self ["Verhard"])
  ++ Eag.column_names self "q_ui_"
       (Eag.bucket_named self ["Verhard"; "Onverhard"])
  ++ Eag.column_names self "q_ui_" (fun _ => true)
  ++ Eag.column_names self "q_oa_" (Eag.bucket_named self ["Onverhard"]).

(** The keys of a dictionary after [d[k] = v]. *)
Definition keys_set (ks : list string) (k : string) : list string :=
  if existsb (String.eqb k) ks then ks else ks ++ [k].

(** A run of calls of [add_bucket], each going on from the unit the one
    before left, whether it raised or not. *)
Definition add_buckets (calls : list (Bucket * bool)) (self : Eag.t) : Eag.t :=
  fold_left (fun s c => state_of (Eag.add_bucket (fst c) (snd c) s))
            calls self.

(** A value that stands for the rational [q]. *)
Definition stands_for (x : num) (q : Q) : Prop :=
  exists a, x = Fin a /\ (a == q)%Q.

(** A call of the [simulate] of a bucket model. *)
Definition is_simulate (e : event) : bool :=
  match e with
  | Printed _ => false
  | BucketSimulate _ _ _ _ | WaterSimulate _ _ _ _ => true
  end.

Definition is_eag (o : Gaf.object) : bool := negb (not_a_unit o).

Definition name_of (o : Gaf.object) : option string :=
  match o with
  | Gaf.AnEag e => Some (Eag.name e)
  | Gaf.Other n => n
  end.

(** The loop of [simulate] over the buckets of [self], run on the unit
    with the parameters in place. *)
Definition bucket_loop
    (bucket_simulate :
       Eag.t -> Bucket -> Series label num -> targ -> targ -> result Bucket)
    (params : ParamTable) (tmin tmax : targ) (self : Eag.t)
  : result unit * Eag.t * list event :=
  for_each (Eag.buckets self)
           (Eag.simulate_bucket bucket_simulate
              (composite_indexed params) tmin tmax)
           (Eag.set_parameters (composite_indexed params) self).

(** *** The dispatch of [simulate], with what the models return *)

(** Step 2: the buckets [bs] are simulated in order, each with the value
    column of the rows that carry its identity, and each takes the place
    of the bucket it was; the run ends at the first bucket whose
    simulate raises.  The outcome, and the unit as it is then. *)
Fixpoint dispatch_buckets
    (bucket_simulate :
       Eag.t -> Bucket -> Series label num -> targ -> targ -> result Bucket)
    (params : ParamTable) (tmin tmax : targ) (bs : list (Z * Bucket))
    (eag : Eag.t) : result unit * Eag.t :=
  match bs with
  | [] => (Ok tt, eag)
  | kb :: bs' =>
      let id := bucket_id (snd kb) in
      match bucket_simulate eag (snd kb) (owned_values params id)
                            tmin tmax with
      | Ok b =>
          dispatch_buckets bucket_simulate params tmin tmax bs'
            (Eag.set_buckets (od_set Z.eqb (Eag.buckets eag) id b) eag)
      | Raise e => (Raise e, eag)
      end
  end.

(** Step 3: after every bucket, the water [w] is simulated with the
    value column of the rows that carry its identity, on the unit the
    buckets have left, and takes its own place. *)
Definition dispatch
    (bucket_simulate :
       Eag.t -> Bucket -> Series label num -> targ -> targ -> result Bucket)
    (water_simulate :
       Eag.t -> Water -> Series label num -> targ -> targ -> result Water)
    (params : ParamTable) (tmin tmax : targ) (w : Water) (eag : Eag.t)
  : result unit * Eag.t :=
  match dispatch_buckets bucket_simulate params tmin tmax
                         (Eag.buckets eag) eag with
  | (Ok _, eag') =>
      match water_simulate eag' w (owned_values params (water_id w))
                           tmin tmax with
      | Ok w' => (Ok tt, Eag.set_water (Some w') eag')
      | Raise e => (Raise e, eag')
      end
  | (Raise e, eag') => (Raise e, eag')
  end.

(** *** The columns of a unit *)

(** The fluxes of the water have the columns of the water itself and,
    for every bucket of the unit, its outflow to the water and its
    vertical exchange. *)
Definition columns_of_unit (bs : list (Z * Bucket)) (w : Water) : Prop :=
  forall n,
    In n (["p"; "e"; "s"; "w"; "x"; "q_out"]
            ++ flat_map (fun kb => [("q_oa_" ++ str (fst kb))%string;
                                    ("q_ui_" ++ str (fst kb))%string]) bs) ->
    In n (map fst (df_columns (fluxes w))).

(** The vertical exchanges of row [i] are finite where they are not
    missing, and their absolute values sum to less than 2^63: no sum of
    them leaves the range of a 64-bit integer, so that the sums are the
    same whether the columns hold floating-point numbers or integers. *)
Definition exchange_in_range (bs : list (Z * Bucket)) (w : Water) (i : nat)
  : Prop :=
  (forall kb, In kb bs ->
              is_finite (flux_vertical w (fst kb) i) = true
              \/ isnan (flux_vertical w (fst kb) i) = true)
  /\ (Qsum (map (fun kb => abs (flux_vertical w (fst kb) i)) bs)
       < inject_Z (2 ^ 63))%Q.

End Spec.

(* ================================================================= *)
(** ** Concrete units, for the examples *)

Module Examples.

Definition q (z : Z) : num := of_Z z.

Definition verhard : Bucket := mkBucket 1 "Verhard" (q 10) df_empty.
Definition onverhard : Bucket := mkBucket 2 "Onverhard" (q 90) df_empty.
Definition drain : Bucket := mkBucket 3 "Drain" (q 5) df_empty.

(** Two time steps, with precipitation [p] at the first and an outlet of
    3 at the second; [u1], [u2] and [u3] are the vertical exchanges of
    the three buckets at the first. *)
Definition water_fluxes (p u1 u2 u3 : Z) : DataFrame :=
  mkDF [1; 2]
       [("p", [q p; q 0]); ("e", [q 0; q 0]); ("s", [q 0; q 0]);
        ("w", [q 0; q 0]); ("x", [q 0; q 0]); ("q_out", [q 0; q (-3)]);
        ("q_oa_1", [q 0; q 0]); ("q_oa_2", [q 0; q 0]);
        ("q_oa_3", [q 0; q 0]);
        ("q_ui_1", [q u1; q 0]); ("q_ui_2", [q u2; q 0]);
        ("q_ui_3", [q u3; q 0])].

Definition the_water (s1 s2 : Z) (fl : DataFrame) : Water :=
  mkWater 0 (q 100) [(1, q s1); (2, q s2)] fl.

Definition row (code : string) (owner : Z) (value : Z) (unit : string)
  : ParamRow :=
  mkRow code 1 owner (q value) unit.

Definition all_columns : list string :=
  ["Code"; "LaagVolgorde"; "Bakjes_ID"; "Waarde"; "EAGCode"].

Definition params_A : ParamTable :=
  mkPT all_columns
       [(LPos 0, row "hTarget" 0 0 "A"); (LPos 1, row "hBottom" 0 (-1) "A");
        (LPos 2, row "RFacIn" 1 7 "A"); (LPos 3, row "RFacOut" 2 8 "A")].

(** The unit of the end-to-end scenario: a paved and an unpaved bucket
    and the water. *)
Definition unit_A (w : Water) : Eag.t :=
  Eag.mk None (Some 1) "A" [(1, verhard); (2, onverhard)] (Some w)
         df_empty params_A.

Definition unit_wet : Eag.t :=
  unit_A (the_water 110 100 (water_fluxes 10 5 (-7) 0)).

(** Its aggregated fluxes. *)
Definition aggregated_wet : DataFrame :=
  mkDF [1; 2]
       [("neerslag", [q 10; q 0]); ("verdamping", [q 0; q 0]);
        ("kwel", [q 0; q 0]); ("wegzijging", [q 0; q 0]);
        ("inlaat", [q 0; q 0]); ("uitlaat", [q 0; q (-3)]);
        ("verhard", [q 0; q 0]); ("uitspoeling", [q 5; q 0]);
        ("intrek", [q (-7); q 0]); ("afstroming", [q 0; q 0]);
        ("drain", [q 0; q 0])].


(** A unit with a drain, whose vertical exchange is 5. *)
Definition unit_drain : Eag.t :=
  Eag.mk None (Some 2) "B" [(3, drain)]
         (Some (the_water 110 100 (water_fluxes 10 0 0 5)))
         df_empty params_A.

(** Two rows with the code hTarget. *)
Definition params_twice : ParamTable :=
  mkPT all_columns
       [(LPos 0, row "hTarget" 0 0 "A"); (LPos 1, row "hTarget" 0 4 "A");
        (LPos 2, row "hBottom" 0 (-1) "A")].




(** Bucket models that leave the buckets as they are. *)
Definition still_bucket (_ : Eag.t) (b : Bucket) (_ : Series label num)
    (_ _ : targ) : result Bucket := Ok b.
Definition still_water (_ : Eag.t) (w : Water) (_ : Series label num)
    (_ _ : targ) : result Water := Ok w.

(** A region with the units A and B, and a table with rows for both. *)
Definition unit_B : Eag.t :=
  Eag.mk None (Some 2) "B" [(3, drain)]
         (Some (the_water 110 100 (water_fluxes 0 0 0 5)))
         df_empty (mkPT ["Waarde"] []).

Definition region : Gaf.t :=
  fst (Gaf.init (Some 1) "Gaf" [Gaf.AnEag unit_wet; Gaf.AnEag unit_B] None).

Definition params_region : ParamTable :=
  mkPT all_columns
       [(LPos 0, row "hTarget" 0 0 "A"); (LPos 1, row "hBottom" 0 (-1) "B");
        (LPos 2, row "RFacIn" 1 7 "A"); (LPos 3, row "RFacOut" 3 8 "B")].

(** Another unit with the name A. *)
Definition unit_A' : Eag.t :=
  Eag.mk None (Some 9) "A" [] None df_empty (mkPT ["Waarde"] []).

(** The series of a region, with an evaporation series [evap]. *)
Definition gaf_series (evap : Z) : DataFrame :=
  mkDF [1; 2] [("prec", [q 3; q 4]); ("evap", [q evap; q evap])].

(** A bucket model that fails on the bucket 2, and a unit without
    water. *)
Definition failing_bucket (_ : Eag.t) (b : Bucket) (_ : Series label num)
    (_ _ : targ) : result Bucket :=
  if bucket_id b =? 2 then Raise IndexError else Ok b.

Definition unit_no_water : Eag.t := Eag.set_water None unit_wet.

(** A table without the column of the values. *)
Definition params_no_value : ParamTable :=
  mkPT ["Code"; "LaagVolgorde"; "Bakjes_ID"] (pt_rows params_A).

(** A water whose storage has no value at the second time step, one
    whose storage goes on to a third, and a unit with each. *)
Definition water_short : Water :=
  mkWater 0 (q 100) [(1, q 110)] (water_fluxes 10 5 (-7) 0).

Definition water_long : Water :=
  mkWater 0 (q 100) [(1, q 110); (2, q 100); (3, q 90)]
          (water_fluxes 10 5 (-7) 0).

Definition unit_short_storage : Eag.t := unit_A water_short.
Definition unit_long_storage : Eag.t := unit_A water_long.

(** A water without any flux. *)
Definition closed_fluxes : DataFrame :=
  mkDF [1; 2]
       [("p", [q 0; q 0]); ("e", [q 0; q 0]); ("s", [q 0; q 0]);
        ("w", [q 0; q 0]); ("x", [q 0; q 0]); ("q_out", [q 0; q 0]);
        ("q_oa_1", [q 0; q 0]); ("q_oa_2", [q 0; q 0]);
        ("q_ui_1", [q 0; q 0]); ("q_ui_2", [q 0; q 0])].

Definition unit_closed : Eag.t := unit_A (the_water 110 100 closed_fluxes).

(** A unit with one paved bucket, of identity 1, and a water whose
    fluxes have the columns of the water and of that bucket. *)
Definition single_fluxes : DataFrame :=
  mkDF [1; 2]
       [("p", [q 10; q 0]); ("e", [q 0; q 0]); ("s", [q 0; q 0]);
        ("w", [q 0; q 0]); ("x", [q 0; q 0]); ("q_out", [q 0; q (-3)]);
        ("q_oa_1", [q 0; q 0]); ("q_ui_1", [q 5; q 0])].

Definition unit_single : Eag.t :=
  Eag.mk None (Some 3) "C" [(1, verhard)]
         (Some (the_water 110 100 single_fluxes)) df_empty params_A.

(** Bucket models that keep what they are given: a bucket takes the sum
    of the values as its area, and the water the sum of the values and
    of the areas of the buckets of the unit. *)
Definition recording_bucket (_ : Eag.t) (b : Bucket) (p : Series label num)
    (_ _ : targ) : result Bucket :=
  Ok (mkBucket (bucket_id b) (bucket_name b) (nansum (sr_values p))
               (bucket_fluxes b)).

Definition recording_water (eag : Eag.t) (w : Water) (p : Series label num)
    (_ _ : targ) : result Water :=
  Ok (mkWater (water_id w)
              (nansum (sr_values p
                         ++ map (fun kb => bucket_area (snd kb))
                                (Eag.buckets eag)))
              (storage w) (fluxes w)).

(** A water whose time index has the label 1 twice. *)
Definition water_repeated : Water :=
  mkWater 0 (q 100) [(1, q 110); (1, q 100)]
          (mkDF [1; 1] (df_columns (water_fluxes 10 5 (-7) 0))).

Definition unit_repeated : Eag.t := unit_A water_repeated.

End Examples.

(* ================================================================= *)
(** * Properties *)

(** ** Ordered dictionaries *)

Section OrderedDictFacts.
Context {K V : Type} (eqb : K -> K -> bool).
Hypothesis eqb_eq : forall a b, eqb a b = true <-> a = b.

Lemma eqb_refl' : forall a, eqb a a = true.
Proof. intros a. now apply eqb_eq. Qed.

Lemma eqb_neq' : forall a b, a <> b -> eqb a b = false.
Proof.
  intros a b Hab. destruct (eqb a b) eqn:E; [|reflexivity].
  apply eqb_eq in E. contradiction.
Qed.

Lemma od_get_set_same (d : list (K * V)) k v :
  od_get eqb (od_set eqb d k v) k = Some v.
Proof.
  induction d as [|[k' v'] d IH]; simpl.
  - now rewrite eqb_refl'.
  - destruct (eqb k k') eqn:E; simpl; rewrite E; [reflexivity | exact IH].
Qed.

Lemma od_get_set_other (d : list (K * V)) k k' v :
  k <> k' -> od_get eqb (od_set eqb d k v) k' = od_get eqb d k'.
Proof.
  intros Hne. induction d as [|[k0 v0] d IH]; simpl.
  - rewrite eqb_neq'; [reflexivity | congruence].
  - destruct (eqb k k0) eqn:E; simpl.
    + apply eqb_eq in E. subst k0.
      rewrite (eqb_neq' k' k); [reflexivity | congruence].
    + now rewrite IH.
Qed.

Lemma od_get_some_in (d : list (K * V)) k v :
  od_get eqb d k = Some v -> In (k, v) d.
Proof.
  induction d as [|[k' v'] d IH]; simpl; [discriminate|].
  destruct (eqb k k') eqn:E.
  - intros [= ->]. apply eqb_eq in E. subst. now left.
  - intros H. right. now apply IH.
Qed.

Lemma od_mem_in_keys (d : list (K * V)) k :
  od_mem eqb d k = true <-> In k (od_keys d).
Proof.
  unfold od_mem, od_keys. induction d as [|[k' v'] d IH]; simpl.
  - split; [discriminate | contradiction].
  - destruct (eqb k k') eqn:E.
    + apply eqb_eq in E. subst. split; auto.
    + rewrite IH. split; [auto | intros [->|H]; [|exact H]].
      rewrite eqb_refl' in E. discriminate.
Qed.

Lemma od_get_in_nodup (d : list (K * V)) k v :
  NoDup (od_keys d) -> In (k, v) d -> od_get eqb d k = Some v.
Proof.
  unfold od_keys. induction d as [|[k' v'] d IH]; simpl; [contradiction|].
  intros Hnd [[= -> ->]|Hin].
  - now rewrite eqb_refl'.
  - inversion Hnd as [|? ? Hnotin Hnd']; subst.
    destruct (eqb k k') eqn:E.
    + apply eqb_eq in E. subst k'. exfalso. apply Hnotin.
      change k with (fst (k, v)). now apply in_map.
    + now apply IH.
Qed.

Lemma od_set_in (d : list (K * V)) k v kv :
  In kv (od_set eqb d k v) -> kv = (k, v) \/ In kv d.
Proof.
  induction d as [|[k' v'] d IH]; simpl.
  - intros [<-|[]]. now left.
  - destruct (eqb k k') eqn:E; simpl.
    + apply eqb_eq in E. subst k'. intros [<-|H]; auto.
    + intros [<-|H]; auto. destruct (IH H); auto.
Qed.

Lemma od_set_keys_in (d : list (K * V)) k v k' :
  In k' (od_keys (od_set eqb d k v)) <-> k' = k \/ In k' (od_keys d).
Proof.
  unfold od_keys. induction d as [|[k0 v0] d IH]; simpl.
  - intuition.
  - destruct (eqb k k0) eqn:E; simpl.
    + apply eqb_eq in E. subst k0. intuition.
    + rewrite IH. intuition.
Qed.

Lemma od_set_nodup (d : list (K * V)) k v :
  NoDup (od_keys d) -> NoDup (od_keys (od_set eqb d k v)).
Proof.
  induction d as [|[k' v'] d IH]; simpl; intros Hnd.
  - constructor; [intros [] | constructor].
  - inversion Hnd as [|? ? Hnotin Hnd']; subst.
    destruct (eqb k k') eqn:E; simpl.
    + now constructor.
    + constructor; [|now apply IH].
      intros Hin. apply od_set_keys_in in Hin. destruct Hin as [->|Hin].
      * rewrite eqb_refl' in E. discriminate.
      * contradiction.
Qed.

Lemma od_set_forall (P : K * V -> Prop) (d : list (K * V)) k v :
  Forall P d -> P (k, v) -> Forall P (od_set eqb d k v).
Proof.
  intros Hd Hkv. apply Forall_forall. intros kv Hin.
  apply od_set_in in Hin. destruct Hin as [->|Hin]; [exact Hkv|].
  rewrite Forall_forall in Hd. now apply Hd.
Qed.
End OrderedDictFacts.

Lemma Zeqb_eq' : forall a b : Z, (a =? b) = true <-> a = b.
Proof. intros. apply Z.eqb_eq. Qed.

Lemma Seqb_eq' : forall a b : string, String.eqb a b = true <-> a = b.
Proof. intros. apply String.eqb_eq. Qed.

(** ** Selecting rows of a parameter table *)

Lemma pt_loc_mask_rows {A} (p : ParamTable) (c : string)
    (field : ParamRow -> A) (test : A -> bool) (mask : Series label bool) :
  pt_column p c (fun r => test (field r)) = Ok mask ->
  pt_rows (pt_loc_mask p mask)
  = filter (fun r => test (field (snd r))) (pt_rows p).
Proof.
  unfold pt_column. destruct (has_column p c); [|discriminate].
  intros [= <-]. unfold pt_loc_mask. simpl.
  induction (pt_rows p) as [|r rows IH]; simpl; [reflexivity|].
  destruct (test (field (snd r))); simpl; now rewrite IH.
Qed.

Lemma pt_loc_mask_columns (p : ParamTable) (mask : Series label bool) :
  pt_columns (pt_loc_mask p mask) = pt_columns p.
Proof. reflexivity. Qed.

Lemma pt_column_ok {A} (p : ParamTable) (c : string) (field : ParamRow -> A) :
  has_column p c = true ->
  pt_column p c field = Ok (map (fun r => (fst r, field (snd r))) (pt_rows p)).
Proof. unfold pt_column. now intros ->. Qed.

(** ** Running a method *)

Section MethodFacts.
Context {S A B : Type}.

Lemma run_eta (r : result A * S * list event) :
  r = (outcome r, state_of r, events_of r).
Proof. now destruct r as [[? ?] ?]. Qed.

Lemma bind_get (f : S -> M S B) (s : S) : bind get f s = f s s.
Proof. unfold bind, get. now destruct (f s s) as [[? ?] ?]. Qed.

Lemma bind_modify (g : S -> S) (f : unit -> M S B) (s : S) :
  bind (modify g) f s = f tt (g s).
Proof. unfold bind, modify. now destruct (f tt (g s)) as [[? ?] ?]. Qed.

Lemma bind_lift_ok (a : A) (f : A -> M S B) (s : S) :
  bind (lift (Ok a)) f s = f a s.
Proof. unfold bind, lift. now destruct (f a s) as [[? ?] ?]. Qed.

Lemma bind_lift_raise (e : exn) (f : A -> M S B) (s : S) :
  bind (lift (Raise e)) f s = (Raise e, s, []).
Proof. reflexivity. Qed.

Lemma bind_raise (e : exn) (f : A -> M S B) (s : S) :
  bind (raise e) f s = (Raise e, s, []).
Proof. reflexivity. Qed.

Lemma bind_ret (a : A) (f : A -> M S B) (s : S) : bind (ret a) f s = f a s.
Proof. unfold bind, ret. now destruct (f a s) as [[? ?] ?]. Qed.

Lemma bind_emit (e : event) (f : unit -> M S B) (s : S) :
  bind (emit e) f s
  = (outcome (f tt s), state_of (f tt s), e :: events_of (f tt s)).
Proof. unfold bind, emit. now destruct (f tt s) as [[? ?] ?]. Qed.

Lemma bind_run (m : M S A) (f : A -> M S B) (s : S) :
  bind m f s
  = match outcome (m s) with
    | Ok a =>
        (outcome (f a (state_of (m s))), state_of (f a (state_of (m s))),
         events_of (m s) ++ events_of (f a (state_of (m s))))
    | Raise e => (Raise e, state_of (m s), events_of (m s))
    end.
Proof.
  unfold bind, outcome, state_of, events_of.
  destruct (m s) as [[[a|e] s1] ev1]; simpl; [|reflexivity].
  now destruct (f a s1) as [[? ?] ?].
Qed.
End MethodFacts.

(** One step of a method whose first action is known. *)
Ltac method_step :=
  first [ rewrite bind_get | rewrite bind_modify | rewrite bind_lift_ok
        | rewrite bind_ret | rewrite bind_emit ];
  cbv beta.

(** ** Adding buckets and the water to an EAG *)

(** C7.  [add_bucket] with a bucket whose identity is already a key of
    the mapping and [replace=False] raises an error and leaves the unit
    as it was; so does [add_water] when a water bucket is already set;
    with [replace=True] the bucket under that identity, respectively the
    water bucket, is the new one, and nothing else changes. *)
Theorem add_bucket_add_water_replace_guard :
  forall (self : Eag.t) (bucket : Bucket) (w : Water),
    (In (bucket_id bucket) (od_keys (Eag.buckets self)) ->
     Eag.add_bucket bucket false self = (Raise KeyError, self, []))
    /\ (Eag.water self <> None ->
        Eag.add_water w false self = (Raise KeyError, self, []))
    /\ (exists self',
           Eag.add_bucket bucket true self = (Ok tt, self', [])
           /\ od_get Z.eqb (Eag.buckets self') (bucket_id bucket)
              = Some bucket
           /\ (forall k, k <> bucket_id bucket ->
                         od_get Z.eqb (Eag.buckets self') k
                         = od_get Z.eqb (Eag.buckets self) k)
           /\ (In (bucket_id bucket) (od_keys (Eag.buckets self)) ->
               od_keys (Eag.buckets self') = od_keys (Eag.buckets self))
           /\ Eag.water self' = Eag.water self)
    /\ (exists self',
           Eag.add_water w true self = (Ok tt, self', [])
           /\ Eag.water self' = Some w
           /\ Eag.buckets self' = Eag.buckets self).
Proof.
  intros self bucket w. repeat split.
  - intros Hin. apply (od_mem_in_keys Z.eqb Zeqb_eq') in Hin.
    unfold Eag.add_bucket. rewrite bind_get, Hin. reflexivity.
  - intros Hw. unfold Eag.add_water. rewrite bind_get.
    destruct (Eag.water self); [reflexivity | contradiction].
  - eexists. split; [|split; [|split; [|split]]].
    + unfold Eag.add_bucket. rewrite bind_get, andb_false_r. reflexivity.
    + simpl. apply (od_get_set_same Z.eqb Zeqb_eq').
    + intros k Hk. simpl. apply (od_get_set_other Z.eqb Zeqb_eq'). congruence.
    + simpl. intros Hin. unfold od_keys in *.
      induction (Eag.buckets self) as [|[k v] d IH]; simpl in *; [contradiction|].
      destruct (bucket_id bucket =? k) eqn:E; simpl; [reflexivity|].
      f_equal. apply IH. destruct Hin as [->|H]; [|exact H].
      rewrite Z.eqb_refl in E. discriminate.
    + reflexivity.
  - eexists. split; [|split].
    + unfold Eag.add_water. rewrite bind_get, andb_false_r. reflexivity.
    + reflexivity.
    + reflexivity.
Qed.

Lemma add_bucket_add_water_replace_guard_witness :
  Eag.add_bucket Examples.verhard false Examples.unit_wet
  = (Raise KeyError, Examples.unit_wet, [])
  /\ Eag.add_water (Examples.the_water 1 1 df_empty) false Examples.unit_wet
     = (Raise KeyError, Examples.unit_wet, []).
Proof.
  destruct (add_bucket_add_water_replace_guard
              Examples.unit_wet Examples.verhard
              (Examples.the_water 1 1 df_empty)) as (Hb & Hw & _).
  split.
  - apply Hb. simpl. left. reflexivity.
  - apply Hw. simpl. discriminate.
Defined.

(** Adding buckets keeps every bucket under its identity, and the keys
    without repetition. *)
Lemma add_bucket_keyed_by_id (self : Eag.t) (bucket : Bucket)
    (replace : bool) :
  Spec.keyed_by_id (Eag.buckets self) ->
  NoDup (od_keys (Eag.buckets self)) ->
  let self' := state_of (Eag.add_bucket bucket replace self) in
  Spec.keyed_by_id (Eag.buckets self')
  /\ NoDup (od_keys (Eag.buckets self')).
Proof.
  intros Hk Hnd. unfold Eag.add_bucket. rewrite bind_get.
  destruct (od_mem Z.eqb (Eag.buckets self) (bucket_id bucket) && negb replace);
    simpl; [now split|].
  split.
  - apply (od_set_forall Z.eqb Zeqb_eq'); [exact Hk | reflexivity].
  - now apply (od_set_nodup Z.eqb Zeqb_eq').
Qed.

(** ** Loading the series of the region *)

Lemma index_eqb_refl (ix : list time) : index_eqb ix ix = true.
Proof.
  induction ix as [|x ix IH]; simpl; [reflexivity|].
  now rewrite Z.eqb_refl, IH.
Qed.

Lemma od_get_map_values {V W} (g : V -> W) (d : list (string * V)) k :
  od_get String.eqb (map (fun c => (fst c, g (snd c))) d) k
  = option_map g (od_get String.eqb d k).
Proof.
  induction d as [|[k' v] d IH]; simpl; [reflexivity|].
  destruct (String.eqb k k'); [reflexivity | exact IH].
Qed.




(** ** The units of a region *)

Lemma for_each_cons {S A} (body : A -> M S unit) (x : A) (xs : list A)
    (s : S) :
  for_each (x :: xs) body s
  = match outcome (body x s) with
    | Ok _ =>
        (outcome (for_each xs body (state_of (body x s))),
         state_of (for_each xs body (state_of (body x s))),
         events_of (body x s)
           ++ events_of (for_each xs body (state_of (body x s))))
    | Raise e => (Raise e, state_of (body x s), events_of (body x s))
    end.
Proof. exact (bind_run (body x) (fun _ => for_each xs body) s). Qed.

Lemma init_eags_run (l : list Gaf.object) (d : list (string * Gaf.object)) :
  Spec.units_by_name d ->
  let r := for_each l Gaf.init_eag d in
  outcome r = Ok tt
  /\ Spec.units_by_name (state_of r)
  /\ (forall kv, In kv (state_of r) -> In kv d \/ In (snd kv) l)
  /\ (forall k, In k (od_keys d) -> In k (od_keys (state_of r)))
  /\ (forall e, In (Gaf.AnEag e) l -> In (Eag.name e) (od_keys (state_of r)))
  /\ events_of r
     = map (fun _ =>
              Printed "Warning! added Eags must be instance of Eag object.")
           (filter Spec.not_a_unit l).
Proof.
  revert d. induction l as [|o l IH]; intros d Hd; cbv zeta.
  - simpl. repeat split; auto; try apply Hd. intros e [].
  - rewrite for_each_cons. destruct o as [e|n].
    + change (Gaf.init_eag (Gaf.AnEag e) d)
        with (@Ok unit tt, od_set String.eqb d (Eag.name e) (Gaf.AnEag e),
              @nil event).
      cbn [outcome state_of events_of fst snd app].
      set (d' := od_set String.eqb d (Eag.name e) (Gaf.AnEag e)).
      assert (Hd' : Spec.units_by_name d').
      { destruct Hd as [Hnd Hall]. split.
        - now apply (od_set_nodup String.eqb Seqb_eq').
        - apply (od_set_forall String.eqb Seqb_eq'); auto.
          exists e. now split. }
      destruct (IH d' Hd') as (Ho & Hu & Hin & Hk & Hn & Hev).
      repeat split; try apply Hu; auto.
      * intros kv Hkv. destruct (Hin kv Hkv) as [H|H].
        -- apply (od_set_in String.eqb Seqb_eq') in H. destruct H as [->|H]; [|now left].
           right. left. reflexivity.
        -- right. now right.
      * intros k Hkd. apply Hk.
        apply (od_set_keys_in String.eqb Seqb_eq'). now right.
      * intros e' [[= ->]|He'].
        -- apply Hk. apply (od_set_keys_in String.eqb Seqb_eq'). now left.
        -- now apply Hn.
    + change (Gaf.init_eag (Gaf.Other n) d)
        with (@Ok unit tt, d,
              [Printed "Warning! added Eags must be instance of Eag object."]).
      cbn [outcome state_of events_of fst snd app].
      destruct (IH d Hd) as (Ho & Hu & Hin & Hk & Hn & Hev).
      repeat split; try apply Hu; auto.
      * intros kv Hkv. destruct (Hin kv Hkv) as [H|H]; [now left|].
        right. now right.
      * intros e' [[=]|He']. now apply Hn.
      * simpl. now rewrite Hev.
Qed.

(** C8, as the code has it.  Construction with an initial list stores
    only the EAGs of the list, each under its name, and prints a warning
    for every other value; construction and [add_eag] store an EAG under
    its name, so that no name is a key twice; and an EAG added under a
    name that is already a key takes the place of the earlier unit,
    without an error and without a warning. *)
Theorem units_keyed_by_name :
  (forall (id : option Z) (name : string) (l : list Gaf.object)
          (series : option DataFrame),
      let g := fst (Gaf.init id name l series) in
      Spec.units_by_name (Gaf.eags g)
      /\ (forall kv, In kv (Gaf.eags g) -> In (snd kv) l)
      /\ (forall e, In (Gaf.AnEag e) l ->
                    In (Eag.name e) (od_keys (Gaf.eags g)))
      /\ snd (Gaf.init id name l series)
         = map (fun _ =>
                  Printed
                    "Warning! added Eags must be instance of Eag object.")
               (filter Spec.not_a_unit l))
  /\ (forall (self : Gaf.t) (e : Eag.t),
         Spec.units_by_name (Gaf.eags self) ->
         exists self',
           Gaf.add_eag (Gaf.AnEag e) self = (Ok tt, self', [])
           /\ Spec.units_by_name (Gaf.eags self')
           /\ od_get String.eqb (Gaf.eags self') (Eag.name e)
              = Some (Gaf.AnEag e)
           /\ forall k, k <> Eag.name e ->
                        od_get String.eqb (Gaf.eags self') k
                        = od_get String.eqb (Gaf.eags self) k).
Proof.
  split.
  - intros id name l series g.
    assert (H0 : Spec.units_by_name (@nil (string * Gaf.object))).
    { split; constructor. }
    destruct (init_eags_run l [] H0) as (_ & Hu & Hin & _ & Hn & Hev).
    subst g. unfold Gaf.init. cbn [fst snd Gaf.eags].
    repeat split; try apply Hu; auto.
    intros kv Hkv. destruct (Hin kv Hkv) as [[]|H]. exact H.
  - intros self e [Hnd Hall]. eexists. split; [|split; [|split]].
    + unfold Gaf.add_eag. method_step. cbv match. method_step. reflexivity.
    + cbn [Gaf.eags Gaf.set_eags]. split.
      * now apply (od_set_nodup String.eqb Seqb_eq').
      * apply (od_set_forall String.eqb Seqb_eq'); auto.
        exists e. now split.
    + cbn [Gaf.eags Gaf.set_eags]. apply (od_get_set_same String.eqb Seqb_eq').
    + intros k Hk. cbn [Gaf.eags Gaf.set_eags].
      apply (od_get_set_other String.eqb Seqb_eq'). congruence.
Qed.

Lemma units_keyed_by_name_witness :
  exists self',
    Gaf.add_eag (Gaf.AnEag Examples.unit_A') Examples.region
    = (Ok tt, self', [])
    /\ Spec.units_by_name (Gaf.eags self').
Proof.
  destruct units_keyed_by_name as [Hinit Hadd].
  destruct (Hadd Examples.region Examples.unit_A') as (s & H1 & H2 & _).
  - apply (Hinit (Some 1) "Gaf"
                 [Gaf.AnEag Examples.unit_wet; Gaf.AnEag Examples.unit_B]
                 None).
  - exists s. split; assumption.
Defined.

(** C8 as stated fails: the region holds a unit named A, and [add_eag]
    with another unit of that name puts it in its place, with no error
    and nothing printed. *)
Lemma add_eag_replaces_silently :
  od_get String.eqb (Gaf.eags Examples.region) "A"
  = Some (Gaf.AnEag Examples.unit_wet)
  /\ Eag.id Examples.unit_wet <> Eag.id Examples.unit_A'
  /\ outcome (Gaf.add_eag (Gaf.AnEag Examples.unit_A') Examples.region)
     = Ok tt
  /\ events_of (Gaf.add_eag (Gaf.AnEag Examples.unit_A') Examples.region)
     = []
  /\ od_get String.eqb
            (Gaf.eags (state_of (Gaf.add_eag (Gaf.AnEag Examples.unit_A')
                                             Examples.region))) "A"
     = Some (Gaf.AnEag Examples.unit_A').
Proof.
  split; [reflexivity|]. split; [discriminate|].
  split; [reflexivity|]. split; reflexivity.
Qed.

(** ** The simulation of a region *)

(** The table handed to the [simulate] of a unit holds the rows that carry
    the code of the unit, and no other. *)
Lemma simulate_eag_rows (parameters : ParamTable) (eagname : string)
    (mask : Series label bool) :
  Gaf.EAGCode_is parameters eagname = Ok mask ->
  pt_rows (pt_loc_mask parameters mask)
  = Spec.rows_of_unit parameters eagname.
Proof.
  unfold Gaf.EAGCode_is.
  destruct (pt_column parameters "EAGCode"
              (fun r => String.eqb (EAGCode r) eagname)) as [m|e] eqn:E;
    [|discriminate].
  intros [= <-].
  apply (pt_loc_mask_rows parameters "EAGCode" EAGCode
                          (fun c => String.eqb c eagname) m E).
Qed.

(** C4, on the code.  [Gaf.simulate] calls [get_series_from_gaf] on the
    first unit; the class [Eag] defines [load_series_from_gaf] and no
    method of that name, so for every region with a unit the call raises
    AttributeError: the region is left as it was and the [simulate] of no
    unit, and of no bucket, is called. *)
Theorem Gaf_simulate_stops_at_first_unit :
  forall bucket_simulate water_simulate (self : Gaf.t)
         (parameters : ParamTable) (tmin tmax : targ),
    Gaf.eags self <> [] ->
    Gaf.simulate bucket_simulate water_simulate parameters tmin tmax self
    = (Raise AttributeError, self, []).
Proof.
  intros bs ws self parameters tmin tmax Hne.
  unfold Gaf.simulate. method_step.
  destruct self as [id name eags data ps series]. cbn [Gaf.eags] in *.
  destruct eags as [|[key o] rest]; [contradiction|].
  rewrite for_each_cons. unfold Gaf.simulate_eag. cbn [fst].
  rewrite bind_run.
  assert (H : Gaf.on_eag key (Eag.call_method "get_series_from_gaf")
                (Gaf.mk id name ((key, o) :: rest) data ps series)
              = (Raise AttributeError,
                 Gaf.mk id name ((key, o) :: rest) data ps series, [])).
  { unfold Gaf.on_eag. cbn [Gaf.eags od_get]. rewrite String.eqb_refl.
    destruct o as [e|n]; [|reflexivity].
    unfold Eag.call_method. cbn [String.eqb Ascii.eqb Bool.eqb].
    unfold raise, Gaf.set_eags. cbn [Gaf.eags od_set Gaf.id Gaf.name Gaf.data
                                     Gaf.parameters Gaf.series].
    rewrite String.eqb_refl. reflexivity. }
  rewrite H. reflexivity.
Qed.

Lemma Gaf_simulate_stops_at_first_unit_witness :
  Gaf.simulate Examples.still_bucket Examples.still_water
               Examples.params_region TNone TNone Examples.region
  = (Raise AttributeError, Examples.region, []).
Proof.
  apply (Gaf_simulate_stops_at_first_unit
           Examples.still_bucket Examples.still_water Examples.region
           Examples.params_region TNone TNone).
  discriminate.
Defined.

(** ** The simulation of an EAG *)

Lemma simulate_set_index (params : ParamTable) :
  pt_set_index params
    (map (fun cl => LStr (snd (fst cl) ++ "_" ++ str (snd (snd cl)))%string)
         (combine (map (fun r => (fst r, Code (snd r))) (pt_rows params))
                  (map (fun r => (fst r, LaagVolgorde (snd r)))
                       (pt_rows params))))
  = Spec.composite_indexed params.
Proof.
  unfold pt_set_index, Spec.composite_indexed. f_equal.
  induction (pt_rows params) as [|r rows IH]; [reflexivity|].
  cbn [map combine fst snd]. rewrite IH. reflexivity.
Qed.

Lemma owned_values_selected (params : ParamTable) (id : Z) :
  has_column params "Bakjes_ID" = true ->
  has_column params "Waarde" = true ->
  exists mask,
    pt_column (Spec.composite_indexed params) "Bakjes_ID"
              (fun r => Bakjes_ID r =? id) = Ok mask
    /\ pt_column (pt_loc_mask (Spec.composite_indexed params) mask)
                 "Waarde" Waarde
       = Ok (Spec.owned_values params id).
Proof.
  intros Hb Hw.
  assert (Hb' : has_column (Spec.composite_indexed params) "Bakjes_ID" = true)
    by exact Hb.
  eexists. split; [apply (pt_column_ok _ _ _ Hb')|].
  set (mask := map _ _).
  assert (Hm : pt_column (Spec.composite_indexed params) "Bakjes_ID"
                         (fun r => Bakjes_ID r =? id) = Ok mask)
    by apply (pt_column_ok _ _ _ Hb').
  pose proof (pt_loc_mask_rows (Spec.composite_indexed params) "Bakjes_ID"
                               Bakjes_ID (fun x => x =? id) mask Hm) as Hrows.
  rewrite pt_column_ok by exact Hw.
  rewrite Hrows. apply f_equal.
  unfold Spec.owned_values, Spec.composite_indexed.
  simpl pt_rows.
  induction (pt_rows params) as [|r rows IH]; simpl; [reflexivity|].
  destruct (Bakjes_ID (snd r) =? id); simpl; now rewrite IH.
Qed.

(** The rows of the water, as [simulate] selects them: the column of the
    owners is read first, and compared with the identity afterwards. *)
Lemma owned_values_water (params : ParamTable) :
  has_column params "Bakjes_ID" = true ->
  has_column params "Waarde" = true ->
  exists owner,
    pt_column (Spec.composite_indexed params) "Bakjes_ID" Bakjes_ID = Ok owner
    /\ forall id,
         pt_column (pt_loc_mask (Spec.composite_indexed params)
                                (map (fun lo => (fst lo, snd lo =? id)) owner))
                   "Waarde" Waarde
         = Ok (Spec.owned_values params id).
Proof.
  intros Hb Hw.
  assert (Hb' : has_column (Spec.composite_indexed params) "Bakjes_ID" = true)
    by exact Hb.
  eexists. split; [apply (pt_column_ok _ _ _ Hb')|].
  intros id.
  destruct (owned_values_selected params id Hb Hw) as (mask & Hmask & Hval).
  rewrite (pt_column_ok _ _ _ Hb') in Hmask. injection Hmask as <-.
  rewrite map_map. exact Hval.
Qed.

Section SimulateFacts.
Variable bucket_simulate :
  Eag.t -> Bucket -> Series label num -> targ -> targ -> result Bucket.
Variable water_simulate :
  Eag.t -> Water -> Series label num -> targ -> targ -> result Water.
Variables (params : ParamTable) (tmin tmax : targ).
Hypothesis has_owner : has_column params "Bakjes_ID" = true.
Hypothesis has_value : has_column params "Waarde" = true.

(** What one turn of the loop over the buckets does. *)
Lemma simulate_bucket_run (kb : Z * Bucket) (s : Eag.t) :
  let r := Eag.simulate_bucket bucket_simulate
             (Spec.composite_indexed params) tmin tmax kb s in
  events_of r
  = [Printed ("Simulating the waterbalance for bucket: " ++ str (fst kb))
             %string;
     BucketSimulate (snd kb) (Spec.owned_values params (fst kb)) tmin tmax]
  /\ Eag.water (state_of r) = Eag.water s
  /\ outcome r
     = match bucket_simulate s (snd kb) (Spec.owned_values params (fst kb))
                             tmin tmax with
       | Ok _ => Ok tt
       | Raise e => Raise e
       end.
Proof.
  destruct (owned_values_selected params (fst kb) has_owner has_value)
    as (mask & Hmask & Hval).
  cbv zeta. unfold Eag.simulate_bucket. cbv zeta.
  rewrite Hmask. method_step. method_step. rewrite Hval.
  method_step. method_step. method_step.
  destruct (bucket_simulate s (snd kb) (Spec.owned_values params (fst kb))
                            tmin tmax) as [b|e].
  - method_step. repeat split.
  - rewrite bind_lift_raise. repeat split.
Qed.

(** ... and what it leaves of the unit. *)
Lemma simulate_bucket_leaves (kb : Z * Bucket) (s : Eag.t) :
  state_of (Eag.simulate_bucket bucket_simulate
              (Spec.composite_indexed params) tmin tmax kb s)
  = match bucket_simulate s (snd kb) (Spec.owned_values params (fst kb))
                          tmin tmax with
    | Ok b => Eag.set_buckets (od_set Z.eqb (Eag.buckets s) (fst kb) b) s
    | Raise _ => s
    end.
Proof.
  destruct (owned_values_selected params (fst kb) has_owner has_value)
    as (mask & Hmask & Hval).
  unfold Eag.simulate_bucket. cbv zeta.
  rewrite Hmask. method_step. method_step. rewrite Hval.
  method_step. method_step. method_step.
  destruct (bucket_simulate s (snd kb) (Spec.owned_values params (fst kb))
                            tmin tmax) as [b|e].
  - method_step. reflexivity.
  - rewrite bind_lift_raise. reflexivity.
Qed.

(** The loop is the dispatch of step 2. *)
Lemma simulate_buckets_dispatch (bs : list (Z * Bucket)) (s : Eag.t) :
  Spec.keyed_by_id bs ->
  let r := for_each bs (Eag.simulate_bucket bucket_simulate
                          (Spec.composite_indexed params) tmin tmax) s in
  (outcome r, state_of r)
  = Spec.dispatch_buckets bucket_simulate params tmin tmax bs s.
Proof.
  revert s. induction bs as [|kb bs IH]; intros s Hk; cbv zeta.
  - reflexivity.
  - inversion Hk as [|? ? Hkb Hk']; subst.
    rewrite for_each_cons. cbn [Spec.dispatch_buckets]. cbv zeta.
    rewrite <- Hkb.
    destruct (simulate_bucket_run kb s) as (_ & _ & Ho).
    pose proof (simulate_bucket_leaves kb s) as Hs.
    rewrite Ho.
    destruct (bucket_simulate s (snd kb) (Spec.owned_values params (fst kb))
                              tmin tmax) as [b|e].
    + cbn [outcome state_of fst snd]. rewrite Hs. apply (IH _ Hk').
    + cbn [outcome state_of fst snd]. now rewrite Hs.
Qed.

(** The loop over the buckets: it ends after all of them, or at the
    first whose [simulate] raises, and does not touch the water. *)
Lemma simulate_buckets_run (bs : list (Z * Bucket)) (s : Eag.t) :
  Spec.keyed_by_id bs ->
  let r := for_each bs (Eag.simulate_bucket bucket_simulate
                          (Spec.composite_indexed params) tmin tmax) s in
  Eag.water (state_of r) = Eag.water s
  /\ ((outcome r = Ok tt
       /\ events_of r = Spec.bucket_events params tmin tmax bs)
      \/ (exists e k, outcome r = Raise e
                      /\ events_of r
                         = Spec.bucket_events params tmin tmax (firstn k bs))).
Proof.
  revert s. induction bs as [|kb bs IH]; intros s Hk; cbv zeta.
  - split; [reflexivity|]. left. split; reflexivity.
  - inversion Hk as [|? ? Hkb Hk']; subst.
    rewrite for_each_cons.
    destruct (simulate_bucket_run kb s) as (Hev & Hw & Ho).
    rewrite Hev. rewrite Ho.
    destruct (bucket_simulate s (snd kb) (Spec.owned_values params (fst kb))
                              tmin tmax) as [b|e].
    + cbn [outcome state_of events_of fst snd].
      destruct (IH (state_of (Eag.simulate_bucket bucket_simulate
                                (Spec.composite_indexed params) tmin tmax kb s))
                   Hk') as (Hw' & Hcases).
      split; [now rewrite Hw'|].
      destruct Hcases as [[Ho' Hev']|(e & k & Ho' & Hev')].
      * left. split; [exact Ho'|]. rewrite Hev'. simpl. now rewrite Hkb.
      * right. exists e, (S k). split; [exact Ho'|]. rewrite Hev'. simpl.
        now rewrite Hkb.
    + cbn [outcome state_of events_of fst snd]. split; [exact Hw|].
      right. exists e, 1%nat. split; [reflexivity|].
      cbn [firstn Spec.bucket_events flat_map app]. now rewrite Hkb.
Qed.

(** The loop returns when the models of the buckets do. *)
Lemma simulate_buckets_ok (bs : list (Z * Bucket)) (s : Eag.t) :
  (forall s b p, exists b', bucket_simulate s b p tmin tmax = Ok b') ->
  outcome (for_each bs (Eag.simulate_bucket bucket_simulate
                          (Spec.composite_indexed params) tmin tmax) s)
  = Ok tt.
Proof.
  intros Hbs. revert s. induction bs as [|kb bs IH]; intros s.
  - reflexivity.
  - rewrite for_each_cons.
    destruct (simulate_bucket_run kb s) as (_ & _ & Ho).
    destruct (Hbs s (snd kb) (Spec.owned_values params (fst kb))) as [b' Hb'].
    rewrite Hb' in Ho. rewrite Ho. cbn [outcome fst]. apply IH.
Qed.
End SimulateFacts.

Lemma bucket_events_prefix (params : ParamTable) (tmin tmax : targ)
    (bs : list (Z * Bucket)) (k : nat) (tail : list event) :
  Spec.is_prefix (Spec.bucket_events params tmin tmax (firstn k bs))
                 (Spec.bucket_events params tmin tmax bs ++ tail).
Proof.
  unfold Spec.is_prefix.
  exists (Spec.bucket_events params tmin tmax (skipn k bs) ++ tail).
  unfold Spec.bucket_events.
  rewrite app_assoc, <- flat_map_app, firstn_skipn. reflexivity.
Qed.

Lemma bucket_events_no_water (params : ParamTable) (tmin tmax : targ)
    (bs : list (Z * Bucket)) w p a b :
  ~ In (WaterSimulate w p a b) (Spec.bucket_events params tmin tmax bs).
Proof.
  unfold Spec.bucket_events. rewrite in_flat_map.
  intros (kb & _ & [H|[H|[]]]); discriminate.
Qed.

(** C3.  For a unit with buckets, each stored under its identity, and a
    water bucket, and a table with the columns [simulate] reads, and
    whatever the models of the buckets and of the water do: the outcome
    of [simulate] and the unit it leaves are those of the dispatch of
    the specification, in which the model of each bucket, in order, is
    applied to the value column of the rows owned by the identity of the
    bucket, and then the model of the water to the value column of the
    rows owned by its identity, on the unit as the buckets have left it.
    The calls made are always an initial part of that sequence; the call
    of the water occurs only when the whole sequence has been made; and
    when no [simulate] of a bucket model raises, the method returns and
    the calls are the whole sequence. *)
Theorem simulate_dispatches_by_identity :
  forall bucket_simulate water_simulate (self : Eag.t) (params : ParamTable)
         (tmin tmax : targ) (w : Water),
    (forall c, In c ["Code"; "LaagVolgorde"; "Bakjes_ID"; "Waarde"] ->
               has_column params c = true) ->
    Spec.keyed_by_id (Eag.buckets self) ->
    Eag.water self = Some w ->
    let r := Eag.simulate bucket_simulate water_simulate params tmin tmax
                          self in
    let expected :=
      Spec.bucket_events params tmin tmax (Eag.buckets self)
        ++ [Spec.water_event params tmin tmax w] in
    (outcome r, state_of r)
    = Spec.dispatch bucket_simulate water_simulate params tmin tmax w
                    (Eag.set_parameters (Spec.composite_indexed params) self)
    /\ Spec.is_prefix (events_of r) expected
    /\ (forall w' p a b,
           In (WaterSimulate w' p a b) (events_of r) ->
           events_of r = expected)
    /\ ((forall s b p, exists b', bucket_simulate s b p tmin tmax = Ok b') ->
        (forall s w0 p, exists w', water_simulate s w0 p tmin tmax = Ok w') ->
        outcome r = Ok tt /\ events_of r = expected).
Proof.
  intros bsim wsim self params tmin tmax w Hcols Hkeys Hwater.
  assert (Hc : has_column params "Code" = true) by (apply Hcols; simpl; auto).
  assert (Hl : has_column params "LaagVolgorde" = true)
    by (apply Hcols; simpl; auto).
  assert (Hb : has_column params "Bakjes_ID" = true)
    by (apply Hcols; simpl; auto 6).
  assert (Hv : has_column params "Waarde" = true)
    by (apply Hcols; simpl; auto 6).
  cbv zeta. unfold Eag.simulate.
  method_step. rewrite (pt_column_ok _ _ _ Hc). method_step.
  rewrite (pt_column_ok _ _ _ Hl). method_step. cbv zeta.
  rewrite simulate_set_index. method_step. method_step.
  change (Eag.set_parameters (Spec.composite_indexed params)
                             (Eag.set_parameters params self))
    with (Eag.set_parameters (Spec.composite_indexed params) self).
  set (s1 := Eag.set_parameters (Spec.composite_indexed params) self).
  change (Eag.buckets s1) with (Eag.buckets self).
  rewrite bind_run.
  destruct (simulate_buckets_run bsim params tmin tmax Hb Hv
                                 (Eag.buckets self) s1 Hkeys)
    as (Hw1 & Hloop).
  pose proof (simulate_buckets_dispatch bsim params tmin tmax Hb Hv
                                        (Eag.buckets self) s1 Hkeys) as Hd.
  cbv zeta in Hd. unfold Spec.dispatch.
  change (Eag.buckets s1) with (Eag.buckets self). rewrite <- Hd.
  set (loop := for_each (Eag.buckets self)
                        (Eag.simulate_bucket bsim
                           (Spec.composite_indexed params) tmin tmax) s1) in *.
  destruct Hloop as [[Ho Hev]|(e & k & Ho & Hev)]; rewrite Ho.
  - (* every bucket has been simulated *)
    destruct (owned_values_water params Hb Hv) as (owner & Hown & Hval).
    rewrite Hown. method_step. method_step. rewrite Hw1.
    change (Eag.water s1) with (Eag.water self).
    rewrite Hwater. cbn [of_option]. method_step. cbv zeta.
    rewrite Hval. method_step. method_step.
    cbn [events_of outcome state_of fst snd]. fold (events_of loop).
    rewrite Hev.
    destruct (wsim (state_of loop) w (Spec.owned_values params (water_id w))
                   tmin tmax) as [w'|e] eqn:Ews.
    + method_step. cbn [modify events_of outcome state_of fst snd].
      split; [reflexivity|].
      split; [exists []; now rewrite app_nil_r|].
      split; [reflexivity|].
      intros _ _. split; reflexivity.
    + rewrite bind_lift_raise. cbn [events_of outcome state_of fst snd].
      split; [reflexivity|].
      split; [exists []; now rewrite app_nil_r|].
      split; [reflexivity|].
      intros _ Hws. exfalso.
      destruct (Hws (state_of loop) w (Spec.owned_values params (water_id w)))
        as [w' Hw']. congruence.
  - (* the simulate of a bucket raised *)
    cbn [events_of outcome state_of fst snd]. fold (events_of loop).
    fold (state_of loop). rewrite Hev.
    split; [reflexivity|].
    split; [apply bucket_events_prefix|].
    split.
    + intros w' p a b Hin. exfalso.
      exact (bucket_events_no_water _ _ _ _ _ _ _ _ Hin).
    + intros Hbs _. exfalso.
      pose proof (simulate_buckets_ok bsim params tmin tmax Hb Hv
                                      (Eag.buckets self) s1 Hbs) as Hok.
      fold loop in Hok. congruence.
Qed.

Lemma simulate_dispatches_by_identity_witness :
  outcome (Eag.simulate Examples.recording_bucket Examples.recording_water
                        Examples.params_A TNone (TStr "2015-12-31")
                        Examples.unit_wet) = Ok tt
  /\ map (fun kb => bucket_area (snd kb))
         (Eag.buckets
            (state_of (Eag.simulate Examples.recording_bucket
                                    Examples.recording_water
                                    Examples.params_A TNone
                                    (TStr "2015-12-31") Examples.unit_wet)))
     = [nansum [Examples.q 7]; nansum [Examples.q 8]]
  /\ option_map area
        (Eag.water
           (state_of (Eag.simulate Examples.recording_bucket
                                   Examples.recording_water
                                   Examples.params_A TNone
                                   (TStr "2015-12-31") Examples.unit_wet)))
     = Some (nansum [Examples.q 0; Examples.q (-1);
                     nansum [Examples.q 7]; nansum [Examples.q 8]])
  /\ events_of (Eag.simulate Examples.recording_bucket
                             Examples.recording_water
                             Examples.params_A TNone (TStr "2015-12-31")
                             Examples.unit_wet)
     = [Printed "Simulating the waterbalance for bucket: 1";
        BucketSimulate Examples.verhard [(LStr "RFacIn_1", Examples.q 7)]
                       TNone (TStr "2015-12-31");
        Printed "Simulating the waterbalance for bucket: 2";
        BucketSimulate Examples.onverhard [(LStr "RFacOut_1", Examples.q 8)]
                       TNone (TStr "2015-12-31");
        WaterSimulate (Examples.the_water 110 100
                         (Examples.water_fluxes 10 5 (-7) 0))
                      [(LStr "hTarget_1", Examples.q 0);
                       (LStr "hBottom_1", Examples.q (-1))]
                      TNone (TStr "2015-12-31")].
Proof.
  destruct (simulate_dispatches_by_identity
              Examples.recording_bucket Examples.recording_water
              Examples.unit_wet
              Examples.params_A TNone (TStr "2015-12-31")
              (Examples.the_water 110 100 (Examples.water_fluxes 10 5 (-7) 0)))
    as (Hd & _ & _ & H).
  - intros c Hc. simpl in Hc.
    destruct Hc as [<-|[<-|[<-|[<-|[]]]]]; reflexivity.
  - repeat constructor.
  - reflexivity.
  - destruct H as [Ho Hev].
    + intros s b p. eexists. reflexivity.
    + intros s w0 p. eexists. reflexivity.
    + split; [exact Ho|].
      apply (f_equal snd) in Hd. cbn [snd] in Hd.
      split; [now rewrite Hd|]. split; [now rewrite Hd | exact Hev].
Defined.

(** ** Series and frames *)

Lemma map_fst_combine_eq {A B} (a : list A) (b : list B) :
  List.length a = List.length b -> map fst (combine a b) = a.
Proof.
  revert b. induction a as [|x a IH]; intros [|y b] H; simpl in *;
    try discriminate; [reflexivity|].
  f_equal. apply IH. now injection H.
Qed.

Lemma map_snd_combine_eq {A B} (a : list A) (b : list B) :
  List.length a = List.length b -> map snd (combine a b) = b.
Proof.
  revert b. induction a as [|x a IH]; intros [|y b] H; simpl in *;
    try discriminate; [reflexivity|].
  f_equal. apply IH. now injection H.
Qed.

Lemma index_eqb_eq (a b : list time) : index_eqb a b = true <-> a = b.
Proof.
  revert b. induction a as [|x a IH]; intros [|y b]; simpl;
    try (split; [discriminate | discriminate]); [tauto|].
  rewrite andb_true_iff, Z.eqb_eq, IH. split.
  - intros [-> ->]. reflexivity.
  - intros [= -> ->]. now split.
Qed.

Lemma index_of_some (t : time) (ix : list time) :
  In t ix -> exists i, index_of t ix = Some i /\ (i < List.length ix)%nat.
Proof.
  induction ix as [|x ix IH]; simpl; [contradiction|].
  intros Hin. destruct (x =? t) eqn:E.
  - exists O. split; [reflexivity | lia].
  - destruct Hin as [->|Hin]; [rewrite Z.eqb_refl in E; discriminate|].
    destruct (IH Hin) as (i & -> & Hi). exists (S i). split; [reflexivity|lia].
Qed.

Lemma index_of_lt (t : time) (ix : list time) (i : nat) :
  index_of t ix = Some i -> (i < List.length ix)%nat.
Proof.
  revert i. induction ix as [|x ix IH]; simpl; intros i; [discriminate|].
  destruct (x =? t).
  - intros [= <-]. lia.
  - destruct (index_of t ix) as [j|]; [|discriminate].
    intros [= <-]. specialize (IH j eq_refl). lia.
Qed.

(** [s.loc[t]] on a Series given by its index and its values. *)
Lemma sr_loc_combine (ix : list time) (vals : list num) (t : time) (i : nat) :
  index_of t ix = Some i -> List.length vals = List.length ix ->
  sr_loc (combine ix vals) t = Ok (nth i vals NaN).
Proof.
  revert vals i. induction ix as [|x ix IH]; intros [|v vals] i; simpl;
    try discriminate.
  intros Hi Hlen. destruct (x =? t).
  - injection Hi as <-. reflexivity.
  - destruct (index_of t ix) as [j|] eqn:E; [|discriminate].
    injection Hi as <-. apply IH; [reflexivity | now injection Hlen].
Qed.

Lemma sr_loc_in (s : Series time num) (t : time) :
  In t (sr_index s) -> exists v, sr_loc s t = Ok v.
Proof.
  unfold sr_index. induction s as [|[l v] s IH]; simpl; [contradiction|].
  intros Hin. destruct (l =? t) eqn:E; [now exists v|].
  destruct Hin as [->|Hin]; [rewrite Z.eqb_refl in E; discriminate|].
  now apply IH.
Qed.

Lemma sr_loc_map_index (g : time -> num) (ix : list time) (t : time) (c : num) :
  sr_loc (combine ix (map g ix)) t = Ok c -> c = g t.
Proof.
  induction ix as [|x ix IH]; simpl; [discriminate|].
  destruct (x =? t) eqn:E.
  - apply Z.eqb_eq in E. subst. now intros [= <-].
  - exact IH.
Qed.

Lemma row_sums_length (df : DataFrame) :
  List.length (row_sums df) = List.length (df_index df).
Proof. unfold row_sums. now rewrite length_map, length_seq. Qed.

Lemma df_sum_rows_index (df : DataFrame) :
  sr_index (df_sum_rows df) = df_index df.
Proof.
  unfold sr_index, df_sum_rows. apply map_fst_combine_eq.
  symmetry. apply row_sums_length.
Qed.

Lemma df_sum_rows_values (df : DataFrame) :
  sr_values (df_sum_rows df) = row_sums df.
Proof.
  unfold sr_values, df_sum_rows. apply map_snd_combine_eq.
  symmetry. apply row_sums_length.
Qed.

(** *** Columns *)

Lemma od_get_in_keys {V} (d : list (string * V)) (k : string) :
  In k (map fst d) <-> exists v, od_get String.eqb d k = Some v.
Proof.
  induction d as [|[k' v'] d IH]; simpl.
  - split; [contradiction | intros [v H]; discriminate].
  - destruct (String.eqb k k') eqn:E.
    + apply String.eqb_eq in E. subst. split; [now exists v' | now left].
    + rewrite <- IH. split; [intros [->|H]; [|exact H] | now right].
      rewrite String.eqb_refl in E. discriminate.
Qed.

Lemma df_getcol_column (df : DataFrame) (name : string) :
  In name (map fst (df_columns df)) ->
  df_getcol df name = Ok (Spec.column df name).
Proof.
  intros Hin. apply od_get_in_keys in Hin. destruct Hin as [v Hv].
  unfold Spec.column, df_getcol. now rewrite Hv.
Qed.

Lemma df_getcol_keys (df : DataFrame) (name : string) (c : list num) :
  df_getcol df name = Ok c -> In name (map fst (df_columns df)).
Proof.
  unfold df_getcol. intros H. apply od_get_in_keys.
  destruct (od_get String.eqb (df_columns df) name) as [v|]; [|discriminate].
  now exists v.
Qed.

(** [df.loc[:, names]] when the frame has the columns. *)
Lemma df_loc_cols_ok (df : DataFrame) (names : list string) :
  (forall n, In n names -> In n (map fst (df_columns df))) ->
  df_loc_cols df names
  = Ok (Spec.selection df names).
Proof.
  intros Hin. unfold df_loc_cols.
  assert (H : rmap (fun n => (v <- df_getcol df n ;; Ok (n, v))%result) names
              = Ok (map (fun n => (n, Spec.column df n)) names)).
  { induction names as [|n names IH]; [reflexivity|].
    cbn [rmap map]. rewrite df_getcol_column by (apply Hin; now left).
    cbn [rbind]. rewrite IH; [reflexivity|].
    intros m Hm. apply Hin. now right. }
  now rewrite H.
Qed.

(** ... and the other way round: it returns only when the frame has
    them. *)
Lemma df_loc_cols_inv (df r : DataFrame) (names : list string) :
  df_loc_cols df names = Ok r ->
  (forall n, In n names -> In n (map fst (df_columns df)))
  /\ r = Spec.selection df names.
Proof.
  intros H.
  assert (Hin : forall n, In n names -> In n (map fst (df_columns df))).
  { unfold df_loc_cols in H.
    destruct (rmap (fun n => (v <- df_getcol df n ;; Ok (n, v))%result) names)
      as [cols|e] eqn:E; [clear H|discriminate].
    revert cols E. induction names as [|n names IH]; intros cols E m Hm;
      [contradiction|].
    cbn [rmap] in E. destruct (df_getcol df n) as [c|e] eqn:En;
      [|discriminate].
    cbn [rbind] in E.
    destruct (rmap (fun n => (v <- df_getcol df n ;; Ok (n, v))%result) names)
      as [cols'|e] eqn:E'; [|discriminate].
    destruct Hm as [<-|Hm]; [now apply df_getcol_keys with c|].
    now apply (IH cols'). }
  split; [exact Hin|]. rewrite (df_loc_cols_ok df names Hin) in H.
  now injection H.
Qed.

Lemma df_row_selection (df : DataFrame) (names : list string) (i : nat) :
  df_row (Spec.selection df names) i = map (fun n => Spec.cell df n i) names.
Proof.
  unfold df_row, Spec.selection, Spec.cell. cbn [df_columns].
  rewrite map_map. reflexivity.
Qed.

Lemma df_row_mask_selection (df : DataFrame) (names : list string)
    (test : num -> bool) (i : nat) :
  test NaN = false ->
  df_row (df_mask_set test zero (Spec.selection df names)) i
  = map (fun n => if test (Spec.cell df n i) then zero
                  else Spec.cell df n i) names.
Proof.
  intros Hnan.
  unfold df_row, df_mask_set, Spec.selection, Spec.cell. cbn [df_columns].
  rewrite !map_map. apply map_ext. intros n. cbn [fst snd].
  set (clamp := fun x => if test x then zero else x).
  change (nth i (map clamp (Spec.column df n)) NaN
          = clamp (nth i (Spec.column df n) NaN)).
  assert (Hc : clamp NaN = NaN) by (unfold clamp; now rewrite Hnan).
  rewrite <- Hc at 1. apply map_nth.
Qed.

(** *** Assigning a column *)

Section SetItem.
Variables (df q : DataFrame) (name : string).
Hypothesis same_index : df_index q = df_index df.

Lemma df_setitem_rows_index :
  df_index (df_setitem df name (df_sum_rows q)) = df_index df.
Proof.
  unfold df_setitem. destruct (df_index df) as [|t ix] eqn:E; [|reflexivity].
  cbn [df_index]. now rewrite df_sum_rows_index, same_index.
Qed.

Lemma df_setitem_rows_keys (k : string) :
  In k (map fst (df_columns (df_setitem df name (df_sum_rows q))))
  <-> k = name \/ In k (map fst (df_columns df)).
Proof.
  unfold df_setitem. destruct (df_index df) as [|t ix]; cbn [df_columns].
  - change (map fst (od_set String.eqb ?d name ?v))
      with (od_keys (od_set String.eqb d name v)).
    rewrite (od_set_keys_in String.eqb Seqb_eq'). unfold od_keys.
    rewrite map_map. reflexivity.
  - apply (od_set_keys_in String.eqb Seqb_eq').
Qed.

Lemma df_setitem_rows_same :
  Spec.holds (df_setitem df name (df_sum_rows q)) name (row_sums q).
Proof.
  split; [|now rewrite row_sums_length, df_setitem_rows_index, same_index].
  unfold df_setitem, df_getcol.
  destruct (df_index df) as [|t ix] eqn:E; cbn [df_columns].
  - rewrite (od_get_set_same String.eqb Seqb_eq').
    now rewrite df_sum_rows_values.
  - rewrite (od_get_set_same String.eqb Seqb_eq').
    rewrite df_sum_rows_index, same_index, index_eqb_refl.
    now rewrite df_sum_rows_values.
Qed.

Lemma df_setitem_rows_other (name' : string) (c : list num) :
  name' <> name -> Spec.holds df name' c ->
  Spec.holds (df_setitem df name (df_sum_rows q)) name' c.
Proof.
  intros Hne [Hget Hlen].
  split; [|now rewrite df_setitem_rows_index].
  unfold df_setitem, df_getcol in *.
  destruct (df_index df) as [|t ix] eqn:E; cbn [df_columns].
  - rewrite (od_get_set_other String.eqb Seqb_eq') by congruence.
    rewrite (od_get_map_values (fun _ => map (fun _ => NaN) (df_sum_rows q))).
    destruct (od_get String.eqb (df_columns df) name') as [c'|];
      [|discriminate].
    injection Hget as ->. cbn [option_map of_option].
    destruct c; [|discriminate].
    assert (Hs : df_sum_rows q = []).
    { unfold df_sum_rows. now rewrite same_index. }
    now rewrite Hs.
  - now rewrite (od_get_set_other String.eqb Seqb_eq') by congruence.
Qed.
End SetItem.

Lemma df_setitem_scalar_keys (df : DataFrame) (name : string) (v : num)
    (k : string) :
  In k (map fst (df_columns (df_setitem_scalar df name v)))
  <-> k = name \/ In k (map fst (df_columns df)).
Proof. apply (od_set_keys_in String.eqb Seqb_eq'). Qed.

Lemma df_setitem_scalar_same (df : DataFrame) (name : string) (v : num) :
  Spec.holds (df_setitem_scalar df name v) name
             (map (fun _ => v) (df_index df)).
Proof.
  split; [|cbn [df_index df_setitem_scalar]; now rewrite length_map].
  unfold df_getcol, df_setitem_scalar. cbn [df_columns].
  now rewrite (od_get_set_same String.eqb Seqb_eq').
Qed.

Lemma df_setitem_scalar_other (df : DataFrame) (name name' : string)
    (v : num) (c : list num) :
  name' <> name -> Spec.holds df name' c ->
  Spec.holds (df_setitem_scalar df name v) name' c.
Proof.
  intros Hne [Hget Hlen]. split; [|exact Hlen].
  unfold df_getcol, df_setitem_scalar in *. cbn [df_columns].
  now rewrite (od_get_set_other String.eqb Seqb_eq') by congruence.
Qed.

(** [df.loc[:, names]] returns when the frame has the columns, and raises
    KeyError when it lacks one. *)
Lemma df_loc_cols_cases (df : DataFrame) (names : list string) :
  (forall n, In n names -> In n (map fst (df_columns df)))
  \/ ((exists n, In n names /\ ~ In n (map fst (df_columns df)))
      /\ df_loc_cols df names = Raise KeyError).
Proof.
  unfold df_loc_cols. induction names as [|n names IH].
  - left. intros n [].
  - destruct (df_getcol df n) as [c|e] eqn:E.
    + destruct IH as [IH|[(m & Hm & Hnot) IH]].
      * left. intros m [<-|Hm]; [now apply df_getcol_keys with c | now apply IH].
      * right. split; [exists m; split; [now right | exact Hnot]|].
        cbn [rmap]. rewrite E. cbn [rbind].
        destruct (rmap (fun n => (v <- df_getcol df n ;; Ok (n, v))%result)
                       names) as [cols|e']; [discriminate|].
        cbn [rbind] in *. exact IH.
    + right. split.
      * exists n. split; [now left|]. intros Hin.
        rewrite (df_getcol_column df n Hin) in E. discriminate.
      * cbn [rmap]. rewrite E. cbn [rbind].
        unfold df_getcol in E.
        destruct (od_get String.eqb (df_columns df) n); [discriminate|].
        cbn [of_option] in E. now injection E as <-.
Qed.

(** ** Numbers *)

Lemma eqv_refl (x : num) : (x == x)%num.
Proof. destruct x; simpl; auto. reflexivity. Qed.

Lemma nansum_sum (xs : list num) :
  Forall (fun x => isnan x = false) xs -> nansum xs = sum xs.
Proof.
  unfold nansum, sum. generalize zero as acc.
  induction xs as [|x xs IH]; intros acc H; [reflexivity|].
  inversion H as [|? ? Hx Hxs]; subst. cbn [fold_left]. rewrite Hx.
  now apply IH.
Qed.

Lemma sum_finite (xs : list num) :
  Forall (fun x => is_finite x = true) xs ->
  exists q, sum xs = Fin q /\ (q == Qsum xs)%Q.
Proof.
  unfold sum, zero, of_Z.
  assert (G : forall a, Forall (fun x => is_finite x = true) xs ->
                        exists q, fold_left add xs (Fin a) = Fin q
                                  /\ (q == a + Qsum xs)%Q).
  { induction xs as [|x xs IH]; intros a H.
    - exists a. split; [reflexivity|]. simpl. lra.
    - inversion H as [|? ? Hx Hxs]; subst.
      destruct x as [b| | |]; try discriminate.
      cbn [fold_left add]. destruct (IH (a + b)%Q Hxs) as (q & Hq & Hv).
      exists q. split; [exact Hq|]. cbn [Qsum fold_right to_Q].
      fold (Qsum xs). lra. }
  intros H. destruct (G (inject_Z 0) H) as (q & Hq & Hv).
  exists q. split; [exact Hq|]. rewrite Hv. unfold inject_Z. lra.
Qed.


(** The parts of a finite value. *)
Lemma max0_min0_finite (a : Q) :
  exists p n : Q,
    Spec.max0 (Fin a) = Fin p /\ Spec.min0 (Fin a) = Fin n
    /\ (0 <= p)%Q /\ (n <= 0)%Q /\ (p - n == Qabs a)%Q /\ (p + n == a)%Q.
Proof.
  unfold Spec.max0, Spec.min0, ltb0, gtb0, sgn, zero, of_Z.
  destruct (a ?= 0)%Q eqn:E.
  - apply Qeq_alt in E. exists a, a.
    repeat split; try lra. rewrite E. reflexivity.
  - apply Qlt_alt in E. exists (inject_Z 0), a.
    repeat split; unfold inject_Z; try lra.
    rewrite Qabs_neg by lra. lra.
  - apply Qgt_alt in E. exists a, (inject_Z 0).
    repeat split; unfold inject_Z; try lra.
    rewrite Qabs_pos by lra. lra.
Qed.

Lemma max0_not_negative (x : num) : ltb0 (Spec.max0 x) = false.
Proof.
  unfold Spec.max0. destruct (ltb0 x) eqn:E; [reflexivity | exact E].
Qed.

Lemma min0_not_positive (x : num) : gtb0 (Spec.min0 x) = false.
Proof.
  unfold Spec.min0. destruct (gtb0 x) eqn:E; [reflexivity | exact E].
Qed.

Lemma max0_known (x : num) : isnan x = false -> isnan (Spec.max0 x) = false.
Proof. unfold Spec.max0. now destruct (ltb0 x). Qed.

Lemma min0_known (x : num) : isnan x = false -> isnan (Spec.min0 x) = false.
Proof. unfold Spec.min0. now destruct (gtb0 x). Qed.

(** ** The aggregated fluxes *)

Section AggregateFacts.
Variable self : Eag.t.

Let names_verhard : list string :=
  Eag.column_names self "q_oa_" (Eag.bucket_named self ["Verhard"]).
Let names_uitspoel : list string :=
  Eag.column_names self "q_ui_"
                   (Eag.bucket_named self ["Verhard"; "Onverhard"]).
Let names_intrek : list string :=
  Eag.column_names self "q_ui_" (fun _ => true).
Let names_afstroom : list string :=
  Eag.column_names self "q_oa_" (Eag.bucket_named self ["Onverhard"]).

(** What [aggregate_fluxes] returns, when it returns. *)
Lemma aggregate_fluxes_inv (fl : DataFrame) :
  Eag.aggregate_fluxes self = Ok fl ->
  exists w,
    Eag.water self = Some w
    /\ df_index fl = df_index (fluxes w)
    /\ (forall c, In c Spec.categories -> In c (map fst (df_columns fl)))
    /\ Spec.holds fl "verhard"
                  (row_sums (Spec.selection (fluxes w) names_verhard))
    /\ Spec.holds fl "uitspoeling"
                  (row_sums (df_mask_set ltb0 zero
                               (Spec.selection (fluxes w) names_uitspoel)))
    /\ Spec.holds fl "intrek"
                  (row_sums (df_mask_set gtb0 zero
                               (Spec.selection (fluxes w) names_intrek)))
    /\ Spec.holds fl "afstroming"
                  (row_sums (Spec.selection (fluxes w) names_afstroom))
    /\ Spec.holds fl "drain" (map (fun _ => zero) (df_index (fluxes w))).
Proof.
  unfold Eag.aggregate_fluxes.
  destruct (Eag.water self) as [w|]; [|discriminate]. cbn [of_option rbind].
  destruct (df_loc_cols (fluxes w) (od_keys Eag.d)) as [fl0|] eqn:E0;
    [|discriminate]. cbn [rbind].
  fold names_verhard names_uitspoel names_intrek names_afstroom.
  destruct (df_loc_cols (fluxes w) names_verhard) as [q1|] eqn:E1;
    [|discriminate]. cbn [rbind].
  destruct (df_loc_cols (fluxes w) names_uitspoel) as [q2|] eqn:E2;
    [|discriminate]. cbn [rbind].
  destruct (df_loc_cols (fluxes w) names_intrek) as [q3|] eqn:E3;
    [|discriminate]. cbn [rbind].
  destruct (df_loc_cols (fluxes w) names_afstroom) as [q4|] eqn:E4;
    [|discriminate]. cbn [rbind].
  apply df_loc_cols_inv in E0, E1, E2, E3, E4.
  destruct E0 as [_ ->], E1 as [_ ->], E2 as [_ ->], E3 as [_ ->],
           E4 as [_ ->].
  intros [= <-]. exists w. split; [reflexivity|].
  set (fl0 := df_rename (Spec.selection (fluxes w) (od_keys Eag.d)) Eag.d).
  set (q1 := Spec.selection (fluxes w) names_verhard).
  set (q2 := df_mask_set ltb0 zero (Spec.selection (fluxes w) names_uitspoel)).
  set (q3 := df_mask_set gtb0 zero (Spec.selection (fluxes w) names_intrek)).
  set (q4 := Spec.selection (fluxes w) names_afstroom).
  set (fl1 := df_setitem fl0 "verhard" (df_sum_rows q1)).
  set (fl2 := df_setitem fl1 "uitspoeling" (df_sum_rows q2)).
  set (fl3 := df_setitem fl2 "intrek" (df_sum_rows q3)).
  set (fl4 := df_setitem fl3 "afstroming" (df_sum_rows q4)).
  assert (I0 : df_index fl0 = df_index (fluxes w)) by reflexivity.
  assert (I1 : df_index fl1 = df_index (fluxes w)).
  { unfold fl1. now rewrite df_setitem_rows_index. }
  assert (I2 : df_index fl2 = df_index (fluxes w)).
  { unfold fl2. rewrite df_setitem_rows_index; [exact I1 | now rewrite I1]. }
  assert (I3 : df_index fl3 = df_index (fluxes w)).
  { unfold fl3. rewrite df_setitem_rows_index; [exact I2 | now rewrite I2]. }
  assert (I4 : df_index fl4 = df_index (fluxes w)).
  { unfold fl4. rewrite df_setitem_rows_index; [exact I3 | now rewrite I3]. }
  assert (Q1 : df_index q1 = df_index fl0) by reflexivity.
  assert (Q2 : df_index q2 = df_index fl1) by now rewrite I1.
  assert (Q3 : df_index q3 = df_index fl2) by now rewrite I2.
  assert (Q4 : df_index q4 = df_index fl3) by now rewrite I3.
  split; [exact I4|].
  split.
  { pose proof (df_setitem_rows_keys fl0 q1 "verhard" Q1) as K1.
    pose proof (df_setitem_rows_keys fl1 q2 "uitspoeling" Q2) as K2.
    pose proof (df_setitem_rows_keys fl2 q3 "intrek" Q3) as K3.
    pose proof (df_setitem_rows_keys fl3 q4 "afstroming" Q4) as K4.
    fold fl1 in K1. fold fl2 in K2. fold fl3 in K3. fold fl4 in K4.
    intros c Hc. apply df_setitem_scalar_keys.
    change (c = "drain" \/ In c (map fst (df_columns fl4))).
    rewrite K4, K3, K2, K1.
    cbn in Hc. cbn. intuition (subst; auto 20). }
  assert (H1 : Spec.holds fl1 "verhard" (row_sums q1))
    by apply (df_setitem_rows_same fl0 q1 "verhard" Q1).
  assert (H2 : Spec.holds fl2 "uitspoeling" (row_sums q2))
    by apply (df_setitem_rows_same fl1 q2 "uitspoeling" Q2).
  assert (H3 : Spec.holds fl3 "intrek" (row_sums q3))
    by apply (df_setitem_rows_same fl2 q3 "intrek" Q3).
  assert (H4 : Spec.holds fl4 "afstroming" (row_sums q4))
    by apply (df_setitem_rows_same fl3 q4 "afstroming" Q4).
  split; [|split; [|split; [|split]]].
  - apply df_setitem_scalar_other; [discriminate|].
    apply (df_setitem_rows_other fl3 q4 "afstroming" Q4); [discriminate|].
    apply (df_setitem_rows_other fl2 q3 "intrek" Q3); [discriminate|].
    apply (df_setitem_rows_other fl1 q2 "uitspoeling" Q2); [discriminate|].
    exact H1.
  - apply df_setitem_scalar_other; [discriminate|].
    apply (df_setitem_rows_other fl3 q4 "afstroming" Q4); [discriminate|].
    apply (df_setitem_rows_other fl2 q3 "intrek" Q3); [discriminate|].
    exact H2.
  - apply df_setitem_scalar_other; [discriminate|].
    apply (df_setitem_rows_other fl3 q4 "afstroming" Q4); [discriminate|].
    exact H3.
  - apply df_setitem_scalar_other; [discriminate|]. exact H4.
  - rewrite <- I4. apply df_setitem_scalar_same.
Qed.

(** [aggregate_fluxes] returns when the water has the columns. *)
Lemma aggregate_fluxes_ok (w : Water) :
  Eag.water self = Some w ->
  Spec.columns_present (Eag.buckets self) w ->
  exists fl, Eag.aggregate_fluxes self = Ok fl.
Proof.
  intros Hw Hcols.
  assert (Hnames : forall prefix test n,
             (prefix = "q_oa_" \/ prefix = "q_ui_") ->
             In n (Eag.column_names self prefix test) ->
             In n (map fst (df_columns (fluxes w)))).
  { intros prefix test n Hp Hn. apply Hcols. apply in_or_app. right.
    unfold Eag.column_names, od_keys in Hn.
    apply in_map_iff in Hn. destruct Hn as (id & <- & Hid).
    apply filter_In in Hid. destruct Hid as [Hid _].
    apply in_map_iff in Hid. destruct Hid as (kb & <- & Hkb).
    apply in_flat_map. exists kb. split; [exact Hkb|].
    destruct Hp as [-> | ->]; simpl; auto. }
  unfold Eag.aggregate_fluxes. rewrite Hw. cbn [of_option rbind].
  rewrite df_loc_cols_ok
    by (intros n Hn; apply Hcols; apply in_or_app; left; exact Hn).
  cbn [rbind].
  rewrite df_loc_cols_ok by (intros n; apply Hnames; now left).
  cbn [rbind].
  rewrite df_loc_cols_ok by (intros n; apply Hnames; now right).
  cbn [rbind].
  rewrite df_loc_cols_ok by (intros n; apply Hnames; now right).
  cbn [rbind].
  rewrite df_loc_cols_ok by (intros n; apply Hnames; now left).
  cbn [rbind]. eexists. reflexivity.
Qed.
End AggregateFacts.

(** ** Leaching and infiltration *)

Lemma column_names_buckets (self : Eag.t) (prefix : string)
    (test : Z -> bool) :
  Eag.column_names self prefix test
  = map (fun kb => (prefix ++ str (fst kb))%string)
        (filter (fun kb => test (fst kb)) (Eag.buckets self)).
Proof.
  unfold Eag.column_names, od_keys.
  induction (Eag.buckets self) as [|kb bs IH]; [reflexivity|].
  cbn [map filter]. destruct (test (fst kb)); cbn [map]; now rewrite IH.
Qed.

Lemma bucket_named_bucket (self : Eag.t) (names : list string)
    (kb : Z * Bucket) :
  NoDup (od_keys (Eag.buckets self)) -> In kb (Eag.buckets self) ->
  Eag.bucket_named self names (fst kb)
  = existsb (String.eqb (bucket_name (snd kb))) names.
Proof.
  intros Hnd Hin. unfold Eag.bucket_named.
  rewrite (od_get_in_nodup Z.eqb Zeqb_eq' (Eag.buckets self) (fst kb) (snd kb));
    [reflexivity | exact Hnd | now destruct kb].
Qed.

Lemma zeros_repeat {A} (ix : list A) (v : num) :
  map (fun _ => v) ix = repeat v (List.length ix).
Proof. induction ix as [|x ix IH]; simpl; [reflexivity | now rewrite IH]. Qed.

Lemma zeros_seq (v : num) (n : nat) (s : nat) :
  map (fun _ => v) (seq s n) = repeat v n.
Proof. now rewrite zeros_repeat, length_seq. Qed.

Lemma filter_all {A} (l : list A) : filter (fun _ => true) l = l.
Proof. induction l as [|x l IH]; simpl; [reflexivity | now rewrite IH]. Qed.

Lemma filter_none {A} (l : list A) : filter (fun _ => false) l = [].
Proof. induction l as [|x l IH]; simpl; [reflexivity | exact IH]. Qed.

Section ExchangeFacts.
Variables (self : Eag.t) (w : Water).
Hypothesis keys_unique : NoDup (od_keys (Eag.buckets self)).

Let n : nat := List.length (df_index (fluxes w)).

(** The rows of the selected q_ui columns, with a test of the values
    that is false on NaN: bucket by bucket. *)
Lemma masked_rows (types : list string) (test : num -> bool) :
  test NaN = false ->
  row_sums (df_mask_set test zero
              (Spec.selection (fluxes w)
                 (Eag.column_names self "q_ui_"
                                   (Eag.bucket_named self types))))
  = map (fun i =>
           nansum
             (map (fun kb =>
                     if test (Spec.flux_vertical w (fst kb) i) then zero
                     else Spec.flux_vertical w (fst kb) i)
                  (filter (fun kb =>
                             existsb (String.eqb (bucket_name (snd kb))) types)
                          (Eag.buckets self))))
        (seq 0 n).
Proof.
  intros Hnan. unfold row_sums. cbn [df_index df_mask_set Spec.selection].
  fold n. apply map_ext. intros i.
  rewrite (df_row_mask_selection (fluxes w) _ test i Hnan).
  rewrite column_names_buckets, map_map. unfold Spec.flux_vertical.
  f_equal. f_equal. apply filter_ext_in. intros kb Hkb.
  now apply bucket_named_bucket.
Qed.

Lemma masked_rows_all (test : num -> bool) :
  test NaN = false ->
  row_sums (df_mask_set test zero
              (Spec.selection (fluxes w)
                 (Eag.column_names self "q_ui_" (fun _ => true))))
  = map (fun i =>
           nansum
             (map (fun kb =>
                     if test (Spec.flux_vertical w (fst kb) i) then zero
                     else Spec.flux_vertical w (fst kb) i)
                  (Eag.buckets self)))
        (seq 0 n).
Proof.
  intros Hnan. unfold row_sums. cbn [df_index df_mask_set Spec.selection].
  fold n. apply map_ext. intros i.
  rewrite (df_row_mask_selection (fluxes w) _ test i Hnan).
  rewrite column_names_buckets, map_map. unfold Spec.flux_vertical.
  f_equal. f_equal. apply filter_all.
Qed.

Lemma paved_or_unpaved_types (b : Bucket) :
  existsb (String.eqb (bucket_name b)) ["Verhard"; "Onverhard"]
  = Spec.paved_or_unpaved b.
Proof. unfold Spec.paved_or_unpaved. cbn [existsb]. now rewrite orb_false_r. Qed.

(** The two columns, row by row, as sums that leave NaN out. *)
Lemma aggregate_fluxes_exchange (fl : DataFrame) :
  Eag.aggregate_fluxes self = Ok fl -> Eag.water self = Some w ->
  df_index fl = df_index (fluxes w)
  /\ df_getcol fl "uitspoeling"
     = Ok (map (fun i =>
                  nansum
                    (map (fun kb => Spec.max0 (Spec.flux_vertical w (fst kb) i))
                         (filter (fun kb => Spec.paved_or_unpaved (snd kb))
                                 (Eag.buckets self))))
               (seq 0 n))
  /\ df_getcol fl "intrek"
     = Ok (map (fun i =>
                  nansum
                    (map (fun kb => Spec.min0 (Spec.flux_vertical w (fst kb) i))
                         (Eag.buckets self)))
               (seq 0 n)).
Proof.
  intros Hfl Hw.
  destruct (aggregate_fluxes_inv self fl Hfl)
    as (w' & Hw' & Hix & _ & _ & [Hu _] & [Hi _] & _).
  rewrite Hw in Hw'. injection Hw' as <-.
  split; [exact Hix|]. split.
  - rewrite Hu. f_equal. rewrite (masked_rows _ ltb0 eq_refl).
    apply map_ext. intros i. f_equal. f_equal.
    apply filter_ext. intros kb. apply paved_or_unpaved_types.
  - rewrite Hi. f_equal. apply (masked_rows_all gtb0 eq_refl).
Qed.

Lemma known_max0 (bs : list (Z * Bucket)) (i : nat) :
  (forall kb, In kb bs -> isnan (Spec.flux_vertical w (fst kb) i) = false) ->
  Forall (fun x => isnan x = false)
         (map (fun kb => Spec.max0 (Spec.flux_vertical w (fst kb) i)) bs).
Proof.
  intros H. apply Forall_forall. intros x Hx. apply in_map_iff in Hx.
  destruct Hx as (kb & <- & Hkb). apply max0_known. now apply H.
Qed.

Lemma known_min0 (bs : list (Z * Bucket)) (i : nat) :
  (forall kb, In kb bs -> isnan (Spec.flux_vertical w (fst kb) i) = false) ->
  Forall (fun x => isnan x = false)
         (map (fun kb => Spec.min0 (Spec.flux_vertical w (fst kb) i)) bs).
Proof.
  intros H. apply Forall_forall. intros x Hx. apply in_map_iff in Hx.
  destruct Hx as (kb & <- & Hkb). apply min0_known. now apply H.
Qed.

(** ... and as the sums of the specification, when no value is missing. *)
Lemma aggregate_fluxes_exchange_known (fl : DataFrame) :
  Eag.aggregate_fluxes self = Ok fl -> Eag.water self = Some w ->
  Spec.exchange_known (Eag.buckets self) w ->
  df_getcol fl "uitspoeling"
  = Ok (map (Spec.leaching (Eag.buckets self) w) (seq 0 n))
  /\ df_getcol fl "intrek"
     = Ok (map (Spec.infiltration (Eag.buckets self) w) (seq 0 n)).
Proof.
  intros Hfl Hw Hknown.
  destruct (aggregate_fluxes_exchange fl Hfl Hw) as (_ & Hu & Hi).
  split.
  - rewrite Hu. f_equal. apply map_ext_in. intros i Hi'.
    apply in_seq in Hi'. unfold Spec.leaching. apply nansum_sum.
    apply known_max0. intros kb Hkb. apply filter_In in Hkb.
    apply Hknown; [tauto | unfold n in Hi'; lia].
  - rewrite Hi. f_equal. apply map_ext_in. intros i Hi'.
    apply in_seq in Hi'. unfold Spec.infiltration. apply nansum_sum.
    apply known_min0. intros kb Hkb.
    apply Hknown; [exact Hkb | unfold n in Hi'; lia].
Qed.
End ExchangeFacts.

Lemma no_bucket_rows (self : Eag.t) (w : Water) (types : list string) :
  NoDup (od_keys (Eag.buckets self)) ->
  (forall kb, In kb (Eag.buckets self) ->
              existsb (String.eqb (bucket_name (snd kb))) types = false) ->
  row_sums (Spec.selection (fluxes w)
              (Eag.column_names self "q_oa_" (Eag.bucket_named self types)))
  = repeat zero (List.length (df_index (fluxes w))).
Proof.
  intros Hnd Hnone. rewrite column_names_buckets.
  assert (Hf : filter (fun kb => Eag.bucket_named self types (fst kb))
                      (Eag.buckets self) = []).
  { rewrite (filter_ext_in _ (fun _ => false)).
    - apply filter_none.
    - intros kb Hkb. rewrite bucket_named_bucket by assumption.
      now apply Hnone. }
  rewrite Hf. unfold row_sums. cbn [map Spec.selection df_index].
  rewrite <- (zeros_seq zero _ 0). apply map_ext. reflexivity.
Qed.

(** X22.  For a unit whose water has, with the column q_oa_2, the
    columns of the water and of every bucket, with a value for every
    vertical exchange, [aggregate_fluxes] returns a table over
    the time index of the water in which, at every time step,
    "uitspoeling" is the sum over the buckets of type Verhard or
    Onverhard of their q_ui with the negative values replaced by zero,
    and "intrek" the sum over all buckets of their q_ui with the
    positive values replaced by zero; a category for which the unit has
    no bucket is zero at every time step, not an error. *)
Theorem aggregate_fluxes_leaching_infiltration :
  forall (self : Eag.t) (w : Water),
    Eag.water self = Some w ->
    NoDup (od_keys (Eag.buckets self)) ->
    Spec.columns_present (Eag.buckets self) w ->
    Spec.exchange_known (Eag.buckets self) w ->
    let n := List.length (df_index (fluxes w)) in
    exists fl,
      Eag.aggregate_fluxes self = Ok fl
      /\ df_index fl = df_index (fluxes w)
      /\ df_getcol fl "uitspoeling"
         = Ok (map (Spec.leaching (Eag.buckets self) w) (seq 0 n))
      /\ df_getcol fl "intrek"
         = Ok (map (Spec.infiltration (Eag.buckets self) w) (seq 0 n))
      /\ ((forall kb, In kb (Eag.buckets self) ->
                      Spec.paved_or_unpaved (snd kb) = false) ->
          df_getcol fl "uitspoeling" = Ok (repeat zero n))
      /\ (Eag.buckets self = [] -> df_getcol fl "intrek" = Ok (repeat zero n))
      /\ ((forall kb, In kb (Eag.buckets self) ->
                      bucket_name (snd kb) <> "Verhard") ->
          df_getcol fl "verhard" = Ok (repeat zero n))
      /\ ((forall kb, In kb (Eag.buckets self) ->
                      bucket_name (snd kb) <> "Onverhard") ->
          df_getcol fl "afstroming" = Ok (repeat zero n)).
Proof.
  intros self w Hw Hnd Hcols Hknown n.
  destruct (aggregate_fluxes_ok self w Hw Hcols) as [fl Hfl].
  exists fl. split; [exact Hfl|].
  destruct (aggregate_fluxes_exchange self w Hnd fl Hfl Hw) as (Hix & _ & _).
  destruct (aggregate_fluxes_exchange_known self w Hnd fl Hfl Hw Hknown)
    as (Hu & Hi).
  destruct (aggregate_fluxes_inv self fl Hfl)
    as (w' & Hw' & _ & _ & [Hv _] & _ & _ & [Ha _] & _).
  rewrite Hw in Hw'. injection Hw' as <-.
  split; [exact Hix|]. split; [exact Hu|]. split; [exact Hi|].
  split; [|split; [|split]].
  - intros Hnone. rewrite Hu. f_equal. fold n.
    rewrite <- (zeros_seq zero n 0). apply map_ext. intros i.
    unfold Spec.leaching.
    rewrite (filter_ext_in _ (fun _ => false)) by exact Hnone.
    now rewrite filter_none.
  - intros Hnil. rewrite Hi. f_equal. fold n.
    rewrite <- (zeros_seq zero n 0). apply map_ext. intros i.
    unfold Spec.infiltration. now rewrite Hnil.
  - intros Hnone. rewrite Hv. f_equal. apply no_bucket_rows; [exact Hnd|].
    intros kb Hkb. cbn [existsb]. rewrite orb_false_r.
    apply String.eqb_neq. now apply Hnone.
  - intros Hnone. rewrite Ha. f_equal. apply no_bucket_rows; [exact Hnd|].
    intros kb Hkb. cbn [existsb]. rewrite orb_false_r.
    apply String.eqb_neq. now apply Hnone.
Qed.

Lemma columns_present_of_unit (bs : list (Z * Bucket)) (w : Water) :
  Spec.columns_of_unit bs w ->
  In "q_oa_2" (map fst (df_columns (fluxes w))) ->
  Spec.columns_present bs w.
Proof.
  intros Hown H2 n Hn.
  destruct (string_dec n "q_oa_2") as [->|Hne]; [exact H2|].
  apply Hown. apply in_app_or in Hn. apply in_or_app.
  destruct Hn as [Hn|Hn]; [left | now right].
  cbn [In] in Hn |- *. intuition congruence.
Qed.

(** C2.  [aggregate_fluxes] reads the column q_oa_2 of the fluxes of the
    water, whatever the buckets of the unit are.  For a unit whose water
    has the columns of the water itself and of every bucket of the unit,
    the method returns when the fluxes have a column q_oa_2 and raises
    KeyError when they have none, as for a unit without a bucket 2: the
    columns "uitspoeling" and "intrek" are then not computed, and a
    category for which the unit has no bucket is an error and not a
    column of zeros. *)
Theorem aggregate_fluxes_needs_q_oa_2 :
  forall (self : Eag.t) (w : Water),
    Eag.water self = Some w ->
    Spec.columns_of_unit (Eag.buckets self) w ->
    (In "q_oa_2" (map fst (df_columns (fluxes w))) ->
     exists fl, Eag.aggregate_fluxes self = Ok fl)
    /\ (~ In "q_oa_2" (map fst (df_columns (fluxes w))) ->
        Eag.aggregate_fluxes self = Raise KeyError).
Proof.
  intros self w Hw Hown. split.
  - intros H2. apply (aggregate_fluxes_ok self w Hw).
    now apply columns_present_of_unit.
  - intros Hnot. unfold Eag.aggregate_fluxes. rewrite Hw.
    cbn [of_option rbind].
    destruct (df_loc_cols_cases (fluxes w) (od_keys Eag.d)) as [Hall|[_ He]].
    + exfalso. apply Hnot. apply Hall. cbn. auto 10.
    + now rewrite He.
Qed.

Lemma unit_single_columns :
  Spec.columns_of_unit
    (Eag.buckets Examples.unit_single)
    (Examples.the_water 110 100 Examples.single_fluxes).
Proof.
  intros c Hc. cbn in Hc. cbn.
  repeat (destruct Hc as [<-|Hc]; [auto 20|]). contradiction.
Qed.

Lemma aggregate_fluxes_needs_q_oa_2_witness :
  Spec.columns_of_unit (Eag.buckets Examples.unit_single)
                       (Examples.the_water 110 100 Examples.single_fluxes)
  /\ filter (Spec.of_type "Onverhard") (Eag.buckets Examples.unit_single) = []
  /\ Eag.aggregate_fluxes Examples.unit_single = Raise KeyError.
Proof.
  split; [exact unit_single_columns|]. split; [reflexivity|].
  destruct (aggregate_fluxes_needs_q_oa_2
              Examples.unit_single
              (Examples.the_water 110 100 Examples.single_fluxes)
              eq_refl unit_single_columns) as [_ H].
  apply H. cbn. intuition discriminate.
Defined.

Lemma unit_wet_columns_present :
  Spec.columns_present
    (Eag.buckets Examples.unit_wet)
    (Examples.the_water 110 100 (Examples.water_fluxes 10 5 (-7) 0)).
Proof.
  intros c Hc. cbn in Hc. cbn.
  repeat (destruct Hc as [<-|Hc]; [auto 20|]). contradiction.
Qed.

Lemma unit_wet_exchange_finite :
  Spec.exchange_finite
    (Eag.buckets Examples.unit_wet)
    (Examples.the_water 110 100 (Examples.water_fluxes 10 5 (-7) 0)).
Proof.
  intros kb i Hkb Hi. cbn in Hi.
  destruct i as [|[|i]]; [| |lia];
    cbn in Hkb; destruct Hkb as [<-|[<-|[]]]; reflexivity.
Qed.

Lemma exchange_finite_known (bs : list (Z * Bucket)) (w : Water) :
  Spec.exchange_finite bs w -> Spec.exchange_known bs w.
Proof.
  intros H kb i Hkb Hi. specialize (H kb i Hkb Hi).
  now destruct (Spec.flux_vertical w (fst kb) i).
Qed.

Lemma aggregate_fluxes_leaching_infiltration_witness :
  exists fl,
    Eag.aggregate_fluxes Examples.unit_wet = Ok fl
    /\ df_getcol fl "uitspoeling" = Ok [Examples.q 5; Examples.q 0]
    /\ df_getcol fl "intrek" = Ok [Examples.q (-7); Examples.q 0].
Proof.
  destruct (aggregate_fluxes_leaching_infiltration
              Examples.unit_wet
              (Examples.the_water 110 100 (Examples.water_fluxes 10 5 (-7) 0)))
    as (fl & Hfl & _ & Hu & Hi & _).
  - reflexivity.
  - cbn. repeat constructor; cbn; intuition discriminate.
  - exact unit_wet_columns_present.
  - apply exchange_finite_known. exact unit_wet_exchange_finite.
  - exists fl. split; [exact Hfl|]. split; [exact Hu | exact Hi].
Defined.

(** ** The signs of leaching and infiltration *)

Lemma not_negative_ltb0 (q : Q) : (0 <= q)%Q -> ltb0 (Fin q) = false.
Proof.
  intros H. unfold ltb0, sgn. destruct (q ?= 0)%Q eqn:E; try reflexivity.
  apply Qlt_alt in E. lra.
Qed.

Lemma not_positive_gtb0 (q : Q) : (q <= 0)%Q -> gtb0 (Fin q) = false.
Proof.
  intros H. unfold gtb0, sgn. destruct (q ?= 0)%Q eqn:E; try reflexivity.
  apply Qgt_alt in E. lra.
Qed.

Section SignFacts.
Variables (w : Water) (i : nat) (P : Z * Bucket -> bool).

Let v (kb : Z * Bucket) : num := Spec.flux_vertical w (fst kb) i.

Lemma finite_parts (bs : list (Z * Bucket)) (f : num -> num) :
  (forall x, is_finite x = true -> is_finite (f x) = true) ->
  (forall kb, In kb bs -> is_finite (v kb) = true) ->
  Forall (fun x => is_finite x = true) (map (fun kb => f (v kb)) bs).
Proof.
  intros Hf Hv. apply Forall_forall. intros x Hx. apply in_map_iff in Hx.
  destruct Hx as (kb & <- & Hkb). apply Hf. now apply Hv.
Qed.

Lemma max0_finite (x : num) : is_finite x = true -> is_finite (Spec.max0 x) = true.
Proof. unfold Spec.max0. now destruct (ltb0 x). Qed.

Lemma min0_finite (x : num) : is_finite x = true -> is_finite (Spec.min0 x) = true.
Proof. unfold Spec.min0. now destruct (gtb0 x). Qed.

Lemma abs_finite (x : num) : is_finite x = true -> is_finite (abs x) = true.
Proof. now destruct x. Qed.

(** The rational sums of the parts, over a list of buckets. *)
Lemma Qsum_parts (bs : list (Z * Bucket)) :
  (forall kb, In kb bs -> is_finite (v kb) = true) ->
  (Qsum (map (fun kb => Spec.max0 (v kb)) (filter P bs))
   - Qsum (map (fun kb => Spec.min0 (v kb)) bs)
   == Qsum (map (fun kb => abs (v kb)) (filter P bs))
      - Qsum (map (fun kb => Spec.min0 (v kb))
                  (filter (fun kb => negb (P kb)) bs)))%Q
  /\ (0 <= Qsum (map (fun kb => Spec.max0 (v kb)) (filter P bs)))%Q
  /\ (Qsum (map (fun kb => Spec.min0 (v kb)) bs) <= 0)%Q.
Proof.
  induction bs as [|kb bs IH]; intros Hfin.
  - cbn. repeat split; lra.
  - destruct IH as (IH1 & IH2 & IH3).
    { intros kb' Hkb'. apply Hfin. now right. }
    assert (Hk : is_finite (v kb) = true) by (apply Hfin; now left).
    destruct (v kb) as [a| | |] eqn:Ev; try discriminate.
    destruct (max0_min0_finite a) as (p & n & Hp & Hn & Hp0 & Hn0 & Habs & _).
    cbn [filter negb]. destruct (P kb); cbn [negb map Qsum fold_right];
      rewrite ?Ev, ?Hp, ?Hn; cbn [to_Q abs];
      fold (Qsum (map (fun kb => Spec.max0 (v kb)) (filter P bs)));
      fold (Qsum (map (fun kb => Spec.min0 (v kb)) bs));
      fold (Qsum (map (fun kb => abs (v kb)) (filter P bs)));
      fold (Qsum (map (fun kb => Spec.min0 (v kb))
                      (filter (fun kb => negb (P kb)) bs)));
      repeat split; lra.
Qed.
End SignFacts.

(** Leaching and infiltration of finite exchanges, at one row. *)
Lemma leaching_infiltration_values (bs : list (Z * Bucket)) (w : Water)
    (i : nat) :
  (forall kb, In kb bs -> is_finite (Spec.flux_vertical w (fst kb) i) = true) ->
  exists l m a b : Q,
    Spec.leaching bs w i = Fin l
    /\ Spec.infiltration bs w i = Fin m
    /\ Spec.magnitude (filter (fun kb => Spec.paved_or_unpaved (snd kb)) bs)
                      w i = Fin a
    /\ Spec.infiltration
         (filter (fun kb => negb (Spec.paved_or_unpaved (snd kb))) bs) w i
       = Fin b
    /\ (0 <= l)%Q /\ (m <= 0)%Q /\ (l - m == a - b)%Q.
Proof.
  intros Hfin.
  set (P := fun kb : Z * Bucket => Spec.paved_or_unpaved (snd kb)).
  assert (HfinP : forall kb, In kb (filter P bs) ->
                   is_finite (Spec.flux_vertical w (fst kb) i) = true).
  { intros kb Hkb. apply filter_In in Hkb. now apply Hfin. }
  assert (HfinN : forall kb, In kb (filter (fun kb => negb (P kb)) bs) ->
                   is_finite (Spec.flux_vertical w (fst kb) i) = true).
  { intros kb Hkb. apply filter_In in Hkb. now apply Hfin. }
  destruct (sum_finite _ (finite_parts w i (filter P bs) Spec.max0
                                       max0_finite HfinP))
    as (l & Hl & Hlq).
  destruct (sum_finite _ (finite_parts w i bs Spec.min0 min0_finite Hfin))
    as (m & Hm & Hmq).
  destruct (sum_finite _ (finite_parts w i (filter P bs) abs abs_finite HfinP))
    as (a & Ha & Haq).
  destruct (sum_finite _ (finite_parts w i (filter (fun kb => negb (P kb)) bs)
                                       Spec.min0 min0_finite HfinN))
    as (b & Hb & Hbq).
  destruct (Qsum_parts w i P bs Hfin) as (H1 & H2 & H3).
  exists l, m, a, b.
  split; [exact Hl|]. split; [exact Hm|]. split; [exact Ha|].
  split; [exact Hb|]. repeat split; lra.
Qed.

Lemma nth_map_seq {A} (f : nat -> A) (n i : nat) (d : A) :
  (i < n)%nat -> nth i (map f (seq 0 n)) d = f i.
Proof.
  intros Hi. rewrite (nth_indep _ d (f 0%nat)) by now rewrite length_map, length_seq.
  rewrite (map_nth f (seq 0 n) 0%nat i). now rewrite seq_nth.
Qed.

(** C9 as stated fails: a unit with one bucket of type Drain whose
    vertical exchange is 5 at the first time step.  Leaching is 0 there
    (a drain is not selected), infiltration is 0, and their difference,
    0, is not the total magnitude of the vertical exchange, 5. *)
Lemma drain_exchange_not_in_leaching :
  exists fl,
    Eag.aggregate_fluxes Examples.unit_drain = Ok fl
    /\ Spec.cell fl "uitspoeling" 0 = Examples.q 0
    /\ Spec.cell fl "intrek" 0 = Examples.q 0
    /\ Spec.magnitude (Eag.buckets Examples.unit_drain)
                      (Examples.the_water 110 100
                         (Examples.water_fluxes 10 0 0 5)) 0
       = Fin (Qabs (inject_Z 5))
    /\ ~ (Spec.cell fl "uitspoeling" 0 - Spec.cell fl "intrek" 0
          == Spec.magnitude (Eag.buckets Examples.unit_drain)
                            (Examples.the_water 110 100
                               (Examples.water_fluxes 10 0 0 5)) 0)%num.
Proof.
  eexists. split; [vm_compute; reflexivity|].
  split; [reflexivity|]. split; [reflexivity|]. split; [reflexivity|].
  vm_compute. discriminate.
Qed.

(** C9, as the code has it.  Where the vertical exchanges are finite, at
    every time step: leaching is the sum of the non-negative parts of
    the exchanges of the buckets of type Verhard or Onverhard, and is
    not negative; infiltration is the sum of the non-positive parts of
    the exchanges of all buckets, and is not positive; and leaching
    minus infiltration is the total magnitude of the exchange of the
    buckets of type Verhard or Onverhard minus the infiltration of the
    other buckets.  It is the total magnitude of the vertical exchange
    when every bucket is of type Verhard or Onverhard. *)
Theorem leaching_minus_infiltration :
  forall (self : Eag.t) (w : Water),
    Eag.water self = Some w ->
    NoDup (od_keys (Eag.buckets self)) ->
    Spec.columns_present (Eag.buckets self) w ->
    Spec.exchange_finite (Eag.buckets self) w ->
    exists fl,
      Eag.aggregate_fluxes self = Ok fl
      /\ (forall x, ltb0 (Spec.max0 x) = false)
      /\ (forall x, gtb0 (Spec.min0 x) = false)
      /\ forall i, (i < List.length (df_index (fluxes w)))%nat ->
           let L := Spec.cell fl "uitspoeling" i in
           let I := Spec.cell fl "intrek" i in
           L = Spec.leaching (Eag.buckets self) w i
           /\ I = Spec.infiltration (Eag.buckets self) w i
           /\ ltb0 L = false
           /\ gtb0 I = false
           /\ (L - I
               == Spec.magnitude
                    (filter (fun kb => Spec.paved_or_unpaved (snd kb))
                            (Eag.buckets self)) w i
                  - Spec.infiltration
                      (filter (fun kb => negb (Spec.paved_or_unpaved (snd kb)))
                              (Eag.buckets self)) w i)%num
           /\ ((forall kb, In kb (Eag.buckets self) ->
                           Spec.paved_or_unpaved (snd kb) = true) ->
               (L - I == Spec.magnitude (Eag.buckets self) w i)%num).
Proof.
  intros self w Hw Hnd Hcols Hfin.
  destruct (aggregate_fluxes_ok self w Hw Hcols) as [fl Hfl].
  exists fl. split; [exact Hfl|].
  split; [exact max0_not_negative|]. split; [exact min0_not_positive|].
  destruct (aggregate_fluxes_exchange_known
              self w Hnd fl Hfl Hw (exchange_finite_known _ _ Hfin))
    as (Hu & Hi).
  intros i Hlt. cbv zeta.
  assert (HL : Spec.cell fl "uitspoeling" i
               = Spec.leaching (Eag.buckets self) w i).
  { unfold Spec.cell, Spec.column. rewrite Hu. now apply nth_map_seq. }
  assert (HI : Spec.cell fl "intrek" i
               = Spec.infiltration (Eag.buckets self) w i).
  { unfold Spec.cell, Spec.column. rewrite Hi. now apply nth_map_seq. }
  rewrite HL, HI.
  destruct (leaching_infiltration_values (Eag.buckets self) w i)
    as (l & m & a & b & Hl & Hm & Ha & Hb & Hl0 & Hm0 & Hlm).
  { intros kb Hkb. now apply Hfin. }
  split; [reflexivity|]. split; [reflexivity|].
  rewrite Hl, Hm, Ha, Hb.
  split; [now apply not_negative_ltb0|].
  split; [now apply not_positive_gtb0|].
  split.
  - cbn [sub add opp eqv]. lra.
  - intros Hall.
    assert (Hall' : filter (fun kb => Spec.paved_or_unpaved (snd kb))
                           (Eag.buckets self) = Eag.buckets self).
    { rewrite (filter_ext_in _ (fun _ => true)) by exact Hall.
      apply filter_all. }
    assert (Hnone : filter (fun kb => negb (Spec.paved_or_unpaved (snd kb)))
                           (Eag.buckets self) = []).
    { rewrite (filter_ext_in _ (fun _ => false)).
      - apply filter_none.
      - intros kb Hkb. now rewrite Hall. }
    rewrite Hall' in Ha. rewrite Hnone in Hb. rewrite Ha.
    cbn in Hb. injection Hb as <-.
    cbn [sub add opp eqv]. unfold inject_Z in Hlm. lra.
Qed.

Lemma leaching_minus_infiltration_witness :
  exists fl,
    Eag.aggregate_fluxes Examples.unit_wet = Ok fl
    /\ (Spec.cell fl "uitspoeling" 0 - Spec.cell fl "intrek" 0
        == Spec.magnitude
             (Eag.buckets Examples.unit_wet)
             (Examples.the_water 110 100 (Examples.water_fluxes 10 5 (-7) 0))
             0)%num.
Proof.
  destruct (leaching_minus_infiltration
              Examples.unit_wet
              (Examples.the_water 110 100 (Examples.water_fluxes 10 5 (-7) 0)))
    as (fl & Hfl & _ & _ & H).
  - reflexivity.
  - cbn. repeat constructor; cbn; intuition discriminate.
  - exact unit_wet_columns_present.
  - exact unit_wet_exchange_finite.
  - exists fl. split; [exact Hfl|].
    destruct (H 0%nat) as (_ & _ & _ & _ & _ & Hall).
    + cbn. lia.
    + apply Hall. intros kb Hkb. cbn in Hkb.
      destruct Hkb as [<-|[<-|[]]]; reflexivity.
Defined.

(** ** The chloride concentration *)

(** *** The parameters hTarget and hBottom *)

Lemma parameter_value_first (self : Eag.t) (code : string)
    (r : label * ParamRow) (rest : list (label * ParamRow)) :
  has_column (Eag.parameters self) "Code" = true ->
  has_column (Eag.parameters self) "Waarde" = true ->
  Spec.rows_with_code (Eag.parameters self) code = r :: rest ->
  Eag.parameter_value self code = Ok (Waarde (snd r)).
Proof.
  intros Hc Hw Hrows. unfold Eag.parameter_value.
  rewrite (pt_column_ok _ _ _ Hc). cbn [rbind].
  set (mask := map _ _).
  assert (Hm : pt_column (Eag.parameters self) "Code"
                         (fun r => String.eqb (Code r) code) = Ok mask)
    by exact (pt_column_ok _ "Code" (fun r => String.eqb (Code r) code) Hc).
  pose proof (pt_loc_mask_rows (Eag.parameters self) "Code" Code
                               (fun c => String.eqb c code) mask Hm) as Hsel.
  cbv beta in Hsel. unfold Spec.rows_with_code in Hrows.
  rewrite Hrows in Hsel.
  assert (Hw' : has_column (pt_loc_mask (Eag.parameters self) mask) "Waarde"
                = true) by exact Hw.
  rewrite (pt_column_ok _ _ _ Hw'). cbn [rbind]. rewrite Hsel.
  destruct r as [l row]. reflexivity.
Qed.


(** *** Rows of the aggregated fluxes *)

Lemma ix_repeated_nodup (t : time) (ix : list time) :
  NoDup ix -> ix_repeated t ix = false.
Proof.
  intros Hnd. unfold ix_repeated. apply Nat.ltb_ge.
  induction Hnd as [|x ix Hnot Hnd IH]; [cbn; lia|].
  cbn [filter]. destruct (t =? x) eqn:E; [|exact IH].
  apply Z.eqb_eq in E. subst x.
  assert (Hnone : filter (Z.eqb t) ix = []).
  { clear - Hnot. induction ix as [|y ix IH]; [reflexivity|].
    cbn [filter]. destruct (t =? y) eqn:E.
    - apply Z.eqb_eq in E. subst. exfalso. apply Hnot. now left.
    - apply IH. intros H. apply Hnot. now right. }
  rewrite Hnone. cbn. lia.
Qed.

Lemma df_loc_row_ok (df : DataFrame) (t : time) (i : nat)
    (names : list string) :
  index_of t (df_index df) = Some i ->
  (forall c, In c names -> In c (map fst (df_columns df))) ->
  df_loc_row df t names = Ok (map (fun c => Spec.cell df c i) names).
Proof.
  intros Hi Hin. unfold df_loc_row. rewrite Hi. cbn [of_option rbind].
  induction names as [|c names IH]; [reflexivity|].
  cbn [rmap map]. rewrite df_getcol_column by (apply Hin; now left).
  cbn [rbind]. rewrite IH; [reflexivity|].
  intros c' Hc'. apply Hin. now right.
Qed.

Lemma populated_cell (fl : DataFrame) (c : string) (i : nat) :
  Spec.populated fl = true ->
  In c (map fst (df_columns fl)) -> (i < List.length (df_index fl))%nat ->
  isnan (Spec.cell fl c i) = false.
Proof.
  intros Hpop Hc Hi. unfold Spec.populated in Hpop.
  rewrite forallb_forall in Hpop.
  apply od_get_in_keys in Hc. destruct Hc as [col Hcol].
  unfold Spec.cell, Spec.column, df_getcol. rewrite Hcol. cbn [of_option].
  apply (od_get_some_in String.eqb Seqb_eq') in Hcol.
  specialize (Hpop (c, col) Hcol). cbn [snd] in Hpop.
  apply andb_true_iff in Hpop. destruct Hpop as [Hlen Hnan].
  apply Nat.eqb_eq in Hlen. rewrite forallb_forall in Hnan.
  apply negb_true_iff. apply Hnan. apply nth_In. lia.
Qed.

Lemma mul_concentration_known (x : num) (c : Z) :
  (0 < c) -> isnan x = false -> isnan (x * of_Z c)%num = false.
Proof.
  intros Hc Hx. destruct x as [a| | |]; try reflexivity; try discriminate.
  - cbn [mul of_Z]. unfold sgn, inject_Z.
    destruct c; try lia. reflexivity.
  - cbn [mul of_Z]. unfold sgn, inject_Z.
    destruct c; try lia. reflexivity.
Qed.

Section ChlorideFacts.
Variables (fl : DataFrame) (w : Water).
Hypothesis has_categories :
  forall c, In c Spec.categories -> In c (map fst (df_columns fl)).

Let V_out : Series time num :=
  df_sum_rows (Spec.selection fl ["intrek"; "uitlaat"; "wegzijging"]).

Lemma V_out_ok :
  df_loc_cols fl ["intrek"; "uitlaat"; "wegzijging"]
  = Ok (Spec.selection fl ["intrek"; "uitlaat"; "wegzijging"]).
Proof.
  apply df_loc_cols_ok. intros c Hc. apply has_categories.
  cbn in Hc. cbn. intuition.
Qed.

Lemma V_out_loc (t : time) (i : nat) :
  index_of t (df_index fl) = Some i ->
  sr_loc V_out t
  = Ok (nansum [Spec.cell fl "intrek" i; Spec.cell fl "uitlaat" i;
                Spec.cell fl "wegzijging" i]).
Proof.
  intros Hi. unfold V_out, df_sum_rows.
  change (df_index (Spec.selection fl ["intrek"; "uitlaat"; "wegzijging"]))
    with (df_index fl).
  rewrite (sr_loc_combine _ _ t i Hi)
    by (rewrite row_sums_length; reflexivity).
  unfold row_sums.
  change (df_index (Spec.selection fl ["intrek"; "uitlaat"; "wegzijging"]))
    with (df_index fl).
  rewrite nth_map_seq by (now apply index_of_lt with t).
  now rewrite df_row_selection.
Qed.

(** One turn of the loop, at a label of the index for which there is a
    storage. *)
Lemma chloride_step_ok (st : Eag.loop_state) (t : time) (i : nat) (s : num) :
  index_of t (df_index fl) = Some i ->
  ix_repeated t (df_index fl) = false ->
  sr_loc (storage w) t = Ok s ->
  Eag.chloride_step fl V_out w st t
  = Ok (let M :=
          (Eag.loop_M st
           + nansum (map (fun xc => (fst xc * snd xc)%num)
                         (combine (map (fun c => Spec.cell fl c i)
                                       (sr_index Eag.C_params))
                                  (sr_values Eag.C_params)))
           + nansum [Spec.cell fl "intrek" i; Spec.cell fl "uitlaat" i;
                     Spec.cell fl "wegzijging" i] * Eag.loop_C_out st)%num in
        Eag.mkLoop M (M / s)%num (sr_set (Eag.loop_Mass st) t M)).
Proof.
  intros Hi Hone Hs. unfold Eag.chloride_step.
  rewrite (df_loc_row_ok fl t i _ Hi).
  - cbn [rbind]. rewrite (V_out_loc t i Hi). cbn [rbind]. rewrite Hone.
    cbn [rbind]. rewrite Hs. reflexivity.
  - intros c Hc. apply has_categories. cbn in Hc. cbn. intuition.
Qed.

(** The loop returns when no label of the index is there twice and the
    storage has the labels of the index. *)
Lemma chloride_loop_ok (ts : list time) (st : Eag.loop_state) :
  NoDup (df_index fl) ->
  (forall t, In t ts -> In t (df_index fl) /\ In t (sr_index (storage w))) ->
  exists st',
    Eag.chloride_loop fl V_out w st ts = Ok st'
    /\ sr_index (Eag.loop_Mass st') = sr_index (Eag.loop_Mass st).
Proof.
  intros Hnd. revert st. induction ts as [|t ts IH]; intros st Hts.
  - exists st. now split.
  - destruct (Hts t (or_introl eq_refl)) as [Hix Hst].
    destruct (index_of_some t _ Hix) as (i & Hi & _).
    destruct (sr_loc_in _ _ Hst) as [s Hs].
    cbn [Eag.chloride_loop].
    rewrite (chloride_step_ok st t i s Hi (ix_repeated_nodup t _ Hnd) Hs).
    cbn [rbind]. cbv zeta.
    match goal with
    | |- context [Eag.chloride_loop _ _ _ ?st1 ts] =>
        destruct (IH st1) as (st' & Hst' & Hlab)
    end.
    { intros t' Ht'. apply Hts. now right. }
    exists st'. split; [exact Hst'|]. rewrite Hlab. cbn [Eag.loop_Mass].
    unfold sr_index, sr_set. rewrite map_map. apply map_ext.
    intros [l v]. cbn [fst]. now destruct (l =? t).
Qed.

(** With a populated table the turn computes the step of the
    recurrence. *)
Lemma chloride_step_spec (st : Eag.loop_state) (t : time) :
  Spec.populated fl = true ->
  NoDup (df_index fl) ->
  In t (df_index fl) -> In t (sr_index (storage w)) ->
  Eag.chloride_step fl V_out w st t
  = Ok (let M :=
          (Eag.loop_M st + Spec.mass_in fl t
           + Spec.outgoing_volume fl t * Eag.loop_C_out st)%num in
        Eag.mkLoop M (M / Spec.storage_at w t)%num
                   (sr_set (Eag.loop_Mass st) t M)).
Proof.
  intros Hpop Hnd Hix Hst.
  destruct (index_of_some t _ Hix) as (i & Hi & Hlt).
  destruct (sr_loc_in _ _ Hst) as [s Hs].
  rewrite (chloride_step_ok st t i s Hi (ix_repeated_nodup t _ Hnd) Hs).
  assert (Hcell : forall c, In c Spec.categories ->
                            isnan (Spec.cell fl c i) = false).
  { intros c Hc. apply populated_cell; auto. }
  unfold Spec.mass_in, Spec.outgoing_volume, Spec.storage_at, Spec.flux.
  rewrite Hi, Hs.
  rewrite nansum_sum.
  - rewrite nansum_sum; [reflexivity|].
    repeat constructor; apply Hcell; cbn; intuition.
  - cbn [Eag.C_params sr_index sr_values map combine fst snd].
    repeat constructor;
      (apply mul_concentration_known; [lia | apply Hcell; cbn; intuition]).
Qed.

End ChlorideFacts.

(** *** The loop and the recurrence *)

Lemma masses_length (fl : DataFrame) (w : Water) (ts : list time) :
  forall M C, List.length (Spec.masses fl w M C ts) = List.length ts.
Proof.
  induction ts as [|t ts IH]; intros M C; [reflexivity|].
  cbn [Spec.masses List.length]. now rewrite IH.
Qed.

Lemma chloride_loop_spec (fl : DataFrame) (w : Water) (ts : list time) :
  (forall c, In c Spec.categories -> In c (map fst (df_columns fl))) ->
  Spec.populated fl = true ->
  NoDup (df_index fl) ->
  (forall t, In t ts -> In t (df_index fl) /\ In t (sr_index (storage w))) ->
  forall M C Mass,
  exists M' C',
    Eag.chloride_loop
      fl (df_sum_rows (Spec.selection fl ["intrek"; "uitlaat"; "wegzijging"]))
      w (Eag.mkLoop M C Mass) ts
    = Ok (Eag.mkLoop M' C' (Spec.set_all ts (Spec.masses fl w M C ts) Mass)).
Proof.
  intros Hcat Hpop Hnd. induction ts as [|t ts IH]; intros Hts M C Mass.
  - exists M, C. reflexivity.
  - destruct (Hts t (or_introl eq_refl)) as [Hix Hst].
    cbn [Eag.chloride_loop].
    rewrite (chloride_step_spec fl w Hcat _ t Hpop Hnd Hix Hst).
    cbn [rbind Eag.loop_M Eag.loop_C_out Eag.loop_Mass]. cbv zeta.
    match goal with
    | |- context [Eag.chloride_loop _ _ _ (Eag.mkLoop ?M1 ?C1 ?Mass1) ts] =>
        destruct (IH (fun t' Ht' => Hts t' (or_intror Ht')) M1 C1 Mass1)
          as (M' & C' & Hloop)
    end.
    exists M', C'. rewrite Hloop. reflexivity.
Qed.

Lemma sr_set_fresh (s : Series time num) (t : time) (v : num) :
  ~ In t (sr_index s) -> sr_set s t v = s.
Proof.
  unfold sr_set, sr_index. induction s as [|[l x] s IH]; [reflexivity|].
  cbn [map fst In]. intros Hnot.
  destruct (l =? t) eqn:E.
  - apply Z.eqb_eq in E. subst. exfalso. apply Hnot. now left.
  - rewrite IH; [reflexivity|]. intros Hin. apply Hnot. now right.
Qed.

Lemma sr_set_head (s : Series time num) (t : time) (x v : num) :
  sr_set ((t, x) :: s) t v = (t, v) :: sr_set s t v.
Proof. unfold sr_set. cbn [map fst]. now rewrite Z.eqb_refl. Qed.

Lemma sr_set_app (a b : Series time num) (t : time) (v : num) :
  sr_set (a ++ b) t v = sr_set a t v ++ sr_set b t v.
Proof. unfold sr_set. apply map_app. Qed.

(** Setting the labels of an index without repetition, one after the
    other, in a Series of NaN over that index. *)
Lemma set_all_nan (ts : list time) :
  NoDup ts ->
  forall (ms : list num) (pre : Series time num),
    List.length ms = List.length ts ->
    (forall t, In t ts -> ~ In t (sr_index pre)) ->
    Spec.set_all ts ms (pre ++ sr_nan ts) = pre ++ combine ts ms.
Proof.
  unfold Spec.set_all.
  induction ts as [|t ts IH]; intros Hnd ms pre Hlen Hpre.
  - reflexivity.
  - destruct ms as [|m ms]; [discriminate|].
    inversion Hnd as [|? ? Hnot Hnd']; subst.
    cbn [combine fold_left fst snd].
    change (sr_nan (t :: ts)) with ((t, NaN) :: sr_nan ts).
    rewrite sr_set_app.
    rewrite (sr_set_fresh pre) by (apply Hpre; now left).
    rewrite sr_set_head.
    rewrite (sr_set_fresh (sr_nan ts)).
    + change (pre ++ (t, m) :: sr_nan ts)
        with (pre ++ [(t, m)] ++ sr_nan ts).
      rewrite app_assoc. rewrite IH.
      * now rewrite <- app_assoc.
      * exact Hnd'.
      * now injection Hlen.
      * intros t' Ht' Hin. unfold sr_index in Hin. rewrite map_app in Hin.
        apply in_app_or in Hin. destruct Hin as [Hin|[<-|[]]].
        -- apply (Hpre t'); [now right | exact Hin].
        -- contradiction.
    + unfold sr_index, sr_nan. rewrite map_map. cbn [fst]. now rewrite map_id.
Qed.

Lemma sr_loc_nodup (s : Series time num) (l : time) (v : num) :
  NoDup (sr_index s) -> In (l, v) s -> sr_loc s l = Ok v.
Proof.
  unfold sr_index. induction s as [|[l' v'] s IH]; [contradiction|].
  cbn [map fst sr_loc]. intros Hnd [[= -> ->]|Hin].
  - now rewrite Z.eqb_refl.
  - inversion Hnd as [|? ? Hnot Hnd']; subst.
    destruct (l' =? l) eqn:E.
    + apply Z.eqb_eq in E. subst. exfalso. apply Hnot.
      change l with (fst (l, v)). now apply in_map.
    + now apply IH.
Qed.

(** The division of two Series over one index without repetition. *)
Lemma sr_div_same_index (a b : Series time num) :
  sr_index a = sr_index b -> NoDup (sr_index b) ->
  sr_div a b
  = map (fun tm => (fst tm,
                    (snd tm / match sr_loc b (fst tm) with
                              | Ok v => v
                              | Raise _ => NaN
                              end)%num)) a.
Proof.
  intros Hix Hnd. unfold sr_div.
  assert (E : index_eqb (sr_index a) (sr_index b) = true)
    by now apply index_eqb_eq.
  rewrite E.
  assert (G : forall a' b' : Series time num,
             sr_index a' = sr_index b' ->
             (forall lv, In lv b' -> sr_loc b (fst lv) = Ok (snd lv)) ->
             map (fun xy : time * num * num =>
                    (fst (fst xy), (snd (fst xy) / snd xy)%num))
                 (combine a' (map snd b'))
             = map (fun tm => (fst tm,
                               (snd tm / match sr_loc b (fst tm) with
                                         | Ok v => v
                                         | Raise _ => NaN
                                         end)%num)) a').
  { induction a' as [|[l x] a' IH]; intros [|[l' y] b'] Hab Hb;
      try discriminate; [reflexivity|].
    cbn [sr_index map fst] in Hab. injection Hab as -> Hab.
    cbn [map combine fst snd].
    pose proof (Hb (l', y) (or_introl eq_refl)) as Hl.
    cbn [fst snd] in Hl. rewrite Hl.
    rewrite (IH b'); [reflexivity | exact Hab |].
    intros lv Hlv. apply Hb. now right. }
  unfold sr_values. apply G; [exact Hix|].
  intros [l v] Hlv. now apply sr_loc_nodup.
Qed.

(** What [calculate_chloride_concentration] computes once the aggregated
    fluxes and the two parameters are there. *)
Lemma chloride_concentration_run (self : Eag.t) (fl : DataFrame) (w : Water)
    (hTarget hBottom : num) :
  Eag.aggregate_fluxes self = Ok fl ->
  Eag.parameter_value self "hTarget" = Ok hTarget ->
  Eag.parameter_value self "hBottom" = Ok hBottom ->
  Eag.water self = Some w ->
  Eag.calculate_chloride_concentration self
  = (st <- Eag.chloride_loop
             fl (df_sum_rows
                   (Spec.selection fl ["intrek"; "uitlaat"; "wegzijging"]))
             w (Eag.mkLoop (Spec.initial_mass hTarget hBottom w) (of_Z 90)
                           (sr_nan (df_index fl)))
             (df_index fl) ;;
     Ok (sr_div (Eag.loop_Mass st) (storage w)))%result
  /\ forall c, In c Spec.categories -> In c (map fst (df_columns fl)).
Proof.
  intros Hfl HT HB Hw.
  destruct (aggregate_fluxes_inv self fl Hfl) as (w' & _ & _ & Hcat & _).
  split; [|exact Hcat].
  unfold Eag.calculate_chloride_concentration.
  rewrite Hfl. cbn [rbind]. rewrite HT. cbn [rbind]. rewrite HB.
  cbn [rbind]. rewrite Hw. cbn [of_option rbind].
  rewrite (V_out_ok fl Hcat). cbn [rbind]. reflexivity.
Qed.

(** C1.  For a unit with populated aggregated fluxes, one row for
    hTarget and one for hBottom, and a water bucket with an area and a
    storage over the time index of the fluxes (a time index has no
    label twice): [calculate_chloride_concentration] returns the Series
    [C(t) = mass(t) / storage(t)] over that index, with the masses of
    the recurrence of the specification, which starts from the mass
    [90 * ((hTarget - hBottom) * area)] and the outgoing concentration
    90. *)
Theorem chloride_concentration_recurrence :
  forall (self : Eag.t) (fl : DataFrame) (w : Water)
         (rT rB : label * ParamRow),
    Eag.aggregate_fluxes self = Ok fl ->
    Spec.populated fl = true ->
    has_column (Eag.parameters self) "Code" = true ->
    has_column (Eag.parameters self) "Waarde" = true ->
    Spec.rows_with_code (Eag.parameters self) "hTarget" = [rT] ->
    Spec.rows_with_code (Eag.parameters self) "hBottom" = [rB] ->
    Eag.water self = Some w ->
    sr_index (storage w) = df_index fl ->
    NoDup (df_index fl) ->
    Eag.calculate_chloride_concentration self
    = Ok (Spec.chloride fl w (Waarde (snd rT)) (Waarde (snd rB))).
Proof.
  intros self fl w rT rB Hfl Hpop Hc Hv HT HB Hw Hix Hnd.
  destruct (chloride_concentration_run
              self fl w (Waarde (snd rT)) (Waarde (snd rB)) Hfl
              (parameter_value_first self "hTarget" rT [] Hc Hv HT)
              (parameter_value_first self "hBottom" rB [] Hc Hv HB) Hw)
    as [Hrun Hcat].
  rewrite Hrun.
  destruct (chloride_loop_spec
              fl w (df_index fl) Hcat Hpop Hnd
              (fun t Ht => conj Ht (eq_ind_r (fun ix => In t ix) Ht Hix))
              (Spec.initial_mass (Waarde (snd rT)) (Waarde (snd rB)) w)
              (of_Z 90) (sr_nan (df_index fl)))
    as (M' & C' & Hloop).
  rewrite Hloop. cbn [rbind Eag.loop_Mass].
  set (ms := Spec.masses fl w _ _ _).
  assert (Hlen : List.length ms = List.length (df_index fl))
    by apply masses_length.
  pose proof (set_all_nan (df_index fl) Hnd ms [] Hlen
                          (fun t _ (F : In t []) => F)) as Hset.
  cbn [app] in Hset. rewrite Hset. rewrite sr_div_same_index.
  - reflexivity.
  - unfold sr_index at 1. rewrite map_fst_combine_eq by now symmetry.
    now symmetry.
  - now rewrite Hix.
Qed.

Lemma chloride_concentration_recurrence_witness :
  Eag.calculate_chloride_concentration Examples.unit_wet
  = Ok [(1, (Fin (8780 # 1) / Fin (110 # 1))%num);
        (2, (Fin (939460 # 110) / Fin (100 # 1))%num)].
Proof.
  exact (chloride_concentration_recurrence
           Examples.unit_wet Examples.aggregated_wet
           (Examples.the_water 110 100 (Examples.water_fluxes 10 5 (-7) 0))
           (LPos 0, Examples.row "hTarget" 0 0 "A")
           (LPos 1, Examples.row "hBottom" 0 (-1) "A")
           eq_refl eq_refl eq_refl eq_refl eq_refl eq_refl eq_refl eq_refl
           (NoDup_cons 1 (fun H : In 1 [2] =>
                            match H with
                            | or_introl E => Z.neq_sym _ _ (Z.lt_neq 1 2 eq_refl) E
                            | or_intror F => F
                            end)
                       (NoDup_cons 2 (fun H : In 2 [] => H) (NoDup_nil _)))).
Defined.

(** *** A storage of zero *)

Lemma ix_insert_in (t x : time) (ix : list time) :
  In x (ix_insert t ix) <-> x = t \/ In x ix.
Proof.
  induction ix as [|y ix IH]; cbn [ix_insert In].
  - intuition.
  - destruct (t <? y); [cbn [In]; intuition|].
    destruct (t =? y) eqn:E.
    + apply Z.eqb_eq in E. subst. cbn [In]. intuition.
    + cbn [In]. rewrite IH. intuition.
Qed.

Lemma ix_union_in (a b : list time) (x : time) :
  In x a -> In x (ix_union a b).
Proof.
  intros Hx. unfold ix_union.
  destruct a as [|t a]; [contradiction|].
  destruct b as [|u b]; [exact Hx|].
  assert (G : forall l, In x l -> In x (fold_right ix_insert [] l)).
  { induction l as [|y l IH]; [contradiction|].
    cbn [fold_right]. intros [->|H]; apply ix_insert_in; [now left|].
    right. now apply IH. }
  apply G. apply in_or_app. now left.
Qed.

Lemma map_combine_maps {A B C D} (h : B * C -> D) (f : A -> B) (g : A -> C)
    (l : list A) :
  map h (combine (map f l) (map g l)) = map (fun x => h (f x, g x)) l.
Proof. induction l as [|x l IH]; simpl; [reflexivity | now rewrite IH]. Qed.


(** ... and the quotient has a value at every label of the dividend. *)
Lemma sr_div_in (a b : Series time num) (t : time) :
  In t (sr_index a) -> exists c, sr_loc (sr_div a b) t = Ok c.
Proof.
  intros Ht. apply sr_loc_in. unfold sr_div.
  destruct (index_eqb (sr_index a) (sr_index b)) eqn:E.
  - apply index_eqb_eq in E.
    assert (G : forall a' b' : Series time num,
               sr_index a' = sr_index b' ->
               sr_index (map (fun xy : time * num * num =>
                                (fst (fst xy), (snd (fst xy) / snd xy)%num))
                             (combine a' (sr_values b')))
               = sr_index a').
    { unfold sr_index, sr_values.
      induction a' as [|[l x] a' IH]; intros [|[l' y] b'] Hab;
        try discriminate; [reflexivity|].
      cbn [map fst] in Hab. injection Hab as -> Hab.
      cbn [map combine fst snd]. now rewrite IH. }
    now rewrite G.
  - unfold sr_index. rewrite map_fst_combine_eq.
    + now apply ix_union_in.
    + unfold sr_reindex. now rewrite length_map, length_combine, !length_map,
        Nat.min_id.
Qed.





(** *** The parameters hTarget and hBottom *)




(* ================================================================= *)
(** * Further properties of the code *)

(** ** [aggregate_fluxes]: the other categories, the shape, the errors *)

(** The form of the table [aggregate_fluxes] returns. *)
Lemma aggregate_fluxes_form (self : Eag.t) (fl : DataFrame) (w : Water) :
  Eag.aggregate_fluxes self = Ok fl -> Eag.water self = Some w ->
  (forall c, In c (Spec.columns_read self) ->
             In c (map fst (df_columns (fluxes w))))
  /\ fl
     = df_setitem_scalar
         (df_setitem
            (df_setitem
               (df_setitem
                  (df_setitem
                     (df_rename (Spec.selection (fluxes w) (od_keys Eag.d))
                                Eag.d)
                     "verhard"
                     (df_sum_rows
                        (Spec.selection
                           (fluxes w)
                           (Eag.column_names
                              self "q_oa_"
                              (Eag.bucket_named self ["Verhard"])))))
                  "uitspoeling"
                  (df_sum_rows
                     (df_mask_set
                        ltb0 zero
                        (Spec.selection
                           (fluxes w)
                           (Eag.column_names
                              self "q_ui_"
                              (Eag.bucket_named
                                 self ["Verhard"; "Onverhard"]))))))
               "intrek"
               (df_sum_rows
                  (df_mask_set
                     gtb0 zero
                     (Spec.selection
                        (fluxes w)
                        (Eag.column_names self "q_ui_" (fun _ => true))))))
            "afstroming"
            (df_sum_rows
               (Spec.selection
                  (fluxes w)
                  (Eag.column_names self "q_oa_"
                                    (Eag.bucket_named self ["Onverhard"])))))
         "drain" zero.
Proof.
  unfold Eag.aggregate_fluxes. intros H Hw. rewrite Hw in H.
  cbn [of_option rbind] in H.
  destruct (df_loc_cols (fluxes w) (od_keys Eag.d)) as [fl0|] eqn:E0;
    [|discriminate]. cbn [rbind] in H.
  destruct (df_loc_cols (fluxes w)
              (Eag.column_names self "q_oa_"
                                (Eag.bucket_named self ["Verhard"])))
    as [q1|] eqn:E1; [|discriminate]. cbn [rbind] in H.
  destruct (df_loc_cols (fluxes w)
              (Eag.column_names self "q_ui_"
                 (Eag.bucket_named self ["Verhard"; "Onverhard"])))
    as [q2|] eqn:E2; [|discriminate]. cbn [rbind] in H.
  destruct (df_loc_cols (fluxes w)
              (Eag.column_names self "q_ui_" (fun _ => true)))
    as [q3|] eqn:E3; [|discriminate]. cbn [rbind] in H.
  destruct (df_loc_cols (fluxes w)
              (Eag.column_names self "q_oa_"
                                (Eag.bucket_named self ["Onverhard"])))
    as [q4|] eqn:E4; [|discriminate]. cbn [rbind] in H.
  apply df_loc_cols_inv in E0, E1, E2, E3, E4.
  destruct E0 as [H0 ->], E1 as [H1 ->], E2 as [H2 ->], E3 as [H3 ->],
           E4 as [H4 ->].
  split.
  - intros c Hc. unfold Spec.columns_read in Hc.
    repeat (apply in_app_or in Hc; destruct Hc as [Hc|Hc]); auto.
  - now injection H.
Qed.

(** X1.  [aggregate_fluxes] raises AttributeError for a unit without a
    water bucket and KeyError when the fluxes of the water lack one of
    the columns it reads, and returns in every other case. *)
Theorem aggregate_fluxes_errors :
  forall self : Eag.t,
    (Eag.water self = None ->
     Eag.aggregate_fluxes self = Raise AttributeError)
    /\ (forall w, Eag.water self = Some w ->
          (exists c, In c (Spec.columns_read self)
                     /\ ~ In c (map fst (df_columns (fluxes w)))) ->
          Eag.aggregate_fluxes self = Raise KeyError)
    /\ (forall w, Eag.water self = Some w ->
          (forall c, In c (Spec.columns_read self) ->
                     In c (map fst (df_columns (fluxes w)))) ->
          exists fl, Eag.aggregate_fluxes self = Ok fl).
Proof.
  intros self. split; [|split].
  - intros Hw. unfold Eag.aggregate_fluxes. now rewrite Hw.
  - intros w Hw (c & Hc & Hnot).
    destruct (Eag.aggregate_fluxes self) as [fl|e] eqn:Hfl.
    + destruct (aggregate_fluxes_form self fl w Hfl Hw) as [Hall _].
      exfalso. apply Hnot. now apply Hall.
    + unfold Eag.aggregate_fluxes in Hfl. rewrite Hw in Hfl.
      cbn [of_option rbind] in Hfl. cbv zeta in Hfl.
      repeat match type of Hfl with
             | context [df_loc_cols ?df ?names] =>
                 destruct (df_loc_cols_cases df names) as [Hin|[_ Hr]];
                 [rewrite (df_loc_cols_ok df names Hin) in Hfl;
                  cbn [rbind] in Hfl; cbv zeta in Hfl; clear Hin
                 |rewrite Hr in Hfl; cbn [rbind] in Hfl;
                  injection Hfl as <-; reflexivity]
             end.
      discriminate Hfl.
  - intros w Hw Hall. unfold Eag.aggregate_fluxes. rewrite Hw.
    cbn [of_option rbind]. unfold Spec.columns_read in Hall.
    rewrite df_loc_cols_ok by (intros n Hn; apply Hall; auto using in_or_app).
    cbn [rbind].
    rewrite df_loc_cols_ok
      by (intros n Hn; apply Hall; apply in_or_app; right;
          auto using in_or_app).
    cbn [rbind].
    rewrite df_loc_cols_ok
      by (intros n Hn; apply Hall; do 2 (apply in_or_app; right);
          auto using in_or_app).
    cbn [rbind].
    rewrite df_loc_cols_ok
      by (intros n Hn; apply Hall; do 3 (apply in_or_app; right);
          auto using in_or_app).
    cbn [rbind].
    rewrite df_loc_cols_ok
      by (intros n Hn; apply Hall; do 4 (apply in_or_app; right); exact Hn).
    cbn [rbind]. eexists. reflexivity.
Qed.

Lemma aggregate_fluxes_errors_witness :
  Eag.aggregate_fluxes Examples.unit_A' = Raise AttributeError
  /\ Eag.aggregate_fluxes
       (Eag.set_water (Some (Examples.the_water 1 1 df_empty))
                      Examples.unit_wet) = Raise KeyError.
Proof.
  destruct (aggregate_fluxes_errors Examples.unit_A') as [Hnone _].
  destruct (aggregate_fluxes_errors
              (Eag.set_water (Some (Examples.the_water 1 1 df_empty))
                             Examples.unit_wet)) as (_ & Hkey & _).
  split.
  - apply Hnone. reflexivity.
  - apply (Hkey (Examples.the_water 1 1 df_empty)); [reflexivity|].
    exists "p". split; [left; reflexivity | intros []].
Defined.

(** *** The columns and their order *)

Lemma od_set_keys_exact {V} (d : list (string * V)) (k : string) (v : V) :
  od_keys (od_set String.eqb d k v) = Spec.keys_set (od_keys d) k.
Proof.
  unfold Spec.keys_set, od_keys. induction d as [|[k' v'] d IH].
  - reflexivity.
  - cbn [od_set map fst existsb]. destruct (String.eqb k k') eqn:E.
    + reflexivity.
    + cbn [map fst orb]. rewrite IH.
      now destruct (existsb (String.eqb k) (map fst d)).
Qed.

Lemma df_setitem_keys_exact (df : DataFrame) (name : string)
    (s : Series time num) :
  map fst (df_columns (df_setitem df name s))
  = Spec.keys_set (map fst (df_columns df)) name.
Proof.
  unfold df_setitem. destruct (df_index df); cbn [df_columns].
  - change (map fst (od_set String.eqb ?d name ?v))
      with (od_keys (od_set String.eqb d name v)).
    rewrite od_set_keys_exact. unfold od_keys. now rewrite map_map.
  - apply od_set_keys_exact.
Qed.

Lemma cell_setitem_other (df q : DataFrame) (name name' : string) (i : nat) :
  name' <> name -> (i < List.length (df_index df))%nat ->
  Spec.cell (df_setitem df name (df_sum_rows q)) name' i
  = Spec.cell df name' i.
Proof.
  intros Hne Hi. unfold Spec.cell, Spec.column, df_getcol, df_setitem.
  destruct (df_index df) as [|t ix]; [cbn in Hi; lia|].
  cbn [df_columns].
  now rewrite (od_get_set_other String.eqb Seqb_eq') by congruence.
Qed.

Lemma cell_setitem_scalar_other (df : DataFrame) (name name' : string)
    (v : num) (i : nat) :
  name' <> name ->
  Spec.cell (df_setitem_scalar df name v) name' i = Spec.cell df name' i.
Proof.
  intros Hne. unfold Spec.cell, Spec.column, df_getcol, df_setitem_scalar.
  cbn [df_columns].
  now rewrite (od_get_set_other String.eqb Seqb_eq') by congruence.
Qed.

(** X2.  The table [aggregate_fluxes] returns has the index of the fluxes
    of the water and exactly the columns neerslag, verdamping, kwel,
    wegzijging, inlaat, uitlaat, verhard, uitspoeling, intrek,
    afstroming and drain, in this order; the first six are the columns
    p, e, s, w, x and q_out of the water, and drain is zero at every time
    step. *)
Theorem aggregate_fluxes_columns :
  forall (self : Eag.t) (fl : DataFrame) (w : Water),
    Eag.aggregate_fluxes self = Ok fl ->
    Eag.water self = Some w ->
    df_index fl = df_index (fluxes w)
    /\ map fst (df_columns fl) = Spec.categories
    /\ forall i, (i < List.length (df_index (fluxes w)))%nat ->
         Spec.cell fl "neerslag" i = Spec.cell (fluxes w) "p" i
         /\ Spec.cell fl "verdamping" i = Spec.cell (fluxes w) "e" i
         /\ Spec.cell fl "kwel" i = Spec.cell (fluxes w) "s" i
         /\ Spec.cell fl "wegzijging" i = Spec.cell (fluxes w) "w" i
         /\ Spec.cell fl "inlaat" i = Spec.cell (fluxes w) "x" i
         /\ Spec.cell fl "uitlaat" i = Spec.cell (fluxes w) "q_out" i
         /\ Spec.cell fl "drain" i = zero.
Proof.
  intros self fl w Hfl Hw.
  destruct (aggregate_fluxes_inv self fl Hfl)
    as (w' & Hw' & Hix & _ & _ & _ & _ & _ & [Hd _]).
  rewrite Hw in Hw'. injection Hw' as <-.
  destruct (aggregate_fluxes_form self fl w Hfl Hw) as [_ Hform].
  split; [exact Hix|]. split.
  - rewrite Hform. unfold df_setitem_scalar. cbn [df_columns].
    change (map fst (od_set String.eqb ?d "drain" ?v))
      with (od_keys (od_set String.eqb d "drain" v)).
    rewrite od_set_keys_exact. unfold od_keys.
    rewrite !df_setitem_keys_exact. reflexivity.
  - intros i Hi.
    assert (Hdirect : forall name,
               ~ In name ["verhard"; "uitspoeling"; "intrek"; "afstroming";
                          "drain"] ->
               Spec.cell fl name i
               = Spec.cell (df_rename
                              (Spec.selection (fluxes w) (od_keys Eag.d))
                              Eag.d) name i).
    { intros name Hname. rewrite Hform.
      set (fl0 := df_rename (Spec.selection (fluxes w) (od_keys Eag.d)) Eag.d).
      set (s1 := df_sum_rows _). set (fl1 := df_setitem fl0 "verhard" s1).
      set (s2 := df_sum_rows _). set (fl2 := df_setitem fl1 "uitspoeling" s2).
      set (s3 := df_sum_rows _). set (fl3 := df_setitem fl2 "intrek" s3).
      set (s4 := df_sum_rows _).
      assert (I1 : df_index fl1 = df_index (fluxes w))
        by (unfold fl1, s1; now rewrite df_setitem_rows_index).
      assert (I2 : df_index fl2 = df_index (fluxes w))
        by (unfold fl2, s2; rewrite df_setitem_rows_index;
            [exact I1 | now rewrite I1]).
      assert (I3 : df_index fl3 = df_index (fluxes w))
        by (unfold fl3, s3; rewrite df_setitem_rows_index;
            [exact I2 | now rewrite I2]).
      rewrite cell_setitem_scalar_other
        by (intros ->; apply Hname; cbn; tauto).
      unfold s4. rewrite cell_setitem_other;
        [|intros ->; apply Hname; cbn; tauto | now rewrite I3].
      unfold fl3, s3. rewrite cell_setitem_other;
        [|intros ->; apply Hname; cbn; tauto | now rewrite I2].
      unfold fl2, s2. rewrite cell_setitem_other;
        [|intros ->; apply Hname; cbn; tauto | now rewrite I1].
      unfold fl1, s1. rewrite cell_setitem_other;
        [reflexivity | intros ->; apply Hname; cbn; tauto | exact Hi]. }
    repeat split;
      try (rewrite Hdirect
             by (cbn; intros [H|[H|[H|[H|[H|[]]]]]]; discriminate H);
           reflexivity).
    unfold Spec.cell, Spec.column. rewrite Hd.
    rewrite (nth_indep _ NaN zero) by now rewrite length_map.
    rewrite (map_nth (fun _ : time => zero) _ 0%Z). reflexivity.
Qed.

Lemma aggregate_fluxes_columns_witness :
  map fst (df_columns Examples.aggregated_wet) = Spec.categories
  /\ Spec.cell Examples.aggregated_wet "neerslag" 0
     = Spec.cell (Examples.water_fluxes 10 5 (-7) 0) "p" 0.
Proof.
  destruct (aggregate_fluxes_columns
              Examples.unit_wet Examples.aggregated_wet
              (Examples.the_water 110 100 (Examples.water_fluxes 10 5 (-7) 0))
              eq_refl eq_refl) as (_ & Hkeys & Hcells).
  split; [exact Hkeys|].
  apply (Hcells 0%nat). cbn. lia.
Defined.

(** *** Paved runoff and surface runoff *)

Lemma runoff_rows (self : Eag.t) (w : Water) (type : string) :
  NoDup (od_keys (Eag.buckets self)) ->
  row_sums (Spec.selection (fluxes w)
              (Eag.column_names self "q_oa_" (Eag.bucket_named self [type])))
  = map (fun i =>
           nansum (map (fun kb => Spec.flux_outflow w (fst kb) i)
                       (filter (Spec.of_type type) (Eag.buckets self))))
        (seq 0 (List.length (df_index (fluxes w)))).
Proof.
  intros Hnd. unfold row_sums. cbn [df_index Spec.selection].
  apply map_ext. intros i. rewrite df_row_selection.
  rewrite column_names_buckets, map_map. unfold Spec.flux_outflow.
  f_equal. f_equal. apply filter_ext_in. intros kb Hkb.
  rewrite bucket_named_bucket by assumption.
  unfold Spec.of_type. cbn [existsb]. now rewrite orb_false_r.
Qed.

(** X3.  In the table [aggregate_fluxes] returns, "verhard" is at every
    time step the sum of the q_oa of the buckets of type Verhard, and
    "afstroming" the sum of the q_oa of the buckets of type Onverhard,
    values that are NaN left out.  The column q_oa_2 of the water, which
    the method first renames to "verhard", counts only if the bucket 2
    is of type Verhard. *)
Theorem aggregate_fluxes_runoff :
  forall (self : Eag.t) (fl : DataFrame) (w : Water),
    Eag.aggregate_fluxes self = Ok fl ->
    Eag.water self = Some w ->
    NoDup (od_keys (Eag.buckets self)) ->
    let n := List.length (df_index (fluxes w)) in
    df_getcol fl "verhard"
    = Ok (map (fun i =>
                 nansum (map (fun kb => Spec.flux_outflow w (fst kb) i)
                             (filter (Spec.of_type "Verhard")
                                     (Eag.buckets self))))
              (seq 0 n))
    /\ df_getcol fl "afstroming"
       = Ok (map (fun i =>
                    nansum (map (fun kb => Spec.flux_outflow w (fst kb) i)
                                (filter (Spec.of_type "Onverhard")
                                        (Eag.buckets self))))
                 (seq 0 n)).
Proof.
  intros self fl w Hfl Hw Hnd n.
  destruct (aggregate_fluxes_inv self fl Hfl)
    as (w' & Hw' & _ & _ & [Hv _] & _ & _ & [Ha _] & _).
  rewrite Hw in Hw'. injection Hw' as <-.
  split.
  - rewrite Hv. now rewrite runoff_rows.
  - rewrite Ha. now rewrite runoff_rows.
Qed.

Lemma aggregate_fluxes_runoff_witness :
  df_getcol Examples.aggregated_wet "verhard"
  = Ok [nansum [Examples.q 0]; nansum [Examples.q 0]].
Proof.
  apply (aggregate_fluxes_runoff
           Examples.unit_wet Examples.aggregated_wet
           (Examples.the_water 110 100 (Examples.water_fluxes 10 5 (-7) 0))
           eq_refl eq_refl).
  cbn. repeat constructor; cbn; intuition discriminate.
Defined.

(** *** Leaching and infiltration, with missing values *)

(** A value that is there and is not negative, respectively not
    positive. *)
Lemma add_not_negative (x y : num) :
  isnan x = false -> ltb0 x = false -> isnan y = false -> ltb0 y = false ->
  isnan (x + y)%num = false /\ ltb0 (x + y)%num = false.
Proof.
  destruct x as [a| | |], y as [b| | |]; cbn [isnan ltb0 add];
    try discriminate; try (split; reflexivity).
  unfold sgn. intros _ Ha _ Hb. split; [reflexivity|].
  destruct (a ?= 0)%Q eqn:Ea; try discriminate;
    destruct (b ?= 0)%Q eqn:Eb; try discriminate;
    destruct (a + b ?= 0)%Q eqn:Eab; try reflexivity;
    apply Qlt_alt in Eab;
    try apply Qeq_alt in Ea; try apply Qgt_alt in Ea;
    try apply Qeq_alt in Eb; try apply Qgt_alt in Eb; lra.
Qed.

Lemma add_not_positive (x y : num) :
  isnan x = false -> gtb0 x = false -> isnan y = false -> gtb0 y = false ->
  isnan (x + y)%num = false /\ gtb0 (x + y)%num = false.
Proof.
  destruct x as [a| | |], y as [b| | |]; cbn [isnan gtb0 add];
    try discriminate; try (split; reflexivity).
  unfold sgn. intros _ Ha _ Hb. split; [reflexivity|].
  destruct (a ?= 0)%Q eqn:Ea; try discriminate;
    destruct (b ?= 0)%Q eqn:Eb; try discriminate;
    destruct (a + b ?= 0)%Q eqn:Eab; try reflexivity;
    apply Qgt_alt in Eab;
    try apply Qeq_alt in Ea; try apply Qlt_alt in Ea;
    try apply Qeq_alt in Eb; try apply Qlt_alt in Eb; lra.
Qed.

Lemma nansum_not_negative (xs : list num) :
  Forall (fun x => ltb0 x = false) xs ->
  isnan (nansum xs) = false /\ ltb0 (nansum xs) = false.
Proof.
  unfold nansum.
  assert (G : forall acc, isnan acc = false -> ltb0 acc = false ->
              Forall (fun x => ltb0 x = false) xs ->
              isnan (fold_left (fun acc x => if isnan x then acc
                                             else (acc + x)%num) xs acc)
              = false
              /\ ltb0 (fold_left (fun acc x => if isnan x then acc
                                               else (acc + x)%num) xs acc)
                 = false).
  { induction xs as [|x xs IH]; intros acc Hn Hl Hall; [now split|].
    inversion Hall as [|? ? Hx Hxs]; subst. cbn [fold_left].
    destruct (isnan x) eqn:Ex; [now apply IH|].
    destruct (add_not_negative acc x Hn Hl Ex Hx). now apply IH. }
  apply G; reflexivity.
Qed.

Lemma nansum_not_positive (xs : list num) :
  Forall (fun x => gtb0 x = false) xs ->
  isnan (nansum xs) = false /\ gtb0 (nansum xs) = false.
Proof.
  unfold nansum.
  assert (G : forall acc, isnan acc = false -> gtb0 acc = false ->
              Forall (fun x => gtb0 x = false) xs ->
              isnan (fold_left (fun acc x => if isnan x then acc
                                             else (acc + x)%num) xs acc)
              = false
              /\ gtb0 (fold_left (fun acc x => if isnan x then acc
                                               else (acc + x)%num) xs acc)
                 = false).
  { induction xs as [|x xs IH]; intros acc Hn Hl Hall; [now split|].
    inversion Hall as [|? ? Hx Hxs]; subst. cbn [fold_left].
    destruct (isnan x) eqn:Ex; [now apply IH|].
    destruct (add_not_positive acc x Hn Hl Ex Hx). now apply IH. }
  apply G; reflexivity.
Qed.

(** X4.  At a time step at which the vertical exchanges of the buckets
    are finite or missing (NaN), with absolute values that sum to less
    than 2^63, so that no sum of them wraps around in a column of 64-bit
    integers: "uitspoeling" is a value (not NaN) that is not negative,
    and "intrek" a value that is not positive, also when exchanges are
    missing. *)
Theorem leaching_infiltration_signs :
  forall (self : Eag.t) (fl : DataFrame) (w : Water),
    Eag.aggregate_fluxes self = Ok fl ->
    Eag.water self = Some w ->
    NoDup (od_keys (Eag.buckets self)) ->
    forall i, (i < List.length (df_index (fluxes w)))%nat ->
      Spec.exchange_in_range (Eag.buckets self) w i ->
      isnan (Spec.cell fl "uitspoeling" i) = false
      /\ ltb0 (Spec.cell fl "uitspoeling" i) = false
      /\ isnan (Spec.cell fl "intrek" i) = false
      /\ gtb0 (Spec.cell fl "intrek" i) = false.
Proof.
  intros self fl w Hfl Hw Hnd i Hi _.
  destruct (aggregate_fluxes_exchange self w Hnd fl Hfl Hw) as (_ & Hu & Hin).
  unfold Spec.cell, Spec.column. rewrite Hu, Hin.
  rewrite !nth_map_seq by exact Hi.
  destruct (nansum_not_negative
              (map (fun kb => Spec.max0 (Spec.flux_vertical w (fst kb) i))
                   (filter (fun kb => Spec.paved_or_unpaved (snd kb))
                           (Eag.buckets self)))) as [H1 H2].
  { apply Forall_forall. intros x Hx. apply in_map_iff in Hx.
    destruct Hx as (kb & <- & _). apply max0_not_negative. }
  destruct (nansum_not_positive
              (map (fun kb => Spec.min0 (Spec.flux_vertical w (fst kb) i))
                   (Eag.buckets self))) as [H3 H4].
  { apply Forall_forall. intros x Hx. apply in_map_iff in Hx.
    destruct Hx as (kb & <- & _). apply min0_not_positive. }
  repeat split; assumption.
Qed.

Lemma leaching_infiltration_signs_witness :
  isnan (Spec.cell Examples.aggregated_wet "uitspoeling" 0) = false
  /\ ltb0 (Spec.cell Examples.aggregated_wet "uitspoeling" 0) = false
  /\ isnan (Spec.cell Examples.aggregated_wet "intrek" 0) = false
  /\ gtb0 (Spec.cell Examples.aggregated_wet "intrek" 0) = false.
Proof.
  apply (leaching_infiltration_signs
           Examples.unit_wet Examples.aggregated_wet
           (Examples.the_water 110 100 (Examples.water_fluxes 10 5 (-7) 0))
           eq_refl eq_refl).
  - cbn. repeat constructor; cbn; intuition discriminate.
  - cbn. lia.
  - split.
    + intros kb [<-|[<-|[]]]; left; reflexivity.
    + reflexivity.
Defined.

(** ** [calculate_fractions] *)

(** X5.  [calculate_fractions] returns a frame that has the time index of
    the fluxes of the water and no column, whenever [aggregate_fluxes]
    returns, and raises what [aggregate_fluxes] raises otherwise. *)
Theorem calculate_fractions_is_empty :
  forall self : Eag.t,
    (forall fl w, Eag.aggregate_fluxes self = Ok fl ->
                  Eag.water self = Some w ->
                  Eag.calculate_fractions self
                  = Ok (mkDF (df_index (fluxes w)) []))
    /\ (forall e, Eag.aggregate_fluxes self = Raise e ->
                  Eag.calculate_fractions self = Raise e).
Proof.
  intros self. split.
  - intros fl w Hfl Hw. unfold Eag.calculate_fractions. rewrite Hfl.
    cbn [rbind].
    destruct (aggregate_fluxes_inv self fl Hfl) as (w' & Hw' & Hix & _).
    rewrite Hw in Hw'. injection Hw' as <-. now rewrite Hix.
  - intros e He. unfold Eag.calculate_fractions. now rewrite He.
Qed.

Lemma calculate_fractions_is_empty_witness :
  Eag.calculate_fractions Examples.unit_wet = Ok (mkDF [1; 2] [])
  /\ Eag.calculate_fractions Examples.unit_A' = Raise AttributeError.
Proof.
  destruct (calculate_fractions_is_empty Examples.unit_wet) as [Hok _].
  destruct (calculate_fractions_is_empty Examples.unit_A') as [_ Herr].
  split.
  - apply (Hok Examples.aggregated_wet
               (Examples.the_water 110 100
                                   (Examples.water_fluxes 10 5 (-7) 0)));
      reflexivity.
  - apply Herr. reflexivity.
Defined.

(** ** More on [add_bucket] and [add_water] *)

Lemma od_set_keys_Z {V} (d : list (Z * V)) (k : Z) (v : V) :
  od_keys (od_set Z.eqb d k v)
  = if od_mem Z.eqb d k then od_keys d else od_keys d ++ [k].
Proof.
  unfold od_keys, od_mem. induction d as [|[k' v'] d IH].
  - reflexivity.
  - cbn [od_set od_get map fst]. destruct (k =? k') eqn:E.
    + reflexivity.
    + cbn [map fst]. rewrite IH.
      destruct (od_get Z.eqb d k); reflexivity.
Qed.

(** X6.  [add_bucket] prints nothing and never moves a key of the
    mapping: an identity that is new goes to the end, whatever [replace]
    is, and an identity that is a key already keeps its place, both when
    its bucket is replaced and when the call raises.  So the order in
    which [simulate] goes through the buckets is the order in which
    their identities were first added. *)
Theorem add_bucket_keeps_order :
  forall (self : Eag.t) (bucket : Bucket) (replace : bool),
    let r := Eag.add_bucket bucket replace self in
    events_of r = []
    /\ od_keys (Eag.buckets (state_of r))
       = (if od_mem Z.eqb (Eag.buckets self) (bucket_id bucket)
          then od_keys (Eag.buckets self)
          else od_keys (Eag.buckets self) ++ [bucket_id bucket])
    /\ (od_mem Z.eqb (Eag.buckets self) (bucket_id bucket) = false ->
        outcome r = Ok tt
        /\ Eag.buckets (state_of r)
           = Eag.buckets self ++ [(bucket_id bucket, bucket)]).
Proof.
  intros self bucket replace. cbv zeta. unfold Eag.add_bucket.
  rewrite bind_get.
  destruct (od_mem Z.eqb (Eag.buckets self) (bucket_id bucket)) eqn:Emem.
  - destruct replace; cbn [andb negb].
    + cbn [modify events_of state_of outcome fst snd Eag.set_buckets
           Eag.buckets].
      rewrite od_set_keys_Z, Emem. repeat split; discriminate.
    + cbn [raise events_of state_of outcome fst snd].
      repeat split; discriminate.
  - cbn [andb modify events_of state_of outcome fst snd Eag.set_buckets
         Eag.buckets].
    rewrite od_set_keys_Z, Emem. repeat split.
    clear - Emem. unfold od_mem in Emem.
    induction (Eag.buckets self) as [|[k v] d IH]; [reflexivity|].
    cbn [od_get] in Emem. cbn [od_set app].
    change (Z.eqb (bucket_id bucket) k) with (bucket_id bucket =? k) in *.
    destruct (bucket_id bucket =? k); [discriminate|].
    now rewrite IH.
Qed.

Lemma add_bucket_keeps_order_witness :
  outcome (Eag.add_bucket Examples.drain false Examples.unit_wet) = Ok tt
  /\ Eag.buckets
       (state_of (Eag.add_bucket Examples.drain false Examples.unit_wet))
     = [(1, Examples.verhard); (2, Examples.onverhard); (3, Examples.drain)].
Proof.
  destruct (add_bucket_keeps_order Examples.unit_wet Examples.drain false)
    as (_ & _ & H).
  apply H. reflexivity.
Defined.

Lemma add_buckets_invariant (calls : list (Bucket * bool)) (self : Eag.t) :
  Spec.keyed_by_id (Eag.buckets self) ->
  NoDup (od_keys (Eag.buckets self)) ->
  let self' := Spec.add_buckets calls self in
  Spec.keyed_by_id (Eag.buckets self')
  /\ NoDup (od_keys (Eag.buckets self'))
  /\ (forall kb, In kb (Eag.buckets self') ->
                 In kb (Eag.buckets self) \/ In (snd kb) (map fst calls))
  /\ Eag.water self' = Eag.water self
  /\ Eag.parameters self' = Eag.parameters self.
Proof.
  revert self. induction calls as [|[b r] calls IH]; intros self Hk Hnd;
    cbv zeta.
  - cbn. repeat split; auto.
  - unfold Spec.add_buckets. cbn [fold_left fst snd].
    fold (Spec.add_buckets calls (state_of (Eag.add_bucket b r self))).
    destruct (add_bucket_keyed_by_id self b r Hk Hnd) as [Hk' Hnd'].
    destruct (IH _ Hk' Hnd') as (H1 & H2 & H3 & H4 & H5).
    assert (Hstep :
      (forall kb, In kb (Eag.buckets (state_of (Eag.add_bucket b r self))) ->
                  In kb (Eag.buckets self) \/ snd kb = b)
      /\ Eag.water (state_of (Eag.add_bucket b r self)) = Eag.water self
      /\ Eag.parameters (state_of (Eag.add_bucket b r self))
         = Eag.parameters self).
    { unfold Eag.add_bucket. rewrite bind_get.
      destruct (od_mem Z.eqb (Eag.buckets self) (bucket_id b) && negb r).
      - cbn. repeat split; auto.
      - cbn [modify state_of fst snd Eag.set_buckets Eag.buckets Eag.water
             Eag.parameters].
        repeat split. intros kb Hin.
        apply (od_set_in Z.eqb Zeqb_eq') in Hin.
        destruct Hin as [->|Hin]; [now right | now left]. }
    destruct Hstep as (S1 & S2 & S3).
    split; [exact H1|]. split; [exact H2|].
    split; [|split; congruence].
    intros kb Hin. destruct (H3 kb Hin) as [Hin'|Hin'].
    + destruct (S1 kb Hin') as [H|H]; [now left|].
      right. cbn [map fst]. now left.
    + right. cbn [map fst]. now right.
Qed.

(** X7.  Whatever calls of [add_bucket] are made on a unit as [Eag(...)]
    constructs it, with whatever values of [replace], and whether they
    raise or not: every bucket of the mapping is stored under its own
    identity, no identity is a key twice, every stored bucket is one
    that was passed to a call, and the unit still has no water. *)
Theorem add_buckets_after_init :
  forall (id : option Z) (name : string) (gaf : option Eag.GafView)
         (series : option DataFrame) (calls : list (Bucket * bool)),
    let self := Spec.add_buckets calls (Eag.init id name gaf series) in
    Spec.keyed_by_id (Eag.buckets self)
    /\ NoDup (od_keys (Eag.buckets self))
    /\ (forall kb, In kb (Eag.buckets self) -> In (snd kb) (map fst calls))
    /\ Eag.water self = None.
Proof.
  intros id name gaf series calls.
  destruct (add_buckets_invariant calls (Eag.init id name gaf series))
    as (H1 & H2 & H3 & H4 & _).
  - constructor.
  - constructor.
  - cbv zeta. split; [exact H1|]. split; [exact H2|]. split; [|exact H4].
    intros kb Hin. destruct (H3 kb Hin) as [[]|H]. exact H.
Qed.

Lemma add_buckets_after_init_witness :
  NoDup (od_keys
           (Eag.buckets
              (Spec.add_buckets
                 [(Examples.verhard, false); (Examples.verhard, false);
                  (Examples.drain, true)]
                 (Eag.init (Some 1) "A" None None))))
  /\ In Examples.drain
        (map fst [(Examples.verhard, false); (Examples.verhard, false);
                  (Examples.drain, true)]).
Proof.
  destruct (add_buckets_after_init
              (Some 1) "A" None None
              [(Examples.verhard, false); (Examples.verhard, false);
               (Examples.drain, true)]) as (_ & Hnd & Hin & _).
  split; [exact Hnd|].
  apply (Hin (3, Examples.drain)). cbn. auto.
Defined.

(** X8.  On a unit without water, as [Eag(...)] constructs it,
    [add_water] returns whatever [replace] is; and after [add_water] has
    returned, a second [add_water] with [replace=False] raises KeyError
    and keeps the first water. *)
Theorem add_water_once :
  forall (self : Eag.t) (w w' : Water) (replace : bool),
    Eag.water self = None ->
    let r := Eag.add_water w replace self in
    r = (Ok tt, Eag.set_water (Some w) self, [])
    /\ Eag.add_water w' false (state_of r)
       = (Raise KeyError, Eag.set_water (Some w) self, []).
Proof.
  intros self w w' replace Hw. cbv zeta.
  assert (H1 : Eag.add_water w replace self
               = (Ok tt, Eag.set_water (Some w) self, [])).
  { unfold Eag.add_water. rewrite bind_get, Hw. reflexivity. }
  rewrite H1. split; [reflexivity|].
  cbn [state_of fst snd]. unfold Eag.add_water. rewrite bind_get.
  reflexivity.
Qed.

Lemma add_water_once_witness :
  Eag.add_water (Examples.the_water 1 1 df_empty) false
                (Eag.init (Some 1) "A" None None)
  = (Ok tt,
     Eag.set_water (Some (Examples.the_water 1 1 df_empty))
                   (Eag.init (Some 1) "A" None None), []).
Proof.
  apply (add_water_once (Eag.init (Some 1) "A" None None)
                        (Examples.the_water 1 1 df_empty)
                        (Examples.the_water 2 2 df_empty) false).
  reflexivity.
Defined.

(** ** More on [simulate] *)

Lemma composite_indexed_columns (params : ParamTable) (c : string) :
  has_column (Spec.composite_indexed params) c = has_column params c.
Proof. reflexivity. Qed.

Lemma pt_column_missing {A} (p : ParamTable) (c : string)
    (field : ParamRow -> A) :
  has_column p c = false -> pt_column p c field = Raise KeyError.
Proof. unfold pt_column. now intros ->. Qed.

Section SimulateMore.
Variable bucket_simulate :
  Eag.t -> Bucket -> Series label num -> targ -> targ -> result Bucket.
Variable water_simulate :
  Eag.t -> Water -> Series label num -> targ -> targ -> result Water.
Variables (params : ParamTable) (tmin tmax : targ).

(** [simulate] up to the loop, for a table with the two columns of the
    index. *)
Lemma simulate_prelude (self : Eag.t) :
  has_column params "Code" = true ->
  has_column params "LaagVolgorde" = true ->
  Eag.simulate bucket_simulate water_simulate params tmin tmax self
  = match outcome (Spec.bucket_loop bucket_simulate params tmin tmax self)
    with
    | Raise e =>
        (Raise e,
         state_of (Spec.bucket_loop bucket_simulate params tmin tmax self),
         events_of (Spec.bucket_loop bucket_simulate params tmin tmax self))
    | Ok _ =>
        let s :=
          state_of (Spec.bucket_loop bucket_simulate params tmin tmax self) in
        let rest :=
          (owner <- lift (pt_column (Spec.composite_indexed params)
                                    "Bakjes_ID" Bakjes_ID) ;;
           self <- get ;;
           w <- lift (of_option AttributeError (Eag.water self)) ;;
           let mask :=
             map (fun lo => (fst lo, snd lo =? water_id w)) owner in
           let p := pt_loc_mask (Spec.composite_indexed params) mask in
           values <- lift (pt_column p "Waarde" Waarde) ;;
           emit (WaterSimulate w values tmin tmax) ;;
           w' <- lift (water_simulate self w values tmin tmax) ;;
           modify (Eag.set_water (Some w')))%method s in
        (outcome rest, state_of rest,
         events_of (Spec.bucket_loop bucket_simulate params tmin tmax self)
           ++ events_of rest)
    end.
Proof.
  intros Hc Hl. unfold Eag.simulate.
  method_step. rewrite (pt_column_ok _ _ _ Hc). method_step.
  rewrite (pt_column_ok _ _ _ Hl). method_step. cbv zeta.
  rewrite simulate_set_index. method_step. method_step.
  change (Eag.buckets
            (Eag.set_parameters (Spec.composite_indexed params)
                                (Eag.set_parameters params self)))
    with (Eag.buckets self).
  change (Eag.set_parameters (Spec.composite_indexed params)
                             (Eag.set_parameters params self))
    with (Eag.set_parameters (Spec.composite_indexed params) self).
  rewrite bind_run.
  fold (Spec.bucket_loop bucket_simulate params tmin tmax self).
  destruct (outcome (Spec.bucket_loop bucket_simulate params tmin tmax self))
    as [[]|e]; reflexivity.
Qed.

Hypothesis has_owner : has_column params "Bakjes_ID" = true.
Hypothesis has_value : has_column params "Waarde" = true.

(** What one turn of the loop leaves of the unit. *)
Lemma simulate_bucket_state (kb : Z * Bucket) (s : Eag.t) :
  In (fst kb) (od_keys (Eag.buckets s)) ->
  let s' := state_of (Eag.simulate_bucket bucket_simulate
                        (Spec.composite_indexed params) tmin tmax kb s) in
  od_keys (Eag.buckets s') = od_keys (Eag.buckets s)
  /\ Eag.parameters s' = Eag.parameters s
  /\ Eag.series s' = Eag.series s
  /\ Eag.name s' = Eag.name s.
Proof.
  intros Hin.
  destruct (owned_values_selected params (fst kb) has_owner has_value)
    as (mask & Hmask & Hval).
  cbv zeta. unfold Eag.simulate_bucket. cbv zeta.
  rewrite Hmask. method_step. method_step. rewrite Hval.
  method_step. method_step. method_step.
  destruct (bucket_simulate s (snd kb) (Spec.owned_values params (fst kb))
                            tmin tmax) as [b|e].
  - method_step.
    cbn [modify state_of fst snd Eag.set_buckets Eag.buckets Eag.parameters
         Eag.series Eag.name].
    rewrite od_set_keys_Z.
    apply (od_mem_in_keys Z.eqb Zeqb_eq') in Hin. rewrite Hin.
    repeat split.
  - rewrite bind_lift_raise. repeat split.
Qed.

Lemma simulate_buckets_state (bs : list (Z * Bucket)) (s : Eag.t) :
  (forall kb, In kb bs -> In (fst kb) (od_keys (Eag.buckets s))) ->
  let s' := state_of (for_each bs (Eag.simulate_bucket bucket_simulate
                                     (Spec.composite_indexed params)
                                     tmin tmax) s) in
  od_keys (Eag.buckets s') = od_keys (Eag.buckets s)
  /\ Eag.parameters s' = Eag.parameters s
  /\ Eag.series s' = Eag.series s
  /\ Eag.name s' = Eag.name s.
Proof.
  revert s. induction bs as [|kb bs IH]; intros s Hin; cbv zeta.
  - repeat split.
  - rewrite for_each_cons.
    destruct (simulate_bucket_state kb s (Hin kb (or_introl eq_refl)))
      as (K1 & K2 & K3 & K4).
    set (s1 := state_of (Eag.simulate_bucket bucket_simulate
                           (Spec.composite_indexed params) tmin tmax kb s))
      in *.
    destruct (outcome (Eag.simulate_bucket bucket_simulate
                         (Spec.composite_indexed params) tmin tmax kb s)).
    + destruct (IH s1) as (J1 & J2 & J3 & J4).
      { intros kb' Hkb'. rewrite K1. apply Hin. now right. }
      cbv zeta in J1, J2, J3, J4.
      change (state_of (?o, ?st, ?ev)) with st.
      rewrite J1, J2, J3, J4. repeat split; assumption.
    + change (state_of (?o, ?st, ?ev)) with st.
      repeat split; assumption.
Qed.

(** The loop stops at the first bucket whose model raises, with the
    exception of the model. *)
Lemma simulate_buckets_raise (pre post : list (Z * Bucket))
    (kb : Z * Bucket) (e : exn) (s : Eag.t) :
  Spec.keyed_by_id (pre ++ kb :: post) ->
  (forall kb' s p, In kb' pre ->
                   exists b', bucket_simulate s (snd kb') p tmin tmax = Ok b') ->
  (forall s p, bucket_simulate s (snd kb) p tmin tmax = Raise e) ->
  let r := for_each (pre ++ kb :: post)
                    (Eag.simulate_bucket bucket_simulate
                       (Spec.composite_indexed params) tmin tmax) s in
  outcome r = Raise e
  /\ events_of r = Spec.bucket_events params tmin tmax (pre ++ [kb]).
Proof.
  revert s. induction pre as [|kb0 pre IH]; intros s Hk Hpre Hkb; cbv zeta.
  - cbn [app]. rewrite for_each_cons.
    destruct (simulate_bucket_run bucket_simulate params tmin tmax
                                  has_owner has_value kb s) as (Hev & _ & Ho).
    rewrite Hkb in Ho. rewrite Ho, Hev.
    cbn [outcome events_of fst snd]. split; [reflexivity|].
    inversion Hk as [|? ? Hid _]; subst.
    cbn [Spec.bucket_events flat_map app]. now rewrite Hid.
  - cbn [app] in *. rewrite for_each_cons.
    destruct (simulate_bucket_run bucket_simulate params tmin tmax
                                  has_owner has_value kb0 s) as (Hev & _ & Ho).
    destruct (Hpre kb0 s (Spec.owned_values params (fst kb0))
                   (or_introl eq_refl)) as [b' Hb'].
    rewrite Hb' in Ho. rewrite Ho, Hev.
    inversion Hk as [|? ? Hid Hk']; subst.
    destruct (IH (state_of (Eag.simulate_bucket bucket_simulate
                              (Spec.composite_indexed params) tmin tmax
                              kb0 s)) Hk') as [Ho' Hev'].
    { intros kb' s' p Hin. apply Hpre. now right. }
    { exact Hkb. }
    cbn [outcome events_of fst snd]. split; [exact Ho'|].
    rewrite Hev'. cbn [Spec.bucket_events flat_map app]. now rewrite Hid.
Qed.

(** After the loop, for a table with all four columns. *)
Lemma simulate_after_loop (self : Eag.t) :
  has_column params "Code" = true ->
  has_column params "LaagVolgorde" = true ->
  outcome (Spec.bucket_loop bucket_simulate params tmin tmax self) = Ok tt ->
  Eag.simulate bucket_simulate water_simulate params tmin tmax self
  = match Eag.water self with
    | None =>
        (Raise AttributeError,
         state_of (Spec.bucket_loop bucket_simulate params tmin tmax self),
         events_of (Spec.bucket_loop bucket_simulate params tmin tmax self))
    | Some w =>
        match water_simulate
                (state_of (Spec.bucket_loop bucket_simulate params tmin tmax
                                            self))
                w (Spec.owned_values params (water_id w)) tmin tmax with
        | Ok w' =>
            (Ok tt,
             Eag.set_water
               (Some w')
               (state_of (Spec.bucket_loop bucket_simulate params tmin tmax
                                           self)),
             events_of (Spec.bucket_loop bucket_simulate params tmin tmax self)
               ++ [Spec.water_event params tmin tmax w])
        | Raise e =>
            (Raise e,
             state_of (Spec.bucket_loop bucket_simulate params tmin tmax self),
             events_of (Spec.bucket_loop bucket_simulate params tmin tmax self)
               ++ [Spec.water_event params tmin tmax w])
        end
    end.
Proof.
  intros Hc Hl Hloop. rewrite (simulate_prelude self Hc Hl), Hloop.
  cbv zeta.
  assert (Hw : Eag.water
                 (state_of (Spec.bucket_loop bucket_simulate params tmin tmax
                                             self))
               = Eag.water self).
  { unfold Spec.bucket_loop.
    assert (G : forall bs s,
               Eag.water (state_of
                            (for_each bs
                               (Eag.simulate_bucket bucket_simulate
                                  (Spec.composite_indexed params) tmin tmax)
                               s)) = Eag.water s).
    { clear - has_owner has_value. intros bs.
      induction bs as [|kb bs IH]; intros s.
      - reflexivity.
      - rewrite for_each_cons.
        destruct (simulate_bucket_run bucket_simulate params tmin tmax
                                      has_owner has_value kb s)
          as (_ & Hw & _).
        destruct (outcome (Eag.simulate_bucket bucket_simulate
                             (Spec.composite_indexed params) tmin tmax
                             kb s)).
        + change (state_of (?o, ?st, ?ev)) with st. now rewrite IH.
        + exact Hw. }
    now rewrite G. }
  destruct (owned_values_water params has_owner has_value)
    as (owner & Hown & Hval).
  rewrite Hown. method_step. method_step.
  rewrite Hw. destruct (Eag.water self) as [w|].
  - cbn [of_option]. method_step. cbv zeta.
    rewrite Hval. method_step. method_step.
    destruct (water_simulate
                (state_of (Spec.bucket_loop bucket_simulate params tmin tmax
                                            self))
                w (Spec.owned_values params (water_id w)) tmin tmax)
      as [w'|e].
    + method_step. reflexivity.
    + rewrite bind_lift_raise. reflexivity.
  - cbn [of_option]. rewrite bind_lift_raise.
    cbn [outcome state_of events_of fst snd]. now rewrite app_nil_r.
Qed.
End SimulateMore.

(** X9.  On a unit that has no water, [simulate] does not fail at once:
    with a table that has the columns and bucket models that return, it
    first sets the parameters and runs the model of every bucket, in
    order, and only then raises AttributeError, at [self.water.id]. *)
Theorem simulate_without_water :
  forall bucket_simulate water_simulate (self : Eag.t) (params : ParamTable)
         (tmin tmax : targ),
    (forall c, In c ["Code"; "LaagVolgorde"; "Bakjes_ID"; "Waarde"] ->
               has_column params c = true) ->
    Spec.keyed_by_id (Eag.buckets self) ->
    Eag.water self = None ->
    (forall s b p, exists b', bucket_simulate s b p tmin tmax = Ok b') ->
    let r := Eag.simulate bucket_simulate water_simulate params tmin tmax
                          self in
    outcome r = Raise AttributeError
    /\ events_of r = Spec.bucket_events params tmin tmax (Eag.buckets self)
    /\ Eag.parameters (state_of r) = Spec.composite_indexed params
    /\ Eag.water (state_of r) = None.
Proof.
  intros bsim wsim self params tmin tmax Hcols Hkeys Hwater Hbs.
  assert (Hc : has_column params "Code" = true) by (apply Hcols; simpl; auto).
  assert (Hl : has_column params "LaagVolgorde" = true)
    by (apply Hcols; simpl; auto).
  assert (Hb : has_column params "Bakjes_ID" = true)
    by (apply Hcols; simpl; auto 6).
  assert (Hv : has_column params "Waarde" = true)
    by (apply Hcols; simpl; auto 6).
  cbv zeta.
  pose proof (simulate_buckets_ok bsim params tmin tmax Hb Hv
                (Eag.buckets self)
                (Eag.set_parameters (Spec.composite_indexed params) self)
                Hbs) as Hok.
  fold (Spec.bucket_loop bsim params tmin tmax self) in Hok.
  rewrite (simulate_after_loop bsim wsim params tmin tmax Hb Hv self Hc Hl Hok).
  rewrite Hwater. cbn [outcome state_of events_of fst snd].
  destruct (simulate_buckets_run bsim params tmin tmax Hb Hv
              (Eag.buckets self)
              (Eag.set_parameters (Spec.composite_indexed params) self)
              Hkeys) as (Hw & Hcases).
  destruct (simulate_buckets_state bsim params tmin tmax Hb Hv
              (Eag.buckets self)
              (Eag.set_parameters (Spec.composite_indexed params) self))
    as (_ & Hp & _).
  { intros kb Hin. change (In (fst kb) (map fst (Eag.buckets self))).
    now apply in_map. }
  fold (Spec.bucket_loop bsim params tmin tmax self) in Hw, Hcases, Hp.
  split; [reflexivity|]. split; [|split].
  - destruct Hcases as [[_ Hev]|(e & k & Ho & _)]; [exact Hev|].
    rewrite Hok in Ho. discriminate Ho.
  - exact Hp.
  - rewrite Hw. exact Hwater.
Qed.

Lemma simulate_without_water_witness :
  outcome (Eag.simulate Examples.still_bucket Examples.still_water
                        Examples.params_A TNone TNone Examples.unit_no_water)
  = Raise AttributeError
  /\ events_of (Eag.simulate Examples.still_bucket Examples.still_water
                             Examples.params_A TNone TNone
                             Examples.unit_no_water)
     = Spec.bucket_events Examples.params_A TNone TNone
         [(1, Examples.verhard); (2, Examples.onverhard)].
Proof.
  destruct (simulate_without_water
              Examples.still_bucket Examples.still_water
              Examples.unit_no_water Examples.params_A TNone TNone)
    as (Ho & Hev & _).
  - intros c Hc. simpl in Hc.
    destruct Hc as [<-|[<-|[<-|[<-|[]]]]]; reflexivity.
  - repeat constructor.
  - reflexivity.
  - intros s b p. exists b. reflexivity.
  - split; [exact Ho | exact Hev].
Defined.

(** X10.  A table that lacks a column [simulate] reads: without "Code" or
    "LaagVolgorde" the method raises KeyError when [self.parameters] is
    the table already and nothing else has happened; without "Bakjes_ID"
    the index is set and KeyError is raised before a line is printed,
    whether the unit has buckets and a water or not; without "Waarde"
    the line of the first bucket is printed and KeyError is raised
    before any bucket model is called. *)
Theorem simulate_missing_column :
  forall bucket_simulate water_simulate (self : Eag.t) (params : ParamTable)
         (tmin tmax : targ),
    let r := Eag.simulate bucket_simulate water_simulate params tmin tmax
                          self in
    (has_column params "Code" = false
     \/ has_column params "LaagVolgorde" = false ->
     r = (Raise KeyError, Eag.set_parameters params self, []))
    /\ (has_column params "Code" = true ->
        has_column params "LaagVolgorde" = true ->
        has_column params "Bakjes_ID" = false ->
        r = (Raise KeyError,
             Eag.set_parameters (Spec.composite_indexed params) self, []))
    /\ (has_column params "Code" = true ->
        has_column params "LaagVolgorde" = true ->
        has_column params "Bakjes_ID" = true ->
        has_column params "Waarde" = false ->
        forall kb rest, Eag.buckets self = kb :: rest ->
        r = (Raise KeyError,
             Eag.set_parameters (Spec.composite_indexed params) self,
             [Printed ("Simulating the waterbalance for bucket: "
                         ++ str (fst kb))%string])).
Proof.
  intros bsim wsim self params tmin tmax. cbv zeta.
  split; [|split].
  - intros Hmiss. unfold Eag.simulate. method_step.
    destruct (has_column params "Code") eqn:Hc.
    + destruct Hmiss as [Hmiss|Hl]; [discriminate Hmiss|].
      rewrite (pt_column_ok _ _ _ Hc). method_step.
      rewrite (pt_column_missing _ _ _ Hl). reflexivity.
    + rewrite (pt_column_missing _ _ _ Hc). reflexivity.
  - intros Hc Hl Hb.
    rewrite (simulate_prelude bsim wsim params tmin tmax self Hc Hl).
    unfold Spec.bucket_loop.
    destruct (Eag.buckets self) as [|kb rest] eqn:Ebs.
    + cbn [for_each ret outcome state_of events_of fst snd]. cbv zeta.
      rewrite pt_column_missing by exact Hb. reflexivity.
    + rewrite for_each_cons. unfold Eag.simulate_bucket. cbv zeta.
      rewrite pt_column_missing by exact Hb. reflexivity.
  - intros Hc Hl Hb Hv kb rest Ebs.
    rewrite (simulate_prelude bsim wsim params tmin tmax self Hc Hl).
    unfold Spec.bucket_loop. rewrite Ebs, for_each_cons.
    unfold Eag.simulate_bucket. cbv zeta.
    assert (Hb' : has_column (Spec.composite_indexed params) "Bakjes_ID"
                  = true) by exact Hb.
    rewrite (pt_column_ok _ _ _ Hb'). method_step. method_step.
    rewrite pt_column_missing by exact Hv.
    reflexivity.
Qed.

Lemma simulate_missing_column_witness :
  Eag.simulate Examples.still_bucket Examples.still_water
               Examples.params_no_value TNone TNone Examples.unit_wet
  = (Raise KeyError,
     Eag.set_parameters (Spec.composite_indexed Examples.params_no_value)
                        Examples.unit_wet,
     [Printed "Simulating the waterbalance for bucket: 1"]).
Proof.
  destruct (simulate_missing_column
              Examples.still_bucket Examples.still_water Examples.unit_wet
              Examples.params_no_value TNone TNone) as (_ & _ & H).
  apply (H eq_refl eq_refl eq_refl eq_refl
           (1, Examples.verhard) [(2, Examples.onverhard)] eq_refl).
Defined.

Lemma bucket_events_only_buckets (params : ParamTable) (tmin tmax : targ)
    (bs : list (Z * Bucket)) :
  existsb (fun ev => match ev with
                     | WaterSimulate _ _ _ _ => true
                     | _ => false
                     end) (Spec.bucket_events params tmin tmax bs) = false.
Proof.
  unfold Spec.bucket_events.
  induction bs as [|x l IH]; [reflexivity|].
  cbn [flat_map app existsb orb]. exact IH.
Qed.

(** X11.  When the model of a bucket raises, [simulate] raises the same
    exception: the buckets before it have been simulated, the ones after
    it and the water are not, and the water of the unit is as it was. *)
Theorem simulate_bucket_error :
  forall bucket_simulate water_simulate (self : Eag.t) (params : ParamTable)
         (tmin tmax : targ) (pre post : list (Z * Bucket))
         (kb : Z * Bucket) (e : exn),
    (forall c, In c ["Code"; "LaagVolgorde"; "Bakjes_ID"; "Waarde"] ->
               has_column params c = true) ->
    Eag.buckets self = pre ++ kb :: post ->
    Spec.keyed_by_id (Eag.buckets self) ->
    (forall kb' s p, In kb' pre ->
       exists b', bucket_simulate s (snd kb') p tmin tmax = Ok b') ->
    (forall s p, bucket_simulate s (snd kb) p tmin tmax = Raise e) ->
    let r := Eag.simulate bucket_simulate water_simulate params tmin tmax
                          self in
    outcome r = Raise e
    /\ events_of r = Spec.bucket_events params tmin tmax (pre ++ [kb])
    /\ existsb (fun ev => match ev with
                          | WaterSimulate _ _ _ _ => true
                          | _ => false
                          end) (events_of r) = false
    /\ Eag.water (state_of r) = Eag.water self.
Proof.
  intros bsim wsim self params tmin tmax pre post kb e Hcols Ebs Hkeys
         Hpre Hkb.
  assert (Hc : has_column params "Code" = true) by (apply Hcols; simpl; auto).
  assert (Hl : has_column params "LaagVolgorde" = true)
    by (apply Hcols; simpl; auto).
  assert (Hb : has_column params "Bakjes_ID" = true)
    by (apply Hcols; simpl; auto 6).
  assert (Hv : has_column params "Waarde" = true)
    by (apply Hcols; simpl; auto 6).
  cbv zeta.
  rewrite (simulate_prelude bsim wsim params tmin tmax self Hc Hl).
  rewrite Ebs in Hkeys.
  destruct (simulate_buckets_raise bsim params tmin tmax Hb Hv pre post kb e
              (Eag.set_parameters (Spec.composite_indexed params) self)
              Hkeys Hpre Hkb) as [Ho Hev].
  destruct (simulate_buckets_run bsim params tmin tmax Hb Hv
              (pre ++ kb :: post)
              (Eag.set_parameters (Spec.composite_indexed params) self)
              Hkeys) as (Hw & _).
  unfold Spec.bucket_loop. rewrite Ebs, Ho.
  cbn [outcome state_of events_of fst snd].
  fold (@events_of Eag.t unit
          (for_each (pre ++ kb :: post)
             (Eag.simulate_bucket bsim (Spec.composite_indexed params)
                                  tmin tmax)
             (Eag.set_parameters (Spec.composite_indexed params) self))).
  fold (@state_of Eag.t unit
          (for_each (pre ++ kb :: post)
             (Eag.simulate_bucket bsim (Spec.composite_indexed params)
                                  tmin tmax)
             (Eag.set_parameters (Spec.composite_indexed params) self))).
  rewrite Hev, Hw.
  split; [reflexivity|]. split; [reflexivity|]. split; [|reflexivity].
  apply bucket_events_only_buckets.
Qed.

Lemma simulate_bucket_error_witness :
  outcome (Eag.simulate Examples.failing_bucket Examples.still_water
                        Examples.params_A TNone TNone Examples.unit_wet)
  = Raise IndexError
  /\ events_of (Eag.simulate Examples.failing_bucket Examples.still_water
                             Examples.params_A TNone TNone Examples.unit_wet)
     = Spec.bucket_events Examples.params_A TNone TNone
         [(1, Examples.verhard); (2, Examples.onverhard)].
Proof.
  destruct (simulate_bucket_error
              Examples.failing_bucket Examples.still_water Examples.unit_wet
              Examples.params_A TNone TNone
              [(1, Examples.verhard)] [] (2, Examples.onverhard) IndexError)
    as (Ho & Hev & _).
  - intros c Hc. simpl in Hc.
    destruct Hc as [<-|[<-|[<-|[<-|[]]]]]; reflexivity.
  - reflexivity.
  - repeat constructor.
  - intros kb' s p [<-|[]]. exists Examples.verhard. reflexivity.
  - reflexivity.
  - split; [exact Ho | exact Hev].
Defined.

Lemma rows_with_code_composite (params : ParamTable) (code : string) :
  Spec.rows_with_code (Spec.composite_indexed params) code
  = map (fun r => (Spec.composite (snd r), snd r))
        (Spec.rows_with_code params code).
Proof.
  unfold Spec.rows_with_code, Spec.composite_indexed. cbn [pt_rows].
  induction (pt_rows params) as [|r rows IH]; [reflexivity|].
  cbn [map filter snd]. destruct (String.eqb (Code (snd r)) code).
  - cbn [map]. now rewrite IH.
  - exact IH.
Qed.

(** X12.  [simulate] returns only for a table with the four columns it
    reads and a unit with a water.  When it has returned, the parameters
    of the unit are the table under its composite index, the mapping of
    the buckets has the keys it had, in their order, the water is the
    one its model returned, the name and the series of the unit are as
    before, and a later lookup of a parameter by its code, as
    [calculate_chloride_concentration] does it, gives the value of the
    first row of the table with that code. *)
Theorem simulate_leaves :
  forall bucket_simulate water_simulate (self : Eag.t) (params : ParamTable)
         (tmin tmax : targ),
    let r := Eag.simulate bucket_simulate water_simulate params tmin tmax
                          self in
    outcome r = Ok tt ->
    (forall c, In c ["Code"; "LaagVolgorde"; "Bakjes_ID"; "Waarde"] ->
               has_column params c = true)
    /\ Eag.parameters (state_of r) = Spec.composite_indexed params
    /\ od_keys (Eag.buckets (state_of r)) = od_keys (Eag.buckets self)
    /\ (exists w w',
           Eag.water self = Some w
           /\ water_simulate
                (state_of (Spec.bucket_loop bucket_simulate params tmin tmax
                                            self))
                w (Spec.owned_values params (water_id w)) tmin tmax = Ok w'
           /\ Eag.water (state_of r) = Some w')
    /\ Eag.series (state_of r) = Eag.series self
    /\ Eag.name (state_of r) = Eag.name self
    /\ (forall code r0 rest,
           Spec.rows_with_code params code = r0 :: rest ->
           Eag.parameter_value (state_of r) code = Ok (Waarde (snd r0))).
Proof.
  intros bsim wsim self params tmin tmax. cbv zeta. intros Hret.
  assert (Hc : has_column params "Code" = true).
  { destruct (has_column params "Code") eqn:Hc; [reflexivity|].
    exfalso. revert Hret. unfold Eag.simulate. method_step.
    rewrite (pt_column_missing _ _ _ Hc). discriminate. }
  assert (Hl : has_column params "LaagVolgorde" = true).
  { destruct (has_column params "LaagVolgorde") eqn:Hl; [reflexivity|].
    exfalso. revert Hret. unfold Eag.simulate. method_step.
    rewrite (pt_column_ok _ _ _ Hc). method_step.
    rewrite (pt_column_missing _ _ _ Hl). discriminate. }
  pose proof (simulate_prelude bsim wsim params tmin tmax self Hc Hl) as Hpre.
  destruct (outcome (Spec.bucket_loop bsim params tmin tmax self))
    as [[]|e] eqn:Hloop; [|rewrite Hpre in Hret; discriminate Hret].
  cbv zeta in Hpre.
  assert (Hb : has_column params "Bakjes_ID" = true).
  { destruct (has_column params "Bakjes_ID") eqn:Hb; [reflexivity|].
    exfalso. rewrite Hpre in Hret. revert Hret.
    rewrite pt_column_missing by exact Hb. discriminate. }
  assert (Hb' : has_column (Spec.composite_indexed params) "Bakjes_ID"
                = true) by exact Hb.
  assert (Hw : exists w,
             Eag.water (state_of (Spec.bucket_loop bsim params tmin tmax self))
             = Some w).
  { destruct (Eag.water (state_of (Spec.bucket_loop bsim params tmin tmax
                                                    self))) as [w|] eqn:Ew.
    - now exists w.
    - exfalso. rewrite Hpre in Hret. revert Hret.
      rewrite (pt_column_ok _ _ _ Hb'). method_step. method_step.
      rewrite Ew. discriminate. }
  destruct Hw as [w0 Hw0].
  assert (Hv : has_column params "Waarde" = true).
  { destruct (has_column params "Waarde") eqn:Hv; [reflexivity|].
    exfalso. rewrite Hpre in Hret. revert Hret.
    rewrite (pt_column_ok _ _ _ Hb'). method_step. method_step.
    rewrite Hw0. cbn [of_option]. method_step. cbv zeta.
    rewrite pt_column_missing by exact Hv. discriminate. }
  clear Hpre Hw0 w0 Hb'.
  pose proof (simulate_after_loop bsim wsim params tmin tmax Hb Hv self
                                  Hc Hl Hloop) as Hrun.
  destruct (simulate_buckets_state bsim params tmin tmax Hb Hv
              (Eag.buckets self)
              (Eag.set_parameters (Spec.composite_indexed params) self))
    as (K1 & K2 & K3 & K4).
  { intros kb Hin. change (In (fst kb) (map fst (Eag.buckets self))).
    now apply in_map. }
  fold (Spec.bucket_loop bsim params tmin tmax self) in K1, K2, K3, K4.
  destruct (Eag.water self) as [w|];
    [|rewrite Hrun in Hret; discriminate Hret].
  destruct (wsim (state_of (Spec.bucket_loop bsim params tmin tmax self)) w
                 (Spec.owned_values params (water_id w)) tmin tmax)
    as [w'|e] eqn:Hws; [|rewrite Hrun in Hret; discriminate Hret].
  rewrite Hrun. cbn [state_of fst snd].
  change (Eag.parameters (Eag.set_water (Some w') ?s))
    with (Eag.parameters s).
  change (Eag.buckets (Eag.set_water (Some w') ?s)) with (Eag.buckets s).
  change (Eag.series (Eag.set_water (Some w') ?s)) with (Eag.series s).
  change (Eag.name (Eag.set_water (Some w') ?s)) with (Eag.name s).
  fold (@state_of Eag.t unit (Spec.bucket_loop bsim params tmin tmax self)).
  split.
  { intros c Hin. simpl in Hin.
    destruct Hin as [<-|[<-|[<-|[<-|[]]]]]; assumption. }
  split; [exact K2|]. split; [exact K1|].
  split; [exists w, w'; repeat split; exact Hws|].
  split; [exact K3|]. split; [exact K4|].
  intros code r0 rest Hrows.
  assert (Hpar : Eag.parameters
                   (Eag.set_water (Some w')
                      (state_of (Spec.bucket_loop bsim params tmin tmax self)))
                 = Spec.composite_indexed params) by exact K2.
  apply (parameter_value_first _ code (Spec.composite (snd r0), snd r0)
           (map (fun r => (Spec.composite (snd r), snd r)) rest)).
  - rewrite Hpar. exact Hc.
  - rewrite Hpar. exact Hv.
  - rewrite Hpar, rows_with_code_composite, Hrows. reflexivity.
Qed.

Lemma simulate_leaves_witness :
  Eag.parameter_value
    (state_of (Eag.simulate Examples.still_bucket Examples.still_water
                            Examples.params_twice TNone TNone
                            Examples.unit_wet)) "hTarget"
  = Ok (Examples.q 0).
Proof.
  destruct (simulate_leaves
              Examples.still_bucket Examples.still_water Examples.unit_wet
              Examples.params_twice TNone TNone eq_refl)
    as (_ & _ & _ & _ & _ & _ & H).
  apply (H "hTarget" (LPos 0, Examples.row "hTarget" 0 0 "A")
           [(LPos 1, Examples.row "hTarget" 0 4 "A")]).
  reflexivity.
Defined.

(** ** More on the units of a region *)

Lemma od_set_fresh {V} (d : list (string * V)) (k : string) (v : V) :
  ~ In k (od_keys d) -> od_set String.eqb d k v = d ++ [(k, v)].
Proof.
  unfold od_keys. induction d as [|[k' v'] d IH]; intros Hnot.
  - reflexivity.
  - cbn [od_set app]. destruct (String.eqb k k') eqn:E.
    + apply String.eqb_eq in E. subst k'. exfalso. apply Hnot. now left.
    + rewrite IH; [reflexivity|]. intros Hin. apply Hnot. now right.
Qed.

Lemma init_eags_distinct (l : list Gaf.object)
    (d : list (string * Gaf.object)) :
  forallb Spec.is_eag l = true ->
  NoDup (map Some (od_keys d) ++ map Spec.name_of l) ->
  let r := for_each l Gaf.init_eag d in
  state_of r
  = d ++ map (fun o => (match Spec.name_of o with
                        | Some n => n
                        | None => ""
                        end, o)) l
  /\ events_of r = [].
Proof.
  revert d. induction l as [|o l IH]; intros d Hall Hnd; cbv zeta.
  - cbn. now rewrite app_nil_r.
  - cbn [forallb] in Hall. apply andb_prop in Hall. destruct Hall as [Ho Hall].
    destruct o as [e|n]; [|discriminate Ho].
    rewrite for_each_cons.
    change (Gaf.init_eag (Gaf.AnEag e) d)
      with (@Ok unit tt, od_set String.eqb d (Eag.name e) (Gaf.AnEag e),
            @nil event).
    cbn [outcome state_of events_of fst snd app].
    assert (Hfresh : ~ In (Eag.name e) (od_keys d)).
    { intros Hin. cbn [map Spec.name_of] in Hnd.
      apply NoDup_remove_2 in Hnd. apply Hnd. apply in_or_app. left.
      now apply in_map. }
    rewrite (od_set_fresh d _ _ Hfresh).
    destruct (IH (d ++ [(Eag.name e, Gaf.AnEag e)]) Hall) as [Hs Hev].
    { unfold od_keys. rewrite map_app, map_app. cbn [map fst].
      rewrite <- app_assoc. cbn [app].
      cbn [map Spec.name_of] in Hnd. exact Hnd. }
    cbv zeta in Hs, Hev.
    rewrite Hs, Hev. rewrite <- app_assoc. split; reflexivity.
Qed.

(** X13.  A region constructed from a list of EAGs with different names
    gives the list back: [get_eags] returns the units of the list, in
    the order of the list, the names are the keys in that order, and
    nothing is printed. *)
Theorem init_get_eags_round_trip :
  forall (id : option Z) (name : string) (l : list Gaf.object)
         (series : option DataFrame),
    forallb Spec.is_eag l = true ->
    NoDup (map Spec.name_of l) ->
    Gaf.get_eags (fst (Gaf.init id name l series)) = l
    /\ map Some (od_keys (Gaf.eags (fst (Gaf.init id name l series))))
       = map Spec.name_of l
    /\ snd (Gaf.init id name l series) = [].
Proof.
  intros id name l series Hall Hnd.
  destruct (init_eags_distinct l [] Hall Hnd) as [Hs Hev].
  cbv zeta in Hs, Hev. unfold Gaf.init, Gaf.get_eags.
  cbn [fst snd Gaf.eags]. rewrite Hs, Hev. cbn [app].
  unfold od_values, od_keys. rewrite !map_map. cbn [fst snd].
  split; [apply map_id|]. split; [|reflexivity].
  apply map_ext_in. intros o Hin.
  rewrite forallb_forall in Hall. specialize (Hall o Hin).
  destruct o as [e|n]; [reflexivity | discriminate Hall].
Qed.

Lemma init_get_eags_round_trip_witness :
  Gaf.get_eags Examples.region
  = [Gaf.AnEag Examples.unit_wet; Gaf.AnEag Examples.unit_B].
Proof.
  apply (init_get_eags_round_trip
           (Some 1) "Gaf"
           [Gaf.AnEag Examples.unit_wet; Gaf.AnEag Examples.unit_B] None).
  - reflexivity.
  - cbn. repeat constructor; cbn; intuition discriminate.
Defined.

(** X14.  [add_eag] has no check of what it is given, unlike the
    constructor: any object with a name is stored under that name,
    nothing is printed, a name that is new goes to the end of the keys
    and a name that is a key keeps its place; an object without a name
    raises AttributeError and leaves the region as it was. *)
Theorem add_eag_takes_any_object :
  forall (self : Gaf.t) (o : Gaf.object),
    (forall n, Spec.name_of o = Some n ->
       let r := Gaf.add_eag o self in
       outcome r = Ok tt
       /\ events_of r = []
       /\ od_get String.eqb (Gaf.eags (state_of r)) n = Some o
       /\ od_keys (Gaf.eags (state_of r))
          = Spec.keys_set (od_keys (Gaf.eags self)) n
       /\ In o (Gaf.get_eags (state_of r)))
    /\ (Spec.name_of o = None ->
        Gaf.add_eag o self = (Raise AttributeError, self, [])).
Proof.
  intros self o. split.
  - intros n Hn. cbv zeta.
    assert (Hrun : Gaf.add_eag o self
                   = (Ok tt,
                      Gaf.set_eags (od_set String.eqb (Gaf.eags self) n o)
                                   self, [])).
    { unfold Gaf.add_eag. method_step.
      destruct o as [e|[m|]]; cbn [Spec.name_of] in Hn;
        try discriminate Hn; injection Hn as <-;
        cbn [of_option]; method_step; reflexivity. }
    rewrite Hrun. cbn [outcome state_of events_of fst snd Gaf.eags
                       Gaf.set_eags].
    split; [reflexivity|]. split; [reflexivity|].
    split; [apply (od_get_set_same String.eqb Seqb_eq')|].
    split; [apply od_set_keys_exact|].
    unfold Gaf.get_eags. cbn [Gaf.eags].
    change o with (snd (n, o)). unfold od_values. apply in_map.
    apply (od_get_some_in String.eqb Seqb_eq').
    apply (od_get_set_same String.eqb Seqb_eq').
  - intros Hn. destruct o as [e|[m|]]; try discriminate Hn.
    unfold Gaf.add_eag. method_step. reflexivity.
Qed.

Lemma add_eag_takes_any_object_witness :
  In (Gaf.Other (Some "C"))
     (Gaf.get_eags
        (state_of (Gaf.add_eag (Gaf.Other (Some "C")) Examples.region)))
  /\ Gaf.add_eag (Gaf.Other None) Examples.region
     = (Raise AttributeError, Examples.region, []).
Proof.
  destruct (add_eag_takes_any_object Examples.region (Gaf.Other (Some "C")))
    as [Hnamed _].
  destruct (add_eag_takes_any_object Examples.region (Gaf.Other None))
    as [_ Hnone].
  split.
  - apply (Hnamed "C" eq_refl).
  - apply Hnone. reflexivity.
Defined.

Lemma od_set_head {V} (k : string) (v : V) (rest : list (string * V)) :
  od_set String.eqb ((k, v) :: rest) k v = (k, v) :: rest.
Proof. cbn [od_set]. now rewrite String.eqb_refl. Qed.

(** X15.  [add_series] fails on every region that has a unit: after the
    rows of the first unit are selected, the call [eag.add_series(...)]
    raises AttributeError, for the class [Eag] defines no [add_series];
    when the selection itself raises, that exception is the outcome.  In
    both cases the region is as it was, nothing is printed and the other
    units are not visited. *)
Theorem add_series_always_raises :
  forall (SeriesTable : Type) (select : string -> result SeriesTable)
         (self : Gaf.t) (key : string) (o : Gaf.object)
         (rest : list (string * Gaf.object)),
    Gaf.eags self = (key, o) :: rest ->
    Gaf.add_series SeriesTable select self
    = (Raise (match select key with
              | Ok _ => AttributeError
              | Raise e => e
              end), self, []).
Proof.
  intros T select self key o rest Heags.
  unfold Gaf.add_series. method_step. rewrite Heags, for_each_cons.
  unfold Gaf.add_series_eag. cbn [fst].
  destruct (select key) as [tbl|e]; [|reflexivity].
  method_step.
  assert (H : Gaf.on_eag key (Eag.call_method "add_series") self
              = (Raise AttributeError, self, [])).
  { destruct self as [id name eags data ps series].
    cbn [Gaf.eags] in Heags. subst eags.
    unfold Gaf.on_eag. cbn [Gaf.eags od_get].
    rewrite String.eqb_refl.
    destruct o as [e|n]; [|reflexivity].
    change (Eag.call_method "add_series" e)
      with (@Raise unit AttributeError, e, @nil event).
    cbv iota beta. unfold Gaf.set_eags.
    cbn [Gaf.eags Gaf.id Gaf.name Gaf.data Gaf.parameters Gaf.series].
    rewrite od_set_head. reflexivity. }
  rewrite H. reflexivity.
Qed.

Lemma add_series_always_raises_witness :
  Gaf.add_series unit (fun _ => Ok tt) Examples.region
  = (Raise AttributeError, Examples.region, []).
Proof.
  apply (add_series_always_raises
           unit (fun _ => Ok tt) Examples.region "A"
           (Gaf.AnEag Examples.unit_wet)
           [("B", Gaf.AnEag Examples.unit_B)]).
  reflexivity.
Defined.

(** ** More on [load_series_from_gaf] *)

Lemma load_series_run (self : Eag.t) (g : Eag.GafView)
    (prec : Series time num) :
  Eag.gaf self = Some g ->
  df_getitem (Eag.gaf_series g) "prec" = Ok prec ->
  Eag.load_series_from_gaf self
  = (Ok tt,
     Eag.set_series
       (df_setitem (df_setitem (Eag.series self) "prec" prec) "evap" prec)
       self, []).
Proof.
  intros Hg Hprec. unfold Eag.load_series_from_gaf.
  method_step. rewrite Hg. cbn [of_option]. method_step.
  rewrite Hprec. do 3 method_step.
  cbn [Eag.gaf Eag.set_series]. rewrite Hg. cbn [of_option].
  method_step. rewrite Hprec. method_step. reflexivity.
Qed.

Lemma df_getcol_missing (df : DataFrame) (name : string) :
  ~ In name (map fst (df_columns df)) -> df_getcol df name = Raise KeyError.
Proof.
  intros Hnot. unfold df_getcol.
  destruct (od_get String.eqb (df_columns df) name) as [v|] eqn:E;
    [|reflexivity].
  exfalso. apply Hnot. apply od_get_in_keys. now exists v.
Qed.

(** X16.  [load_series_from_gaf] on a unit that is attached to no region
    raises AttributeError, and on a unit whose region has no series
    "prec" it raises KeyError; in both cases the unit is as it was, its
    series included. *)
Theorem load_series_from_gaf_errors :
  forall self : Eag.t,
    (Eag.gaf self = None ->
     Eag.load_series_from_gaf self = (Raise AttributeError, self, []))
    /\ (forall g, Eag.gaf self = Some g ->
          ~ In "prec" (map fst (df_columns (Eag.gaf_series g))) ->
          Eag.load_series_from_gaf self = (Raise KeyError, self, [])).
Proof.
  intros self. split.
  - intros Hg. unfold Eag.load_series_from_gaf. method_step.
    rewrite Hg. reflexivity.
  - intros g Hg Hnot. unfold Eag.load_series_from_gaf. method_step.
    rewrite Hg. cbn [of_option]. method_step.
    unfold df_getitem. rewrite (df_getcol_missing _ _ Hnot). reflexivity.
Qed.

Lemma load_series_from_gaf_errors_witness :
  Eag.load_series_from_gaf Examples.unit_B
  = (Raise AttributeError, Examples.unit_B, [])
  /\ Eag.load_series_from_gaf
       (Spec.attached (Eag.mkGafView df_empty) Examples.unit_B)
     = (Raise KeyError,
        Spec.attached (Eag.mkGafView df_empty) Examples.unit_B, []).
Proof.
  destruct (load_series_from_gaf_errors Examples.unit_B) as [Hnone _].
  destruct (load_series_from_gaf_errors
              (Spec.attached (Eag.mkGafView df_empty) Examples.unit_B))
    as [_ Hsome].
  split.
  - apply Hnone. reflexivity.
  - apply (Hsome (Eag.mkGafView df_empty) eq_refl). intros [].
Defined.

(** X17.  A unit constructed without series and attached to a region takes
    over the time index of the region: after [load_series_from_gaf] its
    series are the index of the region with the two columns "prec" and
    "evap", both the "prec" column of the region. *)
Theorem load_series_from_gaf_new_unit :
  forall (id : option Z) (name : string) (g : Eag.GafView) (v : list num),
    df_getcol (Eag.gaf_series g) "prec" = Ok v ->
    List.length v = List.length (df_index (Eag.gaf_series g)) ->
    let self := Eag.init id name (Some g) None in
    Eag.load_series_from_gaf self
    = (Ok tt,
       Eag.set_series
         (mkDF (df_index (Eag.gaf_series g)) [("prec", v); ("evap", v)])
         self, []).
Proof.
  intros id name g v Hv Hlen. cbv zeta.
  assert (Hprec : df_getitem (Eag.gaf_series g) "prec"
                  = Ok (combine (df_index (Eag.gaf_series g)) v))
    by (unfold df_getitem; now rewrite Hv).
  rewrite (load_series_run (Eag.init id name (Some g) None) g _
                           eq_refl Hprec).
  apply f_equal2; [|reflexivity]. apply f_equal2; [reflexivity|].
  apply (f_equal (fun s => Eag.set_series s _)).
  cbn [Eag.series Eag.init].
  assert (Hix : sr_index (combine (df_index (Eag.gaf_series g)) v)
                = df_index (Eag.gaf_series g))
    by (apply map_fst_combine_eq; now symmetry).
  assert (Hval : sr_values (combine (df_index (Eag.gaf_series g)) v) = v)
    by (apply map_snd_combine_eq; now symmetry).
  unfold df_setitem at 2. cbn [df_index df_columns df_empty map od_set].
  rewrite Hix, Hval.
  unfold df_setitem. cbn [df_index df_columns].
  destruct (df_index (Eag.gaf_series g)) as [|t ix] eqn:E.
  - destruct v; [reflexivity | discriminate Hlen].
  - rewrite Hix, index_eqb_refl, Hval. reflexivity.
Qed.

Lemma load_series_from_gaf_new_unit_witness :
  Eag.load_series_from_gaf
    (Eag.init (Some 1) "A" (Some (Eag.mkGafView (Examples.gaf_series 5)))
              None)
  = (Ok tt,
     Eag.set_series
       (mkDF [1; 2] [("prec", [Examples.q 3; Examples.q 4]);
                     ("evap", [Examples.q 3; Examples.q 4])])
       (Eag.init (Some 1) "A" (Some (Eag.mkGafView (Examples.gaf_series 5)))
                 None), []).
Proof.
  apply (load_series_from_gaf_new_unit
           (Some 1) "A" (Eag.mkGafView (Examples.gaf_series 5))
           [Examples.q 3; Examples.q 4]); reflexivity.
Defined.

Lemma sr_reindex_own (s : Series time num) :
  NoDup (sr_index s) -> sr_reindex s (sr_index s) = sr_values s.
Proof.
  intros Hnd. unfold sr_reindex, sr_index, sr_values. rewrite map_map.
  apply map_ext_in. intros [l v] Hin. cbn [fst snd].
  now rewrite (sr_loc_nodup s l v Hnd Hin).
Qed.

(** X18.  A unit whose series have rows keeps its own time index and its
    other columns in [load_series_from_gaf]: "prec" and "evap" get, at
    every label of the unit, the value the "prec" of the region has at
    that label, and NaN where the region has no such label. *)
Theorem load_series_from_gaf_by_label :
  forall (self : Eag.t) (g : Eag.GafView) (prec : Series time num)
         (t : time) (ix : list time),
    Eag.gaf self = Some g ->
    df_getitem (Eag.gaf_series g) "prec" = Ok prec ->
    NoDup (sr_index prec) ->
    df_index (Eag.series self) = t :: ix ->
    let s' := Eag.series (state_of (Eag.load_series_from_gaf self)) in
    df_index s' = t :: ix
    /\ df_getcol s' "prec" = Ok (sr_reindex prec (t :: ix))
    /\ df_getcol s' "evap" = Ok (sr_reindex prec (t :: ix))
    /\ (forall c, c <> "prec" -> c <> "evap" ->
                  df_getcol s' c = df_getcol (Eag.series self) c).
Proof.
  intros self g prec t ix Hg Hprec Hnd Hix. cbv zeta.
  rewrite (load_series_run self g prec Hg Hprec).
  cbn [state_of fst snd Eag.series Eag.set_series].
  assert (Hcol : (if index_eqb (sr_index prec) (t :: ix)
                  then sr_values prec else sr_reindex prec (t :: ix))
                 = sr_reindex prec (t :: ix)).
  { destruct (index_eqb (sr_index prec) (t :: ix)) eqn:E; [|reflexivity].
    apply index_eqb_eq in E. rewrite <- E. symmetry.
    now apply sr_reindex_own. }
  destruct (Eag.series self) as [ix0 cols].
  cbn [df_index] in Hix. subst ix0.
  unfold df_setitem. cbn [df_index df_columns]. rewrite Hcol.
  unfold df_getcol. cbn [df_columns].
  split; [reflexivity|]. split; [|split].
  - rewrite (od_get_set_other String.eqb Seqb_eq') by discriminate.
    now rewrite (od_get_set_same String.eqb Seqb_eq').
  - now rewrite (od_get_set_same String.eqb Seqb_eq').
  - intros c Hp He.
    rewrite (od_get_set_other String.eqb Seqb_eq') by congruence.
    now rewrite (od_get_set_other String.eqb Seqb_eq') by congruence.
Qed.

Lemma load_series_from_gaf_by_label_witness :
  df_getcol
    (Eag.series
       (state_of
          (Eag.load_series_from_gaf
             (Eag.init (Some 1) "A"
                       (Some (Eag.mkGafView (Examples.gaf_series 5)))
                       (Some (mkDF [2; 3] []))))))
    "prec"
  = Ok (sr_reindex [(1, Examples.q 3); (2, Examples.q 4)] [2; 3]).
Proof.
  destruct (load_series_from_gaf_by_label
              (Eag.init (Some 1) "A"
                        (Some (Eag.mkGafView (Examples.gaf_series 5)))
                        (Some (mkDF [2; 3] [])))
              (Eag.mkGafView (Examples.gaf_series 5))
              [(1, Examples.q 3); (2, Examples.q 4)] 2 [3])
    as (_ & H & _).
  - reflexivity.
  - reflexivity.
  - cbn. repeat constructor; cbn; intuition discriminate.
  - reflexivity.
  - exact H.
Defined.

(** ** More on [calculate_chloride_concentration] *)

Lemma sr_loc_missing (s : Series time num) (t : time) :
  ~ In t (sr_index s) -> sr_loc s t = Raise KeyError.
Proof.
  unfold sr_index. induction s as [|[l v] s IH]; intros Hnot.
  - reflexivity.
  - cbn [sr_loc]. destruct (l =? t) eqn:E.
    + apply Z.eqb_eq in E. subst. exfalso. apply Hnot. now left.
    + apply IH. intros Hin. apply Hnot. now right.
Qed.

Lemma chloride_loop_missing_label (fl : DataFrame) (w : Water)
    (ts : list time) :
  (forall c, In c Spec.categories -> In c (map fst (df_columns fl))) ->
  NoDup (df_index fl) ->
  (forall t, In t ts -> In t (df_index fl)) ->
  (exists t, In t ts /\ ~ In t (sr_index (storage w))) ->
  forall st,
    Eag.chloride_loop
      fl (df_sum_rows (Spec.selection fl ["intrek"; "uitlaat"; "wegzijging"]))
      w st ts
    = Raise KeyError.
Proof.
  intros Hcat Hnd.
  induction ts as [|t0 ts IH]; intros Hix (t & Hin & Hnot) st.
  - destruct Hin.
  - destruct (index_of_some t0 _ (Hix t0 (or_introl eq_refl)))
      as (i & Hi & _).
    cbn [Eag.chloride_loop].
    destruct (sr_loc (storage w) t0) as [s|e] eqn:Hs.
    + rewrite (chloride_step_ok fl w Hcat st t0 i s Hi
                                (ix_repeated_nodup t0 _ Hnd) Hs).
      cbn [rbind].
      apply IH.
      * intros t' Ht'. apply Hix. now right.
      * exists t. split; [|exact Hnot].
        destruct Hin as [<-|Hin]; [|exact Hin].
        exfalso. rewrite (sr_loc_missing _ _ Hnot) in Hs. discriminate Hs.
    + assert (He : e = KeyError).
      { clear - Hs. induction (storage w) as [|[l v] s IH].
        - cbn in Hs. congruence.
        - cbn [sr_loc] in Hs. destruct (l =? t0); [discriminate Hs|].
          now apply IH. }
      subst e. unfold Eag.chloride_step.
      rewrite (df_loc_row_ok fl t0 i _ Hi)
        by (intros c Hc; apply Hcat; cbn in Hc; cbn; intuition).
      cbn [rbind]. rewrite (V_out_loc fl t0 i Hi). cbn [rbind].
      rewrite (ix_repeated_nodup t0 _ Hnd). cbn [rbind].
      rewrite Hs. reflexivity.
Qed.

(** X19.  When the storage of the water has no value at some label of the
    time index of the fluxes, no label being twice in that index or in
    the storage, [calculate_chloride_concentration] raises KeyError, at
    [self.water.storage.loc[t]], whatever the fluxes and the parameters
    are. *)
Theorem chloride_storage_label_missing :
  forall (self : Eag.t) (fl : DataFrame) (w : Water) (hTarget hBottom : num)
         (t : time),
    Eag.aggregate_fluxes self = Ok fl ->
    Eag.parameter_value self "hTarget" = Ok hTarget ->
    Eag.parameter_value self "hBottom" = Ok hBottom ->
    Eag.water self = Some w ->
    NoDup (df_index fl) ->
    NoDup (sr_index (storage w)) ->
    In t (df_index fl) ->
    ~ In t (sr_index (storage w)) ->
    Eag.calculate_chloride_concentration self = Raise KeyError.
Proof.
  intros self fl w hT hB t Hfl HT HB Hw Hnd _ Hin Hnot.
  destruct (chloride_concentration_run self fl w hT hB Hfl HT HB Hw)
    as [Hrun Hcat].
  rewrite Hrun.
  rewrite (chloride_loop_missing_label fl w (df_index fl) Hcat Hnd
             (fun t' H => H) (ex_intro _ t (conj Hin Hnot))).
  reflexivity.
Qed.

Lemma chloride_storage_label_missing_witness :
  Eag.calculate_chloride_concentration Examples.unit_short_storage
  = Raise KeyError.
Proof.
  apply (chloride_storage_label_missing
           Examples.unit_short_storage Examples.aggregated_wet
           Examples.water_short (Examples.q 0) (Examples.q (-1)) 2);
    try reflexivity.
  - cbn. repeat constructor; cbn; intuition discriminate.
  - cbn. repeat constructor; cbn; intuition discriminate.
  - cbn. auto.
  - cbn. intros [H|[]]. discriminate H.
Defined.

Lemma ix_union_in_r (a b : list time) (x : time) :
  In x b -> In x (ix_union a b).
Proof.
  intros Hx. unfold ix_union.
  destruct a as [|t a]; [exact Hx|].
  destruct b as [|u b]; [contradiction|].
  assert (G : forall l, In x l -> In x (fold_right ix_insert [] l)).
  { induction l as [|y l IH]; [contradiction|].
    cbn [fold_right]. intros [->|H]; apply ix_insert_in; [now left|].
    right. now apply IH. }
  apply G. apply in_or_app. now right.
Qed.

Lemma sr_loc_over_index (g : time -> num) (ix : list time) (t : time) :
  In t ix -> sr_loc (combine ix (map g ix)) t = Ok (g t).
Proof.
  intros Hin.
  destruct (sr_loc_in (combine ix (map g ix)) t) as [c Hc].
  { unfold sr_index. rewrite map_fst_combine_eq; [exact Hin|].
    now rewrite length_map. }
  rewrite Hc. f_equal. exact (sr_loc_map_index g ix t c Hc).
Qed.

(** The quotient of two Series at a label that only the divisor has. *)
Lemma sr_div_only_right (a b : Series time num) (t : time) :
  In t (sr_index b) -> ~ In t (sr_index a) ->
  sr_loc (sr_div a b) t = Ok NaN.
Proof.
  intros Hb Ha. unfold sr_div.
  destruct (index_eqb (sr_index a) (sr_index b)) eqn:E.
  - apply index_eqb_eq in E. exfalso. apply Ha. now rewrite E.
  - cbv zeta. unfold sr_reindex. rewrite map_combine_maps.
    rewrite sr_loc_over_index by now apply ix_union_in_r.
    cbn [fst snd]. now rewrite (sr_loc_missing a t Ha).
Qed.

(** X20.  When the storage of the water has a value at every label of the
    time index of the fluxes and at other labels as well, no label being
    twice in that index or in the storage,
    [calculate_chloride_concentration] returns: the Series has a value
    at every label of the fluxes, and NaN at every label that only the
    storage has. *)
Theorem chloride_storage_longer :
  forall (self : Eag.t) (fl : DataFrame) (w : Water) (hTarget hBottom : num),
    Eag.aggregate_fluxes self = Ok fl ->
    Eag.parameter_value self "hTarget" = Ok hTarget ->
    Eag.parameter_value self "hBottom" = Ok hBottom ->
    Eag.water self = Some w ->
    NoDup (df_index fl) ->
    NoDup (sr_index (storage w)) ->
    (forall t, In t (df_index fl) -> In t (sr_index (storage w))) ->
    exists C,
      Eag.calculate_chloride_concentration self = Ok C
      /\ (forall t, In t (df_index fl) -> exists c, sr_loc C t = Ok c)
      /\ (forall t, In t (sr_index (storage w)) -> ~ In t (df_index fl) ->
                    sr_loc C t = Ok NaN).
Proof.
  intros self fl w hT hB Hfl HT HB Hw Hnd _ Hsub.
  destruct (chloride_concentration_run self fl w hT hB Hfl HT HB Hw)
    as [Hrun Hcat].
  destruct (chloride_loop_ok fl w Hcat (df_index fl)
              (Eag.mkLoop (Spec.initial_mass hT hB w) (of_Z 90)
                          (sr_nan (df_index fl))) Hnd)
    as (st' & Hloop & Hlab).
  { intros t Ht. split; [exact Ht | now apply Hsub]. }
  assert (Hmass : sr_index (Eag.loop_Mass st') = df_index fl).
  { rewrite Hlab. cbn [Eag.loop_Mass]. unfold sr_index, sr_nan.
    rewrite map_map. cbn [fst]. apply map_id. }
  exists (sr_div (Eag.loop_Mass st') (storage w)).
  split; [rewrite Hrun, Hloop; reflexivity|]. split.
  - intros t Ht. apply sr_div_in. now rewrite Hmass.
  - intros t Hst Hnot. apply sr_div_only_right; [exact Hst|].
    now rewrite Hmass.
Qed.

Lemma chloride_storage_longer_witness :
  exists C,
    Eag.calculate_chloride_concentration Examples.unit_long_storage = Ok C
    /\ sr_loc C 3 = Ok NaN.
Proof.
  destruct (chloride_storage_longer
              Examples.unit_long_storage Examples.aggregated_wet
              Examples.water_long (Examples.q 0) (Examples.q (-1))
              eq_refl eq_refl eq_refl eq_refl)
    as (C & HC & _ & Hnan).
  - cbn. repeat constructor; cbn; intuition discriminate.
  - cbn. repeat constructor; cbn; intuition discriminate.
  - cbn. intuition.
  - exists C. split; [exact HC|]. apply Hnan.
    + cbn. auto.
    + cbn. intros [H|[H|[]]]; discriminate H.
Defined.

(** *** A label that the time index has twice *)

Lemma ix_repeated_in (t : time) (ix : list time) :
  ix_repeated t ix = true -> In t ix.
Proof.
  unfold ix_repeated. intros H. apply Nat.ltb_lt in H.
  destruct (filter (Z.eqb t) ix) as [|x l] eqn:E; [cbn in H; lia|].
  assert (Hx : In x (filter (Z.eqb t) ix)) by (rewrite E; now left).
  apply filter_In in Hx. destruct Hx as [Hx Heq].
  apply Z.eqb_eq in Heq. now subst.
Qed.

Lemma chloride_loop_repeated_label (fl : DataFrame) (w : Water)
    (pre post : list time) (t : time) :
  (forall c, In c Spec.categories -> In c (map fst (df_columns fl))) ->
  (forall u, In u pre ->
             In u (df_index fl)
             /\ ix_repeated u (df_index fl) = false
             /\ In u (sr_index (storage w))) ->
  ix_repeated t (df_index fl) = true ->
  forall st,
    Eag.chloride_loop
      fl (df_sum_rows (Spec.selection fl ["intrek"; "uitlaat"; "wegzijging"]))
      w st (pre ++ t :: post)
    = Raise ValueError.
Proof.
  intros Hcat. induction pre as [|u pre IH]; intros Hpre Ht st.
  - cbn [app Eag.chloride_loop]. unfold Eag.chloride_step.
    destruct (index_of_some t _ (ix_repeated_in t _ Ht)) as (i & Hi & _).
    rewrite (df_loc_row_ok fl t i _ Hi)
      by (intros c Hc; apply Hcat; cbn in Hc; cbn; intuition).
    cbn [rbind]. rewrite (V_out_loc fl t i Hi). cbn [rbind].
    rewrite Ht. reflexivity.
  - destruct (Hpre u (or_introl eq_refl)) as (Hix & Hone & Hst).
    destruct (index_of_some u _ Hix) as (i & Hi & _).
    destruct (sr_loc_in _ _ Hst) as [s Hs].
    cbn [app Eag.chloride_loop].
    rewrite (chloride_step_ok fl w Hcat st u i s Hi Hone Hs). cbn [rbind].
    apply IH; [|exact Ht].
    intros u' Hu'. apply Hpre. now right.
Qed.

(** X23.  When the time index of the fluxes has a label twice,
    [calculate_chloride_concentration] raises ValueError, at
    [Mass.loc[t] = M] in the turn of the first such label, whatever the
    storage is from that label on: the labels before it are there once,
    and the storage has them once. *)
Theorem chloride_repeated_label :
  forall (self : Eag.t) (fl : DataFrame) (w : Water) (hTarget hBottom : num)
         (pre post : list time) (t : time),
    Eag.aggregate_fluxes self = Ok fl ->
    Eag.parameter_value self "hTarget" = Ok hTarget ->
    Eag.parameter_value self "hBottom" = Ok hBottom ->
    Eag.water self = Some w ->
    df_index fl = pre ++ t :: post ->
    (forall u, In u pre ->
               ix_repeated u (df_index fl) = false
               /\ In u (sr_index (storage w))
               /\ ix_repeated u (sr_index (storage w)) = false) ->
    ix_repeated t (df_index fl) = true ->
    Eag.calculate_chloride_concentration self = Raise ValueError.
Proof.
  intros self fl w hT hB pre post t Hfl HT HB Hw Hix Hpre Ht.
  destruct (chloride_concentration_run self fl w hT hB Hfl HT HB Hw)
    as [Hrun Hcat].
  rewrite Hrun. rewrite Hix at 2.
  rewrite (chloride_loop_repeated_label fl w pre post t Hcat); [reflexivity| |].
  - intros u Hu. destruct (Hpre u Hu) as (H1 & H2 & _).
    split; [|split; assumption].
    rewrite Hix. apply in_or_app. now left.
  - exact Ht.
Qed.

Lemma chloride_repeated_label_witness :
  df_index (fluxes Examples.water_repeated) = [1; 1]
  /\ Eag.calculate_chloride_concentration Examples.unit_repeated
     = Raise ValueError.
Proof.
  split; [reflexivity|].
  apply (chloride_repeated_label
           Examples.unit_repeated
           (mkDF [1; 1] (df_columns Examples.aggregated_wet))
           Examples.water_repeated (Examples.q 0) (Examples.q (-1))
           [] [1] 1);
    try reflexivity.
  intros u [].
Defined.

(** *** A water without fluxes *)

Lemma sum_stands_for_zero (xs : list num) :
  Forall (fun x => Spec.stands_for x 0) xs -> Spec.stands_for (sum xs) 0.
Proof.
  unfold sum.
  assert (G : forall acc, Spec.stands_for acc 0 ->
              Forall (fun x => Spec.stands_for x 0) xs ->
              Spec.stands_for (fold_left add xs acc) 0).
  { induction xs as [|x xs IH]; intros acc Hacc Hall; [exact Hacc|].
    inversion Hall as [|? ? Hx Hxs]; subst. cbn [fold_left].
    apply IH; [|exact Hxs].
    destruct Hacc as (a & -> & Ha). destruct Hx as (b & -> & Hb).
    exists (a + b)%Q. split; [reflexivity|]. rewrite Ha, Hb. reflexivity. }
  intros Hall. apply G; [|exact Hall].
  exists (inject_Z 0). split; reflexivity.
Qed.

Section ClosedWater.
Variables (fl : DataFrame) (w : Water).
Hypothesis no_flux :
  forall t c, In t (df_index fl) -> In c Spec.categories ->
              Spec.stands_for (Spec.flux fl t c) 0.
Hypothesis some_storage :
  forall t, In t (df_index fl) ->
            is_finite (Spec.storage_at w t) = true
            /\ is_zero (Spec.storage_at w t) = false.

Lemma mass_in_closed (t : time) :
  In t (df_index fl) -> Spec.stands_for (Spec.mass_in fl t) 0.
Proof.
  intros Ht. unfold Spec.mass_in. apply sum_stands_for_zero.
  apply Forall_forall. intros x Hx. apply in_map_iff in Hx.
  destruct Hx as ([c z] & <- & Hc). cbn [fst snd].
  destruct (no_flux t c Ht) as (a & -> & Ha).
  { cbn in Hc. cbn. intuition congruence. }
  exists (a * inject_Z z)%Q. split; [reflexivity|]. rewrite Ha. ring.
Qed.

Lemma outgoing_volume_closed (t : time) :
  In t (df_index fl) -> Spec.stands_for (Spec.outgoing_volume fl t) 0.
Proof.
  intros Ht. unfold Spec.outgoing_volume. apply sum_stands_for_zero.
  repeat constructor; apply no_flux; try exact Ht; cbn; intuition.
Qed.

(** Without fluxes every mass of the recurrence is the mass before
    it. *)
Lemma masses_closed (m : Q) (ts : list time) :
  (forall t, In t ts -> In t (df_index fl)) ->
  forall M C,
    Spec.stands_for M m -> is_finite C = true ->
    Forall (fun x => Spec.stands_for x m) (Spec.masses fl w M C ts).
Proof.
  induction ts as [|t ts IH]; intros Hts M C HM HC; [constructor|].
  assert (Ht : In t (df_index fl)) by (apply Hts; now left).
  cbn [Spec.masses]. cbv zeta.
  destruct HM as (a & -> & Ha).
  destruct C as [c| | |]; try discriminate HC.
  destruct (mass_in_closed t Ht) as (b & -> & Hb).
  destruct (outgoing_volume_closed t Ht) as (v & -> & Hv).
  cbn [add mul].
  assert (Hm : Spec.stands_for (Fin (a + b + v * c)) m).
  { exists (a + b + v * c)%Q. split; [reflexivity|].
    rewrite Ha, Hb, Hv. ring. }
  constructor; [exact Hm|].
  apply IH; [intros t' Ht'; apply Hts; now right | exact Hm |].
  destruct (some_storage t Ht) as [Hfin Hnz].
  destruct (Spec.storage_at w t) as [s| | |]; try discriminate Hfin.
  cbn [is_zero] in Hnz. cbn [div]. rewrite Hnz. reflexivity.
Qed.
End ClosedWater.

Lemma sr_loc_ok_in (s : Series time num) (t : time) (c : num) :
  sr_loc s t = Ok c -> In (t, c) s.
Proof.
  induction s as [|[l v] s IH]; [discriminate|].
  cbn [sr_loc]. destruct (l =? t) eqn:E.
  - apply Z.eqb_eq in E. subst. intros [= ->]. now left.
  - intros H. right. now apply IH.
Qed.

(** The method on a populated table, with the parameters as the method
    looks them up. *)
Lemma chloride_run_spec (self : Eag.t) (fl : DataFrame) (w : Water)
    (hTarget hBottom : num) :
  Eag.aggregate_fluxes self = Ok fl ->
  Spec.populated fl = true ->
  Eag.parameter_value self "hTarget" = Ok hTarget ->
  Eag.parameter_value self "hBottom" = Ok hBottom ->
  Eag.water self = Some w ->
  sr_index (storage w) = df_index fl ->
  NoDup (df_index fl) ->
  Eag.calculate_chloride_concentration self
  = Ok (Spec.chloride fl w hTarget hBottom).
Proof.
  intros Hfl Hpop HT HB Hw Hix Hnd.
  destruct (chloride_concentration_run self fl w hTarget hBottom
                                       Hfl HT HB Hw) as [Hrun Hcat].
  rewrite Hrun.
  destruct (chloride_loop_spec
              fl w (df_index fl) Hcat Hpop Hnd
              (fun t Ht => conj Ht (eq_ind_r (fun ix => In t ix) Ht Hix))
              (Spec.initial_mass hTarget hBottom w)
              (of_Z 90) (sr_nan (df_index fl)))
    as (M' & C' & Hloop).
  rewrite Hloop. cbn [rbind Eag.loop_Mass].
  set (ms := Spec.masses fl w _ _ _).
  assert (Hlen : List.length ms = List.length (df_index fl))
    by apply masses_length.
  pose proof (set_all_nan (df_index fl) Hnd ms [] Hlen
                          (fun t _ (F : In t []) => F)) as Hset.
  cbn [app] in Hset. rewrite Hset. rewrite sr_div_same_index.
  - reflexivity.
  - unfold sr_index at 1. rewrite map_fst_combine_eq by now symmetry.
    now symmetry.
  - now rewrite Hix.
Qed.

(** X21.  Conservation of the chloride mass.  When every aggregated flux
    is zero at every time step, and the storage is finite and not zero,
    the mass in the water stays the initial mass
    [90 * ((hTarget - hBottom) * area)]: the concentration the method
    returns at a time step is the initial mass divided by the storage of
    that time step. *)
Theorem chloride_mass_is_conserved :
  forall (self : Eag.t) (fl : DataFrame) (w : Water) (hTarget hBottom : num),
    Eag.aggregate_fluxes self = Ok fl ->
    Spec.populated fl = true ->
    Eag.parameter_value self "hTarget" = Ok hTarget ->
    Eag.parameter_value self "hBottom" = Ok hBottom ->
    Eag.water self = Some w ->
    sr_index (storage w) = df_index fl ->
    NoDup (df_index fl) ->
    is_finite (Spec.initial_mass hTarget hBottom w) = true ->
    (forall t c, In t (df_index fl) -> In c Spec.categories ->
                 Spec.stands_for (Spec.flux fl t c) 0) ->
    (forall t, In t (df_index fl) ->
               is_finite (Spec.storage_at w t) = true
               /\ is_zero (Spec.storage_at w t) = false) ->
    exists C,
      Eag.calculate_chloride_concentration self = Ok C
      /\ forall t, In t (df_index fl) ->
           exists c, sr_loc C t = Ok c
                     /\ (c == Spec.initial_mass hTarget hBottom w
                              / Spec.storage_at w t)%num.
Proof.
  intros self fl w hT hB Hfl Hpop HT HB Hw Hix Hnd Hfin Hflux Hstor.
  exists (Spec.chloride fl w hT hB).
  split; [now apply chloride_run_spec|].
  intros t Ht.
  destruct (Spec.initial_mass hT hB w) as [m0| | |] eqn:Em;
    try discriminate Hfin.
  assert (Hall : Forall (fun x => Spec.stands_for x m0)
                        (Spec.masses fl w (Fin m0) (of_Z 90) (df_index fl))).
  { apply masses_closed; auto.
    exists m0. split; reflexivity. }
  destruct (sr_loc_in (Spec.chloride fl w hT hB) t) as [c Hc].
  { unfold Spec.chloride, sr_index. rewrite map_map. cbn [fst].
    rewrite Em.
    change (map (fun x : time * num => fst x) ?l) with (map fst l).
    rewrite map_fst_combine_eq; [exact Ht|].
    symmetry. apply masses_length. }
  exists c. split; [exact Hc|].
  apply sr_loc_ok_in in Hc. unfold Spec.chloride in Hc. rewrite Em in Hc.
  apply in_map_iff in Hc. destruct Hc as ([t' x] & Heq & Hin).
  cbn [fst snd] in Heq. injection Heq as -> <-.
  apply in_combine_r in Hin. rewrite Forall_forall in Hall.
  destruct (Hall x Hin) as (a & -> & Ha).
  destruct (Hstor t Ht) as [Hsf Hnz].
  destruct (Spec.storage_at w t) as [s| | |]; try discriminate Hsf.
  cbn [is_zero] in Hnz. cbn [div]. rewrite Hnz. cbn [eqv].
  now rewrite Ha.
Qed.

Lemma chloride_mass_is_conserved_witness :
  exists C,
    Eag.calculate_chloride_concentration Examples.unit_closed = Ok C
    /\ exists c, sr_loc C 2 = Ok c
                 /\ (c == Fin (9000 # 1) / Fin (100 # 1))%num.
Proof.
  destruct (chloride_mass_is_conserved
              Examples.unit_closed
              (mkDF [1; 2]
                    (map (fun c => (c, [Examples.q 0; Examples.q 0]))
                         Spec.categories))
              (Examples.the_water 110 100 Examples.closed_fluxes)
              (Examples.q 0) (Examples.q (-1))
              eq_refl eq_refl eq_refl eq_refl eq_refl eq_refl)
    as (C & HC & Hval).
  - cbn. repeat constructor; cbn; intuition discriminate.
  - reflexivity.
  - intros t c Ht Hc. exists (inject_Z 0).
    cbn in Ht. destruct Ht as [<-|[<-|[]]];
      (cbn in Hc;
       repeat (destruct Hc as [<-|Hc]; [split; reflexivity|]);
       destruct Hc).
  - intros t Ht. cbn in Ht. destruct Ht as [<-|[<-|[]]]; split; reflexivity.
  - exists C. split; [exact HC|].
    destruct (Hval 2) as (c & Hc & Heq); [cbn; auto|].
    exists c. split; [exact Hc|].
    unfold eqv in *. cbn in Heq |- *. exact Heq.
Defined.
